(** * better-docs: the indexing and resolution core, and the log parser

    A shallow embedding of the Go packages [parser] (restassured_parser.go)
    and [indexing] (specs.go), with the properties the design document
    states about them, and of the handlers of package [route] that call
    them.

    Go strings are byte sequences; they are modelled by [string], whose
    characters are the 256 values of [ascii]. Go maps are finite maps
    ([gmap]); slices are lists. Functions of the Go standard library that
    are small and completely specified ([strings.Split], [strings.Trim],
    [strings.TrimSpace], ...) are written out in [GoStrings]; the large ones
    (URL parsing, Unicode case mapping, JSON decoding, SHA-256, the OpenAPI
    loader and the full-text engine) are operations of the class [GoLib]:
    every theorem holds for whatever they compute. *)

From Stdlib Require Import String Ascii NArith List Bool Arith Lia.
From stdpp Require Import base option list gmap strings.

Set Warnings "-register-all".

Local Open Scope string_scope.
Local Open Scope list_scope.

(* ===================================================================== *)
(** ** Package [strings] of the Go standard library                       *)
(* ===================================================================== *)

Module GoStrings.

(** [len(s)] *)
Definition len (s : string) : nat := String.length s.

(** [strings.HasPrefix(s, prefix)] *)
Fixpoint HasPrefix (s prefix : string) {struct prefix} : bool :=
  match prefix, s with
  | EmptyString, _ => true
  | String _ _, EmptyString => false
  | String p prefix', String c s' => Ascii.eqb c p && HasPrefix s' prefix'
  end.

(** [s[n:]], for [n <= len(s)] *)
Fixpoint drop (n : nat) (s : string) : string :=
  match n, s with
  | O, _ => s
  | S _, EmptyString => EmptyString
  | S n', String _ s' => drop n' s'
  end.

(** [strings.TrimPrefix(s, prefix)] *)
Definition TrimPrefix (s prefix : string) : string :=
  if HasPrefix s prefix then drop (len prefix) s else s.

(** Reversal of a string, used to read a string from its end. *)
Fixpoint rev_onto (s acc : string) : string :=
  match s with
  | EmptyString => acc
  | String c s' => rev_onto s' (String c acc)
  end.

Definition rev (s : string) : string := rev_onto s EmptyString.

(** [strings.HasSuffix(s, suffix)] *)
Definition HasSuffix (s suffix : string) : bool :=
  HasPrefix (rev s) (rev suffix).

(** Membership of a byte in a cutset. The cutsets used by the program
    hold ASCII bytes only, for which Go's rune-wise and this byte-wise
    reading coincide. *)
Fixpoint inCutset (c : ascii) (cutset : string) : bool :=
  match cutset with
  | EmptyString => false
  | String d cutset' => Ascii.eqb c d || inCutset c cutset'
  end.

(** [strings.TrimLeft(s, cutset)] *)
Fixpoint TrimLeft (s cutset : string) : string :=
  match s with
  | EmptyString => EmptyString
  | String c s' => if inCutset c cutset then TrimLeft s' cutset else s
  end.

(** [strings.TrimRight(s, cutset)] *)
Definition TrimRight (s cutset : string) : string :=
  rev (TrimLeft (rev s) cutset).

(** [strings.Trim(s, cutset)] *)
Definition Trim (s cutset : string) : string :=
  TrimRight (TrimLeft s cutset) cutset.

(** [strings.Split(s, sep)] for a separator of one byte, which is what
    every call site passes (["/"] and ["|"]). The result is never empty:
    [Split("", "/")] is [[""]]. *)
Fixpoint Split (s : string) (sep : ascii) : list string :=
  match s with
  | EmptyString => [EmptyString]
  | String c s' =>
      if Ascii.eqb c sep then EmptyString :: Split s' sep
      else match Split s' sep with
           | h :: t => String c h :: t
           | [] => [String c EmptyString]
           end
  end.

(** [strings.SplitN(s, sep, n)] for a separator of one byte and [n >= 0]:
    at most [n] pieces, the last one holding the unsplit remainder. *)
Fixpoint SplitN (s : string) (sep : ascii) (n : nat) {struct s} : list string :=
  match n with
  | 0 => []
  | 1 => [s]
  | S n' =>
      match s with
      | EmptyString => [EmptyString]
      | String c s' =>
          if Ascii.eqb c sep then EmptyString :: SplitN s' sep n'
          else match SplitN s' sep n with
               | h :: t => String c h :: t
               | [] => [String c EmptyString]
               end
      end
  end.

(** [strings.Join(elems, sep)] *)
Fixpoint Join (elems : list string) (sep : string) : string :=
  match elems with
  | [] => EmptyString
  | [e] => e
  | e :: rest => e +:+ sep +:+ Join rest sep
  end.

(** *** [strings.TrimSpace]

    White space is what [unicode.IsSpace] accepts. On bytes: the six ASCII
    characters, and the UTF-8 encodings of U+0085, U+00A0, U+1680,
    U+2000..U+200A, U+2028, U+2029, U+202F, U+205F and U+3000. A byte
    sequence that is not one of those encodings decodes to a rune that is
    not white space, so trimming stops there. *)

Definition byteIs (c : ascii) (n : N) : bool := N.eqb (N_of_ascii c) n.

Definition isAsciiSpace (c : ascii) : bool :=
  byteIs c 9 || byteIs c 10 || byteIs c 11 || byteIs c 12 || byteIs c 13
  || byteIs c 32.

(** The two-byte encodings [b1 b2] of white space (U+0085, U+00A0). *)
Definition isSpace2 (b1 b2 : ascii) : bool :=
  byteIs b1 194 && (byteIs b2 133 || byteIs b2 160).

(** The three-byte encodings [b1 b2 b3] of white space. *)
Definition isSpace3 (b1 b2 b3 : ascii) : bool :=
  (byteIs b1 225 && byteIs b2 154 && byteIs b3 128)
  || (byteIs b1 226 && byteIs b2 128
      && ((N.leb 128 (N_of_ascii b3) && N.leb (N_of_ascii b3) 138)
          || byteIs b3 168 || byteIs b3 169 || byteIs b3 175))
  || (byteIs b1 226 && byteIs b2 129 && byteIs b3 159)
  || (byteIs b1 227 && byteIs b2 128 && byteIs b3 128).

(** [strings.TrimLeftFunc(s, unicode.IsSpace)] *)
Fixpoint trimLeftSpace (s : string) : string :=
  match s with
  | EmptyString => EmptyString
  | String b1 s1 =>
      if isAsciiSpace b1 then trimLeftSpace s1
      else match s1 with
           | EmptyString => s
           | String b2 s2 =>
               if isSpace2 b1 b2 then trimLeftSpace s2
               else match s2 with
                    | EmptyString => s
                    | String b3 s3 =>
                        if isSpace3 b1 b2 b3 then trimLeftSpace s3 else s
                    end
           end
  end.

(** [strings.TrimRightFunc(s, unicode.IsSpace)] applied to the reversal
    of [s]: the last rune is read backwards from the end. *)
Fixpoint trimLeftSpaceRev (r : string) : string :=
  match r with
  | EmptyString => EmptyString
  | String b1 r1 =>
      if isAsciiSpace b1 then trimLeftSpaceRev r1
      else match r1 with
           | EmptyString => r
           | String b2 r2 =>
               if isSpace2 b2 b1 then trimLeftSpaceRev r2
               else match r2 with
                    | EmptyString => r
                    | String b3 r3 =>
                        if isSpace3 b3 b2 b1 then trimLeftSpaceRev r3 else r
                    end
           end
  end.

Definition TrimSpace (s : string) : string :=
  rev (trimLeftSpaceRev (rev (trimLeftSpace s))).

(** [s] holds no byte [c]. *)
Fixpoint free_of (c : ascii) (s : string) : bool :=
  match s with
  | EmptyString => true
  | String d s' => negb (Ascii.eqb d c) && free_of c s'
  end.

(** [strings.LastIndexByte(s, c)]; [None] stands for -1. *)
Fixpoint LastIndexByte (s : string) (c : ascii) : option nat :=
  match s with
  | EmptyString => None
  | String d s' =>
      match LastIndexByte s' c with
      | Some i => Some (S i)
      | None => if Ascii.eqb d c then Some 0 else None
      end
  end.

(** [s[lo:hi]], for [lo <= hi <= len(s)] *)
Definition slice (s : string) (lo hi : nat) : string :=
  String.substring lo (hi - lo) s.

End GoStrings.

(* ===================================================================== *)
(** ** Values shared by the packages                                      *)
(* ===================================================================== *)

(** A Go call that returns [(value, error)]. *)
Inductive result (E A : Type) : Type :=
| Ok (a : A)
| Err (e : E).
Arguments Ok {E A} a.
Arguments Err {E A} e.

(** A Go call that may panic instead of returning. *)
Inductive outcome (A : Type) : Type :=
| Done (a : A)
| Panic (msg : string).
Arguments Done {A} a.
Arguments Panic {A} msg.

(** The value [encoding/json] decodes into [interface{}]: the generic
    document tree the sanitizer walks. A number keeps the text of its
    literal; the program never looks at one. *)
Inductive JSON : Type :=
| JNull
| JBool (b : bool)
| JNumber (lit : string)
| JString (s : string)
| JArray (elems : list JSON)
| JObject (fields : gmap string JSON).

(** ** Package [net/url] *)

Module GoURL.
Import GoStrings.

(** The fields of [url.URL] the program reads. *)
Record URL : Type := mkURL {
  Scheme : string;
  Host : string;      (* host or host:port *)
  Path : string;
  RawQuery : string
}.

(** [validOptionalPort(port)]: empty, or a colon followed by digits only *)
Definition isDigit (c : ascii) : bool :=
  N.leb 48 (N_of_ascii c) && N.leb (N_of_ascii c) 57.

Fixpoint allDigits (s : string) : bool :=
  match s with
  | EmptyString => true
  | String c s' => isDigit c && allDigits s'
  end.

Definition validOptionalPort (port : string) : bool :=
  match port with
  | EmptyString => true
  | String c digits => Ascii.eqb c ":" && allDigits digits
  end.

(** [splitHostPort(hostPort)]: the port is cut at the last colon when what
    follows it is a valid port; square brackets around the host are
    removed. *)
Definition splitHostPort (hostPort : string) : string * string :=
  let '(host, port) :=
    match LastIndexByte hostPort ":" with
    | Some colon =>
        if validOptionalPort (drop colon hostPort)
        then (slice hostPort 0 colon, drop (S colon) hostPort)
        else (hostPort, EmptyString)
    | None => (hostPort, EmptyString)
    end in
  if HasPrefix host "[" && HasSuffix host "]"
  then (slice host 1 (len host - 1), port)
  else (host, port).

(** [u.Hostname()] *)
Definition Hostname (u : URL) : string := fst (splitHostPort (Host u)).

End GoURL.

(** ** The libraries the program calls

    What the program needs of the Go standard library, of kin-openapi and of
    bleve beyond the functions written out above. Nothing is assumed of
    these operations. *)

Module Lib.

(** One operation of an OpenAPI path item, as [openapi3.Operation]. *)
Record Operation : Type := mkOperation {
  Summary : string;
  opDescription : string;
  opOperationID : string;
  opTags : list string
}.

(** [openapi3.PathItem]: the nine verb fields, nil or an operation. *)
Record PathItem : Type := mkPathItem {
  Get : option Operation;
  Post : option Operation;
  Put : option Operation;
  Delete : option Operation;
  Options : option Operation;
  Head : option Operation;
  Patch : option Operation;
  Trace : option Operation;
  Connect : option Operation
}.

(** A dynamic value [interface{}] as it occurs in an indexed document and
    in the stored fields of a search hit. *)
Inductive iface : Type :=
| INil
| IString (s : string)                (* string *)
| IStrings (l : list string)          (* []string *)
| ISlice (l : list iface).            (* []interface{} *)

(** [search.DocumentMatch]: a hit with its document id and stored fields. *)
Record Hit : Type := mkHit {
  ID : string;
  Fields : gmap string iface
}.

(** The queries [SearchBleve] builds. *)
Inductive Query : Type :=
| QueryStringQuery (q : string)
| TermQuery (field term : string)
| DisjunctionQuery (qs : list Query)
| ConjunctionQuery (qs : list Query).

(** [bleve.SearchRequest] *)
Record SearchRequest : Type := mkSearchRequest {
  Q : Query;
  Size : nat;
  From : nat;
  ReqFields : list string
}.

(** A shard: the documents indexed so far, by id. *)
Definition Shard : Type := gmap string (gmap string iface).

(** One entry of the configuration file (declared in package [indexing],
    decoded by [encoding/json]). *)
Record SpecConfig : Type := mkSpecConfig {
  DisplayName : string;
  Name : string;
  cfgFile : string;
  cfgURL : string
}.

Class GoLib : Type := {
  (** [url.Parse]; [None] when it returns an error *)
  url_Parse : string -> option GoURL.URL;
  (** [u.Query()] *)
  url_Query : GoURL.URL -> gmap string (list string);
  (** [strings.ToUpper] and [strings.ToLower] (Unicode case mapping) *)
  ToUpper : string -> string;
  ToLower : string -> string;
  (** [textproto.CanonicalMIMEHeaderKey] *)
  CanonicalMIMEHeaderKey : string -> string;
  (** [json.Unmarshal(data, &raw)] for [raw map[string]interface{}]:
      [Ok None] is the nil map the text [null] decodes to. *)
  json_Unmarshal : string -> result unit (option (gmap string JSON));
  (** [json.Unmarshal(data, &cfgs)] for [cfgs []SpecConfig] *)
  json_UnmarshalConfigs : string -> option (list SpecConfig);
  (** [hex.EncodeToString(sha256.Sum256(data))] *)
  sha256_hex : string -> string;
  (** [gob] encoding of the name-to-hash table *)
  gob_Encode : gmap string string -> string;
  (** [filepath.Abs] and [filepath.Join] *)
  filepath_Abs : string -> option string;
  filepath_Join : string -> string -> string;
  (** [json.Marshal] followed by [openapi3.NewLoader().LoadFromData]: the
      path items by template, in the order the loader's map iterates;
      [None] when the loader fails and returns a nil document. *)
  openapi3_Load : option (gmap string JSON) -> option (list (string * PathItem));
  (** [idx.Search(request)] on an index or an alias of shards: the hits in
      rank order and the total, or an error. *)
  bleve_Search : list Shard -> SearchRequest -> option (list Hit * nat)
}.

End Lib.


(* ===================================================================== *)
(** ** Package [parser]: restassured_parser.go                            *)
(* ===================================================================== *)

Module Parser.
Import GoStrings Lib.

Inductive State : Type :=
| StateNone
| StateHeaders
| StateBody.

Record ParsedRequest : Type := mkParsedRequest {
  Method : string;
  URI : string;
  Headers : gmap string (list string);   (* textproto.MIMEHeader *)
  Params : gmap string (list string);    (* url.Values *)
  Body : string;                         (* []byte *)
  PathParams : gmap string string
}.

(** The errors [ParseLog] returns: the reader's own, or its
    ["missing method or URI"]. *)
Inductive ParseError : Type :=
| ErrRead (e : string)
| ErrMissingMethodOrURI.

(** How the byte stream behind the [bufio.Reader] ends: with [io.EOF], or
    with a read error once its bytes are used up. *)
Inductive ReadEnd : Type :=
| EOF
| ReadFails (e : string).

Record Reader : Type := mkReader {
  content : string;
  ending : ReadEnd
}.

Definition newline : ascii := "010"%char.

(** Every [r.ReadString('\n')] that finds its delimiter, in order, and the
    bytes left after the last delimiter (returned together with the
    stream's end). *)
Fixpoint readLines (s : string) : list string * string :=
  match s with
  | EmptyString => ([], EmptyString)
  | String c s' =>
      let '(lines, rest) := readLines s' in
      if Ascii.eqb c newline then (String c EmptyString :: lines, rest)
      else match lines with
           | l :: lines' => (String c l :: lines', rest)
           | [] => ([], String c rest)
           end
  end.

(** The variables of the loop in [ParseLog]. *)
Record Loop : Type := mkLoop {
  pr : ParsedRequest;
  bodyLines : list string;
  state : State
}.

Definition setMethod (p : ParsedRequest) (m : string) : ParsedRequest :=
  mkParsedRequest m (URI p) (Headers p) (Params p) (Body p) (PathParams p).

Definition setURI (p : ParsedRequest) (u : string) : ParsedRequest :=
  mkParsedRequest (Method p) u (Headers p) (Params p) (Body p) (PathParams p).

Definition setHeaders (p : ParsedRequest) (h : gmap string (list string)) : ParsedRequest :=
  mkParsedRequest (Method p) (URI p) h (Params p) (Body p) (PathParams p).

Definition setParams (p : ParsedRequest) (q : gmap string (list string)) : ParsedRequest :=
  mkParsedRequest (Method p) (URI p) (Headers p) q (Body p) (PathParams p).

Definition setBody (p : ParsedRequest) (b : string) : ParsedRequest :=
  mkParsedRequest (Method p) (URI p) (Headers p) (Params p) b (PathParams p).

Section WithLib.
Context `{GoLib}.

(** [h.Add(key, value)] of [textproto.MIMEHeader] *)
Definition MIMEHeader_Add (h : gmap string (list string)) (key value : string)
  : gmap string (list string) :=
  let key := CanonicalMIMEHeaderKey key in
  <[key := default [] (h !! key) ++ [value]]> h.

(** The header [k=v] held by [text], added when [text] has an [=]. *)
Definition addHeaderLine (p : ParsedRequest) (text : string) : ParsedRequest :=
  match SplitN text "=" 2 with
  | [k; v] =>
      setHeaders p
        (MIMEHeader_Add (Headers p)
           (CanonicalMIMEHeaderKey (TrimSpace k)) (TrimSpace v))
  | _ => p
  end.

(** One turn of the loop on the line just read: the [switch]. *)
Definition processLine (st : Loop) (line : string) : Loop :=
  let trim := TrimSpace line in
  if HasPrefix trim "Request method:" then
    mkLoop (setMethod (pr st) (TrimSpace (TrimPrefix trim "Request method:")))
           (bodyLines st) (state st)
  else if HasPrefix trim "Request URI:" then
    let uri := TrimSpace (TrimPrefix trim "Request URI:") in
    let p := setURI (pr st) uri in
    mkLoop (match url_Parse uri with
            | Some u => setParams p (url_Query u)
            | None => p
            end)
           (bodyLines st) (state st)
  else if HasPrefix trim "Headers:" then
    let rest := TrimSpace (TrimPrefix trim "Headers:") in
    mkLoop (if negb (String.eqb rest "") && negb (String.eqb rest "<none>")
            then addHeaderLine (pr st) rest else pr st)
           (bodyLines st) StateHeaders
  else if HasPrefix trim "Body:" then
    let c := TrimSpace (TrimPrefix trim "Body:") in
    mkLoop (pr st)
           (if negb (String.eqb c "") && negb (String.eqb c "<none>")
            then bodyLines st ++ [c] else bodyLines st)
           StateBody
  else
    match state st with
    | StateHeaders =>
        if String.eqb trim "" then mkLoop (pr st) (bodyLines st) StateNone
        else mkLoop (addHeaderLine (pr st) trim) (bodyLines st) StateHeaders
    | StateBody =>
        if String.eqb trim "" || HasPrefix trim "Response"
        then mkLoop (pr st) (bodyLines st) StateNone
        else mkLoop (pr st) (bodyLines st ++ [trim]) StateBody
    | StateNone => st
    end.

Definition emptyRequest : ParsedRequest :=
  mkParsedRequest "" "" ∅ ∅ "" ∅.

Definition initial : Loop := mkLoop emptyRequest [] StateNone.

(** The loop variables once the whole stream has been read to [io.EOF]:
    every delimited line, then the bytes after the last delimiter. *)
Definition consume (s : string) : Loop :=
  let '(lines, rest) := readLines s in
  processLine (fold_left processLine lines initial) rest.

(** [ParseLog(r)]: the request and the error, both returned in every
    case. A read error returns at once, before the bytes read with it are
    looked at and before [Body] is set. *)
Definition ParseLog (r : Reader) : ParsedRequest * option ParseError :=
  match ending r with
  | ReadFails e =>
      (pr (fold_left processLine (fst (readLines (content r))) initial),
       Some (ErrRead e))
  | EOF =>
      let st := consume (content r) in
      let p := setBody (pr st) (Join (bodyLines st) (String newline "")) in
      if String.eqb (Method p) "" || String.eqb (URI p) ""
      then (p, Some ErrMissingMethodOrURI)
      else (p, None)
  end.

End WithLib.

(** *** Notions the properties are stated with *)

(** The trimmed line begins with one of the four keywords the [switch]
    tests before it looks at the state. *)
Definition isKeyword (trim : string) : bool :=
  HasPrefix trim "Request method:" || HasPrefix trim "Request URI:"
  || HasPrefix trim "Headers:" || HasPrefix trim "Body:".

(** Every string [ParseLog] reads from a stream that ends with [io.EOF]. *)
Definition allLines (s : string) : list string :=
  fst (readLines s) ++ [snd (readLines s)].

(** The trimmed remainder of the last line of [lines] that begins, once
    trimmed, with [keyword]; empty when there is none. *)
Definition lastField (keyword : string) (lines : list string) : string :=
  fold_left (fun acc line =>
               let trim := TrimSpace line in
               if HasPrefix trim keyword
               then TrimSpace (TrimPrefix trim keyword) else acc)
            lines "".

End Parser.

(* ===================================================================== *)
(** ** Package [indexing]: specs.go                                       *)
(* ===================================================================== *)

Module Indexing.
Import GoStrings Lib.

(** *** Data *)

Record OpEntry : Type := mkOpEntry {
  Method : string;
  Template : string;
  OperationID : string;
  Description : string;
  Tags : list string
}.

Record SpecIndex : Type := mkSpecIndex {
  SpecName : string;
  File : string;
  Host : string;
  BasePath : string;
  ContentHash : string
}.

Record SearchResult : Type := mkSearchResult {
  srSpecName : string;
  srOperationID : string;
  srMethod : string;
  srTemplate : string;
  srDescription : string;
  srTags : list string
}.

(** [Registry]: host to spec. *)
Definition Registry : Type := gmap string SpecIndex.

Definition validVerbs : list string :=
  ["get"; "put"; "post"; "delete"; "options"; "head"; "patch"; "trace"; "connect"].

Definition isValidVerb (k : string) : bool :=
  existsb (String.eqb k) validVerbs.

(** *** Template matching *)

(** [strings.HasPrefix(seg, "{") && strings.HasSuffix(seg, "}")] *)
Definition isBraced (seg : string) : bool :=
  HasPrefix seg "{" && HasSuffix seg "}".

(** [strings.Split(strings.Trim(s, "/"), "/")] *)
Definition segments (s : string) : list string :=
  Split (Trim s "/") "/".

(** The loop of [matchTemplate], entered with [len(ts) == len(ps)]: it
    walks both slices by the same index. *)
Fixpoint matchSegments (ts ps : list string) : bool :=
  match ts, ps with
  | [], _ => true
  | t :: ts', p :: ps' =>
      if isBraced t then matchSegments ts' ps'
      else if negb (String.eqb t p) then false
      else matchSegments ts' ps'
  | _ :: _, [] => false
  end.

Definition matchTemplate (tmpl path : string) : bool :=
  let ts := segments tmpl in
  let ps := segments path in
  if negb (Nat.eqb (List.length ts) (List.length ps)) then false
  else matchSegments ts ps.

(** The loop of [extractPathParams], entered with equal lengths: a later
    parameter of the same name overwrites an earlier one. [ts[1:len(ts)-1]]
    is in range, a braced segment having at least two bytes. *)
Fixpoint collectParams (tSeg pSeg : list string) (params : gmap string string)
  : gmap string string :=
  match tSeg, pSeg with
  | ts :: tSeg', p :: pSeg' =>
      collectParams tSeg' pSeg'
        (if isBraced ts then <[slice ts 1 (len ts - 1) := p]> params else params)
  | _, _ => params
  end.

Definition extractPathParams (basePath tmpl fullPath : string) : gmap string string :=
  let clean := TrimPrefix fullPath basePath in
  let clean := TrimPrefix clean "/" in
  let tSeg := segments tmpl in
  let pSeg := segments clean in
  if negb (Nat.eqb (List.length tSeg) (List.length pSeg)) then ∅
  else collectParams tSeg pSeg ∅.

(** *** Search *)

(** [ifaceSliceToString] *)
Definition ifaceSliceToString (v : iface) : list string :=
  match v with
  | ISlice elems =>
      omap (fun elem => match elem with IString s => Some s | _ => None end) elems
  | IString s => [s]
  | _ => []
  end.

(** [disjunction(field, vals)] *)
Definition disjunction (field : string) (vals : list string) : Query :=
  DisjunctionQuery (map (TermQuery field) vals).

Definition searchFields : list string :=
  ["SpecName"; "OperationID"; "Method"; "Template"; "Description"; "Tags"].

(** The body of the loop over [res.Hits] in [SearchBleve]. *)
Definition materialise (h : Hit) : SearchResult :=
  let tags := ifaceSliceToString (default INil (Fields h !! "Tags")) in
  match Split (ID h) "|" with
  | [p0; p1; p2; p3] => mkSearchResult p0 p3 p1 p2 "" tags
  | _ => mkSearchResult "" "" "" "" "" tags
  end.

(** The document [indexSpecOnDisk] hands to [idx.Index], and its id
    [fmt.Sprintf("%s|%s|%s|%s", ...)]. *)
Definition docMap (specName : string) (e : OpEntry) : gmap string iface :=
  <["SpecName" := IString specName]>
  (<["OperationID" := IString (OperationID e)]>
  (<["Method" := IString (Method e)]>
  (<["Template" := IString (Template e)]>
  (<["Description" := IString (Description e)]>
  (<["Tags" := IStrings (Tags e)]> ∅))))).

Definition docID (specName : string) (e : OpEntry) : string :=
  specName +:+ "|" +:+ Method e +:+ "|" +:+ Template e +:+ "|" +:+ OperationID e.

(** What bleve hands back as a stored field of a hit
    ([DocumentMatch.AddFieldValue]): the value itself when the field holds
    one value, a [[]interface{}] when it holds several, no entry when it
    holds none. *)
Definition storedValue (v : iface) : option iface :=
  match v with
  | IStrings [] => None
  | IStrings [s] => Some (IString s)
  | IStrings l => Some (ISlice (map IString l))
  | INil => None
  | _ => Some v
  end.

(** The hit bleve returns for a stored document when all its fields are
    requested. *)
Definition hitOf (id : string) (doc : gmap string iface) : Hit :=
  mkHit id (omap storedValue doc).

(** *** Errors *)

Inductive ServerError : Type :=
| errNoServers            (* "spec has no servers[0] entry" *)
| ErrInvalidServers0      (* "invalid servers[0]" *)
| ErrURLNotString         (* "servers[0].url not string" *)
| ErrURLParse.            (* the error of url.Parse *)

Inductive LoadError : Type :=
| ErrReadingConfig
| ErrResolving (file : string)
| ErrReadingSpec (name : string)
| ErrParsingSpec (name : string)
| ErrServer (name : string) (e : ServerError).

Inductive FindError : Type :=
| ErrInvalidURL
| ErrNoSpecForHost (host : string)
| ErrSearch
| ErrNoOperation.

Inductive BuildError : Type :=
| ErrMkdirAll
| ErrCreateIndex
| ErrReadSpecFile
| ErrIndexDoc
| ErrWriteHash
| ErrOpenIndex.

(** *** The file system *)

(** The files by path, the shard directories by path with the documents
    each holds, and the lines written with [log.Printf] by
    [BuildOrOpenSpecIndex] (what the resolver logs is left out: nothing
    reads it). *)
Record World : Type := mkWorld {
  files : gmap string string;
  shards : gmap string Shard;
  logged : list string
}.

(** Which calls into the operating system and the index engine fail in a
    run, for a reason the model does not hold (permissions, a full disk).
    A failing call changes nothing. *)
Record Faults : Type := mkFaults {
  createFails : bool;            (* os.Create(cachePath) *)
  mkdirAllFails : bool;          (* os.MkdirAll(baseDir) *)
  removeAllFails : bool;         (* os.RemoveAll(dir) *)
  newUsingFails : bool;          (* bleve.NewUsing(dir, ...) *)
  indexFailsAt : option nat;     (* the idx.Index call that fails, from 0 *)
  writeFileFails : bool;         (* os.WriteFile(hashFile) *)
  openFails : bool               (* bleve.Open(dir) *)
}.

Definition noFaults : Faults :=
  mkFaults false false false false None false false.

Definition setFiles (w : World) (f : gmap string string) : World :=
  mkWorld f (shards w) (logged w).

Definition setShards (w : World) (s : gmap string Shard) : World :=
  mkWorld (files w) s (logged w).

Definition logPrintf (w : World) (line : string) : World :=
  mkWorld (files w) (shards w) (logged w ++ [line]).

(** *** Sanitizing the raw document *)

(** [string(k[0])]: the UTF-8 encoding of the rune whose number is the
    byte [b]. *)
Definition runeString (b : ascii) : string :=
  let n := N_of_ascii b in
  if N.ltb n 128 then String b EmptyString
  else String (ascii_of_N (192 + n / 64))
         (String (ascii_of_N (128 + n mod 64)) EmptyString).

(** The keys a [range] over the map visits. Go leaves open the order, and
    whether an entry added during the loop is visited; the model takes the
    keys present when the loop starts, in the order of [map_to_list]. *)
Definition rangeKeys {V : Type} (m : gmap string V) : list string :=
  map fst (map_to_list m).

Section WithLib.
Context `{GoLib}.

(** The body of the inner loop of [sanitizePaths] at key [k] of the path
    item [m]. *)
Definition sanitizeVerb (m : gmap string JSON) (k : string) : gmap string JSON :=
  let lk := ToLower k in
  if isValidVerb lk then
    if negb (String.eqb lk k)
    then delete k (<[lk := default JNull (m !! k)]> m)
    else m
  else if String.eqb k "parameters" then m
  else delete k m.

Definition sanitizePathItem (node : JSON) : JSON :=
  match node with
  | JObject m => JObject (fold_left sanitizeVerb (rangeKeys m) m)
  | _ => node
  end.

(** [sanitizePaths(raw)]; the maps are changed in place, so the result is
    the document [raw] refers to afterwards. *)
Definition sanitizePaths (raw : option (gmap string JSON)) : option (gmap string JSON) :=
  match raw with
  | Some r =>
      match r !! "paths" with
      | Some (JObject paths) =>
          Some (<["paths" := JObject (sanitizePathItem <$> paths)]> r)
      | _ => raw
      end
  | None => None
  end.

(** The body of the loop of [sanitizeComponents] at key [k]: [k[0]] is out
    of range when [k] is empty. *)
Definition titleCase (schemas : gmap string JSON) (k : string)
  : outcome (gmap string JSON) :=
  match k with
  | EmptyString => Panic "index out of range [0] with length 0"
  | String k0 k1 =>
      let title := ToUpper (runeString k0) +:+ k1 in
      if negb (String.eqb title k)
      then Done (<[title := default JNull (schemas !! k)]> schemas)
      else Done schemas
  end.

(** The loop over the keys [ks], stopping at the first panic. *)
Fixpoint titleCaseAll (ks : list string) (schemas : gmap string JSON)
  : outcome (gmap string JSON) :=
  match ks with
  | [] => Done schemas
  | k :: ks' =>
      match titleCase schemas k with
      | Done schemas' => titleCaseAll ks' schemas'
      | Panic msg => Panic msg
      end
  end.

(** [components.schemas] of the raw document when both are objects, as the
    two type assertions of [sanitizeComponents] read it. *)
Definition schemasOf (raw : option (gmap string JSON)) : option (gmap string JSON) :=
  match raw with
  | Some r =>
      match r !! "components" with
      | Some (JObject comps) =>
          match comps !! "schemas" with
          | Some (JObject schemas) => Some schemas
          | _ => None
          end
      | _ => None
      end
  | None => None
  end.

Definition componentsOf (r : gmap string JSON) : gmap string JSON :=
  match r !! "components" with
  | Some (JObject comps) => comps
  | _ => ∅
  end.

(** [sanitizeComponents(raw)], on the run of its loop that visits the keys
    present when the loop starts and none of those it inserts;
    [sanitizeComponentsOn] below gives every run. *)
Definition sanitizeComponents (raw : option (gmap string JSON))
  : outcome (option (gmap string JSON)) :=
  match raw, schemasOf raw with
  | Some r, Some schemas =>
      match titleCaseAll (rangeKeys schemas) schemas with
      | Done schemas' =>
          Done (Some (<["components" :=
                          JObject (<["schemas" := JObject schemas']> (componentsOf r))]> r))
      | Panic msg => Panic msg
      end
  | _, _ => Done raw
  end.

(** *** Every run of the loop of [sanitizeComponents]

    The loop inserts into the map it ranges over. A Go [range] over a map
    produces every entry once, in an order left open; an entry created
    during the loop may be produced later in the same loop, or skipped. *)

(** [strings.ToUpper(string(k[0])) + k[1:]], for a key [k] that is not
    empty. *)
Definition titleOf (k : string) : string :=
  match k with
  | EmptyString => EmptyString
  | String k0 k1 => ToUpper (runeString k0) +:+ k1
  end.

(** Every key of [ks] is a key of the map when the loop comes to it. *)
Fixpoint visitable (ks : list string) (schemas : gmap string JSON) : bool :=
  match ks with
  | [] => true
  | k :: ks' =>
      bool_decide (is_Some (schemas !! k))
      && match titleCase schemas k with
         | Done schemas' => visitable ks' schemas'
         | Panic _ => true
         end
  end.

(** The sequences of keys a [range] over [schemas] may visit with this
    loop body: no key twice, every key present at the start, and beyond
    those only keys the loop has inserted before it comes to them. *)
Definition visits (ks : list string) (schemas : gmap string JSON) : bool :=
  bool_decide (NoDup ks)
  && forallb (fun k => bool_decide (k ∈ ks)) (rangeKeys schemas)
  && visitable ks schemas.

(** [sanitizeComponents(raw)] on the run that visits [ks]. *)
Definition sanitizeComponentsOn (ks : list string) (raw : option (gmap string JSON))
  : outcome (option (gmap string JSON)) :=
  match raw, schemasOf raw with
  | Some r, Some schemas =>
      match titleCaseAll ks schemas with
      | Done schemas' =>
          Done (Some (<["components" :=
                          JObject (<["schemas" := JObject schemas']> (componentsOf r))]> r))
      | Panic msg => Panic msg
      end
  | _, _ => Done raw
  end.

Definition refPrefix : string := "#/components/schemas/".

(** [walk] of [injectMissingSchemas]: the names behind every ["$ref"]
    string that starts with [refPrefix]; the value of a ["$ref"] key is not
    walked into. *)
Fixpoint walk (node : JSON) : gset string :=
  match node with
  | JObject n =>
      map_fold (fun k v refs =>
                  if String.eqb k "$ref" then
                    match v with
                    | JString s =>
                        if HasPrefix s refPrefix
                        then {[drop (len refPrefix) s]} ∪ refs
                        else refs
                    | _ => refs
                    end
                  else walk v ∪ refs) ∅ n
  | JArray n => fold_right (fun e refs => walk e ∪ refs) ∅ n
  | _ => ∅
  end.

(** The last loop of [injectMissingSchemas]. *)
Definition addStubs (refs : gset string) (schemas : gmap string JSON) : gmap string JSON :=
  set_fold (fun name acc =>
              match acc !! name with
              | Some _ => acc
              | None => <[name := JObject {["type" := JString "object"]}]> acc
              end) schemas refs.

(** [injectMissingSchemas(raw)]: storing into the nil map panics. *)
Definition injectMissingSchemas (raw : option (gmap string JSON))
  : outcome (option (gmap string JSON)) :=
  match raw with
  | None => Panic "assignment to entry in nil map"
  | Some r =>
      let refs := walk (JObject r) in
      let comps := componentsOf r in
      let schemas :=
        match comps !! "schemas" with
        | Some (JObject schemas) => schemas
        | _ => ∅
        end in
      Done (Some (<["components" :=
                      JObject (<["schemas" := JObject (addStubs refs schemas)]> comps)]> r))
  end.

(** *** Extracting the operations *)

(** [extractOperations(item)]; the map it builds is read back in the
    order the verbs are tested. *)
Definition extractOperations (item : PathItem) : list (string * Operation) :=
  omap (fun '(verb, op) => pair verb <$> op)
    [("GET", Get item); ("POST", Post item); ("PUT", Put item);
     ("DELETE", Delete item); ("OPTIONS", Options item); ("HEAD", Head item);
     ("PATCH", Patch item); ("TRACE", Trace item); ("CONNECT", Connect item)].

(** [extractOpEntries(doc)] *)
Definition extractOpEntries (doc : list (string * PathItem)) : list OpEntry :=
  flat_map (fun '(tmpl, item) =>
              map (fun '(method, op) =>
                     let desc := if String.eqb (Summary op) ""
                                 then opDescription op else Summary op in
                     mkOpEntry method tmpl (opOperationID op) desc (opTags op))
                  (extractOperations item))
           doc.

(** *** Building the shards *)

(** The loop of [indexSpecOnDisk]: [idx.Index(id, docMap)] for each entry,
    [n] calls having been made before; it returns at the first call that
    fails, the documents indexed until then staying in the shard. *)
Fixpoint indexEntries (flt : Faults) (specName : string) (es : list OpEntry)
    (n : nat) (shard : Shard) : Shard * result BuildError unit :=
  match es with
  | [] => (shard, Ok tt)
  | e :: es' =>
      if decide (indexFailsAt flt = Some n) then (shard, Err ErrIndexDoc)
      else indexEntries flt specName es' (S n)
             (<[docID specName e := docMap specName e]> shard)
  end.

(** [indexSpecOnDisk(idx, spec)], [idx] being the open shard at [dir]. The
    errors of [json.Unmarshal] and of the loader are dropped by the source:
    the first leaves [raw] nil, the second leaves [doc] nil, on which
    [extractOpEntries] dereferences a nil pointer. *)
Definition indexSpecOnDisk (flt : Faults) (w : World) (dir : string) (spec : SpecIndex)
  : World * outcome (result BuildError unit) :=
  match files w !! File spec with
  | None => (w, Done (Err ErrReadSpecFile))
  | Some data =>
      let raw := match json_Unmarshal data with
                 | Ok r => r
                 | Err _ => None
                 end in
      match sanitizeComponents (sanitizePaths raw) with
      | Panic msg => (w, Panic msg)
      | Done raw =>
          match injectMissingSchemas raw with
          | Panic msg => (w, Panic msg)
          | Done raw =>
              match openapi3_Load raw with
              | None => (w, Panic "invalid memory address or nil pointer dereference")
              | Some doc =>
                  let '(shard, r) :=
                    indexEntries flt (SpecName spec) (extractOpEntries doc) 0
                      (default ∅ (shards w !! dir)) in
                  (setShards w (<[dir := shard]> (shards w)), Done r)
              end
          end
      end
  end.

Definition shardDir (baseDir : string) (spec : SpecIndex) : string :=
  filepath_Join baseDir (SpecName spec +:+ ".bleve").

Definition hashFile (baseDir : string) (spec : SpecIndex) : string :=
  filepath_Join baseDir (SpecName spec +:+ ".hash").

(** [prevHash]: the bytes of the hash sibling, empty when it cannot be
    read. *)
Definition prevHash (w : World) (baseDir : string) (spec : SpecIndex) : string :=
  default "" (files w !! hashFile baseDir spec).

(** [needRebuild] *)
Definition needRebuild (w : World) (baseDir : string) (spec : SpecIndex) : bool :=
  negb (String.eqb (prevHash w baseDir spec) (ContentHash spec))
  || bool_decide (shards w !! shardDir baseDir spec = None).

Definition rebuildNotice (spec : SpecIndex) : string :=
  "→ rebuilding " +:+ SpecName spec +:+ " (hash changed or missing)".

(** The specs [specs] have a hash sibling and a shard directory other
    than those of [spec]. *)
Definition separate (baseDir : string) (spec : SpecIndex) (specs : list SpecIndex) : Prop :=
  Forall (fun spec' => hashFile baseDir spec' <> hashFile baseDir spec
                       /\ shardDir baseDir spec' <> shardDir baseDir spec) specs.

(** [BuildOrOpenSpecIndex(baseDir, im, spec)]. The index it returns is the
    shard directory it stands for. *)
Definition BuildOrOpenSpecIndex (flt : Faults) (w : World) (baseDir : string)
    (spec : SpecIndex) : World * outcome (result BuildError string) :=
  let dir := shardDir baseDir spec in
  if mkdirAllFails flt then (w, Done (Err ErrMkdirAll))
  else if needRebuild w baseDir spec then
    let w := logPrintf w (rebuildNotice spec) in
    let w := if removeAllFails flt then w
             else setShards w (delete dir (shards w)) in
    if newUsingFails flt || bool_decide (is_Some (shards w !! dir))
    then (w, Done (Err ErrCreateIndex))
    else
      let w := setShards w (<[dir := ∅]> (shards w)) in
      match indexSpecOnDisk flt w dir spec with
      | (w, Panic msg) => (w, Panic msg)
      | (w, Done (Err e)) => (w, Done (Err e))
      | (w, Done (Ok _)) =>
          if writeFileFails flt then (w, Done (Err ErrWriteHash))
          else (setFiles w (<[hashFile baseDir spec := ContentHash spec]> (files w)),
                Done (Ok dir))
      end
  else if openFails flt then (w, Done (Err ErrOpenIndex))
  else (w, Done (Ok dir)).

(** The tasks of [BuildShardedIndices], run one after the other: the
    alias of the shards that opened, and the first error. *)
Fixpoint buildAll (flt : Faults) (w : World) (baseDir : string)
    (specs : list SpecIndex) (alias : list string) (firstErr : option BuildError)
  : World * outcome (list string * option BuildError) :=
  match specs with
  | [] => (w, Done (alias, firstErr))
  | spec :: specs' =>
      match BuildOrOpenSpecIndex flt w baseDir spec with
      | (w, Panic msg) => (w, Panic msg)
      | (w, Done (Err e)) =>
          buildAll flt w baseDir specs' alias
            (match firstErr with Some _ => firstErr | None => Some e end)
      | (w, Done (Ok idx)) =>
          buildAll flt w baseDir specs' (alias ++ [idx]) firstErr
      end
  end.

(** [BuildShardedIndices(baseDir, im, reg)]. The goroutines are taken in
    the order of [map_to_list]. *)
Definition BuildShardedIndices (flt : Faults) (w : World) (baseDir : string)
    (reg : Registry) : World * outcome (list string * option BuildError) :=
  buildAll flt w baseDir (map snd (map_to_list reg)) [] None.

(** *** Loading the configuration *)

(** [computeSHA(data)] *)
Definition computeSHA (data : string) : string := sha256_hex data.

(** [firstServerInfo(raw)] *)
Definition firstServerInfo (raw : option (gmap string JSON))
  : result ServerError (string * string) :=
  match raw ≫= (fun r => r !! "servers") with
  | Some (JArray (sv0 :: _)) =>
      match sv0 with
      | JObject m =>
          match m !! "url" with
          | Some (JString urlStr) =>
              match url_Parse urlStr with
              | None => Err ErrURLParse
              | Some u =>
                  let host := GoURL.Host u in
                  let basePath := TrimRight (GoURL.Path u) "/" in
                  let basePath := if String.eqb basePath "/" then "" else basePath in
                  Ok (host, basePath)
              end
          | _ => Err ErrURLNotString
          end
      | _ => Err ErrInvalidServers0
      end
  | _ => Err errNoServers
  end.

(** The body of the loop of [LoadConfigAndIndex]: the [SpecIndex] built
    for one configured spec, or the error the function returns. *)
Definition loadSpec (w : World) (cfg : SpecConfig) : result LoadError SpecIndex :=
  match filepath_Abs (cfgFile cfg) with
  | None => Err (ErrResolving (cfgFile cfg))
  | Some abs =>
      match files w !! abs with
      | None => Err (ErrReadingSpec (Name cfg))
      | Some rawBytes =>
          let hash := computeSHA rawBytes in
          match json_Unmarshal rawBytes with
          | Err _ => Err (ErrParsingSpec (Name cfg))
          | Ok raw =>
              match firstServerInfo raw with
              | Err e => Err (ErrServer (Name cfg) e)
              | Ok (host, base) => Ok (mkSpecIndex (Name cfg) abs host base hash)
              end
          end
      end
  end.

(** The loop itself: [registry[host] = &SpecIndex{...}] and
    [updated[cfg.Name] = hash] for each spec in turn, returning at the
    first error. *)
Fixpoint loadSpecs (w : World) (cfgs : list SpecConfig) (registry : Registry)
    (updated : gmap string string)
  : result LoadError (Registry * gmap string string) :=
  match cfgs with
  | [] => Ok (registry, updated)
  | cfg :: cfgs' =>
      match loadSpec w cfg with
      | Err e => Err e
      | Ok spec =>
          loadSpecs w cfgs' (<[Host spec := spec]> registry)
            (<[Name cfg := ContentHash spec]> updated)
      end
  end.

(** [LoadConfigAndIndex(ctx, configPath, cachePath)]. The old cache is
    decoded and never read, so it is left out; the new one is written when
    [os.Create] succeeds. *)
Definition LoadConfigAndIndex (flt : Faults) (w : World) (configPath cachePath : string)
  : World * result LoadError Registry :=
  match files w !! configPath ≫= json_UnmarshalConfigs with
  | None => (w, Err ErrReadingConfig)
  | Some cfgs =>
      match loadSpecs w cfgs ∅ ∅ with
      | Err e => (w, Err e)
      | Ok (registry, updated) =>
          (if createFails flt then w
           else setFiles w (<[cachePath := gob_Encode updated]> (files w)),
           Ok registry)
      end
  end.

(** *** Searching and resolving *)

(** [SearchBleve(idx, specNames, tagFilters, queryStr, limit, offset)] *)
Definition SearchBleve (idx : list Shard) (specNames tagFilters : list string)
    (queryStr : string) (limit offset : nat)
  : result unit (list SearchResult * nat) :=
  let conj := [QueryStringQuery queryStr] in
  let conj := match specNames with
              | [] => conj
              | _ => conj ++ [disjunction "SpecName" specNames]
              end in
  let conj := match tagFilters with
              | [] => conj
              | _ => conj ++ [disjunction "Tags" tagFilters]
              end in
  let sr := mkSearchRequest (ConjunctionQuery conj) limit offset searchFields in
  match bleve_Search idx sr with
  | None => Err tt
  | Some (hits, total) => Ok (map materialise hits, total)
  end.

(** [full] and [rel] of [FindOperation]. *)
Definition relPath (meta : SpecIndex) (full : string) : string :=
  let base := TrimRight (BasePath meta) "/" in
  let rel := TrimPrefix full base in
  if negb (HasPrefix rel "/") then "/" +:+ rel else rel.

(** The test a candidate passes in the loop of [FindOperation]. *)
Definition isMatch (meta : SpecIndex) (wantMethod full rel : string) (r : SearchResult) : bool :=
  String.eqb (srSpecName r) (SpecName meta)
  && String.eqb (srMethod r) wantMethod
  && (matchTemplate (srTemplate r) full || matchTemplate (srTemplate r) rel).

(** The loop of [FindOperation] over the candidates, in rank order. *)
Fixpoint firstMatch (meta : SpecIndex) (wantMethod full rel : string)
    (results : list SearchResult)
  : result FindError (string * string * gmap string string) :=
  match results with
  | [] => Err ErrNoOperation
  | r :: results' =>
      if negb (String.eqb (srSpecName r) (SpecName meta)) then
        firstMatch meta wantMethod full rel results'
      else if negb (String.eqb (srMethod r) wantMethod) then
        firstMatch meta wantMethod full rel results'
      else if matchTemplate (srTemplate r) full || matchTemplate (srTemplate r) rel then
        Ok (srSpecName r, srOperationID r,
            extractPathParams (BasePath meta) (srTemplate r) full)
      else firstMatch meta wantMethod full rel results'
  end.

(** [FindOperation(idx, reg, method, rawURL)] *)
Definition FindOperation (idx : list Shard) (reg : Registry) (method rawURL : string)
  : result FindError (string * string * gmap string string) :=
  match url_Parse rawURL with
  | None => Err ErrInvalidURL
  | Some u =>
      let host := GoURL.Hostname u in
      match reg !! host with
      | None => Err (ErrNoSpecForHost host)
      | Some meta =>
          let full := GoURL.Path u in
          let rel := relPath meta full in
          let wantMethod := ToUpper method in
          match SearchBleve idx [] [] rel 100 0 with
          | Err _ => Err ErrSearch
          | Ok (results, _) => firstMatch meta wantMethod full rel results
          end
      end
  end.

End WithLib.

End Indexing.

(* ===================================================================== *)
(** ** A small library instance, to run the program on examples           *)
(* ===================================================================== *)

(** The operations of [GoLib] on the inputs the examples use: URLs of the
    form [scheme://host[:port]/path?query] in unreserved ASCII characters,
    ASCII case mapping, documents rendered by [renderJSON], a tokenising
    engine that ranks hits in document order. *)

Module Sample.
Import GoStrings Lib.

Definition quote : string := String "034"%char EmptyString.

(** The first [c] in [s]: what precedes it, and what follows it. *)
Fixpoint cut (s : string) (c : ascii) : string * option string :=
  match s with
  | EmptyString => (EmptyString, None)
  | String d s' =>
      if Ascii.eqb d c then (EmptyString, Some s')
      else let '(before, after) := cut s' c in (String d before, after)
  end.

Fixpoint hasControlByte (s : string) : bool :=
  match s with
  | EmptyString => false
  | String c s' =>
      N.ltb (N_of_ascii c) 32 || N.eqb (N_of_ascii c) 127 || hasControlByte s'
  end.

Definition parseURL (s : string) : option GoURL.URL :=
  if hasControlByte s then None
  else
    let '(s, _) := cut s "#" in
    let '(s, query) := cut s "?" in
    let query := default "" query in
    match cut s ":" with
    | (scheme, Some rest) =>
        if HasPrefix rest "//" then
          match cut (drop 2 rest) "/" with
          | (authority, Some path) =>
              Some (GoURL.mkURL scheme authority ("/" +:+ path) query)
          | (authority, None) => Some (GoURL.mkURL scheme authority "" query)
          end
        else Some (GoURL.mkURL "" "" s query)
    | (_, None) => Some (GoURL.mkURL "" "" s query)
    end.

(** [key=value] pairs separated by [&], without escapes. *)
Definition parseQuery (u : GoURL.URL) : gmap string (list string) :=
  match GoURL.RawQuery u with
  | EmptyString => ∅
  | q =>
      fold_left (fun (m : gmap string (list string)) kv =>
                   let '(k, v) := cut kv "=" in
                   <[k := default [] (m !! k) ++ [default "" v]]> m)
                (Split q "&") ∅
  end.

Definition isLower (c : ascii) : bool :=
  N.leb 97 (N_of_ascii c) && N.leb (N_of_ascii c) 122.

Definition isUpper (c : ascii) : bool :=
  N.leb 65 (N_of_ascii c) && N.leb (N_of_ascii c) 90.

Definition upperByte (c : ascii) : ascii :=
  if isLower c then ascii_of_N (N_of_ascii c - 32) else c.

Definition lowerByte (c : ascii) : ascii :=
  if isUpper c then ascii_of_N (N_of_ascii c + 32) else c.

Fixpoint mapBytes (f : ascii -> ascii) (s : string) : string :=
  match s with
  | EmptyString => EmptyString
  | String c s' => String (f c) (mapBytes f s')
  end.

Definition isAlnum (c : ascii) : bool :=
  isLower c || isUpper c || GoURL.isDigit c.

(** [validHeaderFieldByte] *)
Definition validHeaderFieldByte (c : ascii) : bool :=
  isAlnum c || inCutset c "!#$%&'*+-.^_`|~".

Fixpoint allBytes (f : ascii -> bool) (s : string) : bool :=
  match s with
  | EmptyString => true
  | String c s' => f c && allBytes f s'
  end.

Fixpoint canonicalBytes (upper : bool) (s : string) : string :=
  match s with
  | EmptyString => EmptyString
  | String c s' =>
      String (if upper then upperByte c else lowerByte c)
             (canonicalBytes (Ascii.eqb c "-") s')
  end.

Definition canonicalKey (s : string) : string :=
  if allBytes validHeaderFieldByte s then canonicalBytes true s else s.

(** JSON text of a document, without escapes or white space. *)
Fixpoint renderJSON (j : JSON) : string :=
  match j with
  | JNull => "null"
  | JBool true => "true"
  | JBool false => "false"
  | JNumber lit => lit
  | JString s => quote +:+ s +:+ quote
  | JArray elems => "[" +:+ Join (map renderJSON elems) "," +:+ "]"
  | JObject fields =>
      "{" +:+ Join (map_fold (fun k v acc =>
                               (quote +:+ k +:+ quote +:+ ":" +:+ renderJSON v) :: acc)
                             [] fields) ","
          +:+ "}"
  end.

(** The maximal runs of letters and digits of [s], in lower case. The
    first component is the run being read. *)
Fixpoint tokensFrom (s : string) : string * list string :=
  match s with
  | EmptyString => (EmptyString, [])
  | String c s' =>
      let '(run, toks) := tokensFrom s' in
      if isAlnum c then (String (lowerByte c) run, toks)
      else (EmptyString, match run with EmptyString => toks | _ => run :: toks end)
  end.

Definition tokens (s : string) : list string :=
  let '(run, toks) := tokensFrom s in
  match run with EmptyString => toks | _ => run :: toks end.

Definition fieldStrings (v : iface) : list string :=
  match v with
  | IString s => [s]
  | IStrings l => l
  | _ => []
  end.

Definition docTokens (doc : gmap string iface) : list string :=
  map_fold (fun _ v acc => flat_map tokens (fieldStrings v) ++ acc) [] doc.

Definition inList (x : string) (l : list string) : bool := existsb (String.eqb x) l.

Fixpoint matches (q : Query) (doc : gmap string iface) : bool :=
  match q with
  | QueryStringQuery s => existsb (fun t => inList t (docTokens doc)) (tokens s)
  | TermQuery field term => inList term (fieldStrings (default INil (doc !! field)))
  | DisjunctionQuery qs => existsb (fun q' => matches q' doc) qs
  | ConjunctionQuery qs => forallb (fun q' => matches q' doc) qs
  end.

Definition search (idx : list Shard) (sr : SearchRequest) : option (list Hit * nat) :=
  let hits :=
    flat_map (fun shard : Shard =>
                omap (fun '(id, doc) =>
                        if matches (Q sr) doc then Some (Indexing.hitOf id doc) else None)
                     (map_to_list shard))
             idx in
  Some (take (Size sr) (List.skipn (From sr) hits), List.length hits).

(** The field of an object as a string, empty when absent. *)
Definition stringField (m : gmap string JSON) (k : string) : string :=
  match m !! k with
  | Some (JString s) => s
  | _ => EmptyString
  end.

Definition stringsField (m : gmap string JSON) (k : string) : list string :=
  match m !! k with
  | Some (JArray l) => omap (fun j => match j with JString s => Some s | _ => None end) l
  | _ => []
  end.

Definition operationField (m : gmap string JSON) (verb : string) : option Operation :=
  match m !! verb with
  | Some (JObject op) =>
      Some (mkOperation (stringField op "summary") (stringField op "description")
              (stringField op "operationId") (stringsField op "tags"))
  | _ => None
  end.

Definition pathItemOf (j : JSON) : PathItem :=
  match j with
  | JObject m =>
      mkPathItem (operationField m "get") (operationField m "post")
        (operationField m "put") (operationField m "delete")
        (operationField m "options") (operationField m "head")
        (operationField m "patch") (operationField m "trace")
        (operationField m "connect")
  | _ => mkPathItem None None None None None None None None None
  end.

Definition loadPaths (raw : option (gmap string JSON)) : option (list (string * PathItem)) :=
  match raw with
  | None => Some []
  | Some r =>
      match r !! "paths" with
      | Some (JObject paths) => Some (map_to_list (pathItemOf <$> paths))
      | _ => Some []
      end
  end.

Definition obj (fields : list (string * JSON)) : JSON := JObject (list_to_map fields).

(** The documents of the repository's tests, and one whose server has a
    port. *)
Definition okResponse : JSON :=
  obj [("200", obj [("description", JString "OK")])].

Definition specFor (serverURL : string) : gmap string JSON :=
  list_to_map
    [("openapi", JString "3.0.0");
     ("servers", JArray [obj [("url", JString serverURL)]]);
     ("paths", obj
        [("/items/{id}", obj
            [("get", obj [("operationId", JString "getItem");
                          ("responses", okResponse)])])])].

Definition testSpec : gmap string JSON := specFor "http://example.com/api".

Definition portSpec : gmap string JSON := specFor "http://example.com:8080/api".

Definition searchSpec : gmap string JSON :=
  list_to_map
    [("openapi", JString "3.0.0");
     ("servers", JArray [obj [("url", JString "http://search.test/api")]]);
     ("paths", obj
        [("/things/{id}", obj
            [("get", obj [("operationId", JString "getThing");
                          ("summary", JString "Retrieve a thing");
                          ("description", JString "Detailed description");
                          ("tags", JArray [JString "alpha"; JString "beta"]);
                          ("responses", okResponse)])]);
         ("/things", obj
            [("post", obj [("operationId", JString "createThing");
                           ("summary", JString "Create a new thing");
                           ("tags", JArray [JString "beta"]);
                           ("responses", okResponse)])])])].

(** A spec whose templates repeat the base path of its server. *)
Definition prefixedSpec : gmap string JSON :=
  list_to_map
    [("openapi", JString "3.0.0");
     ("servers", JArray [obj [("url", JString "http://prefixed.test/api")]]);
     ("paths", obj
        [("/api/items/{id}", obj
            [("get", obj [("operationId", JString "getItem");
                          ("responses", okResponse)])])])].

Definition knownSpecs : list (gmap string JSON) :=
  [testSpec; portSpec; searchSpec; prefixedSpec].

(** Decoding: the document among [knownSpecs] whose text is given. *)
Definition decode (text : string) : result unit (option (gmap string JSON)) :=
  match List.find (fun d => String.eqb (renderJSON (JObject d)) text) knownSpecs with
  | Some d => Ok (Some d)
  | None => if String.eqb text "null" then Ok None else Err tt
  end.

Definition renderConfig (c : SpecConfig) : string :=
  renderJSON (obj [("displayName", JString (DisplayName c)); ("name", JString (Name c));
                   ("file", JString (cfgFile c)); ("url", JString (cfgURL c))]).

Definition renderConfigs (cs : list SpecConfig) : string :=
  "[" +:+ Join (map renderConfig cs) "," +:+ "]".

Definition testConfig : list SpecConfig :=
  [mkSpecConfig "TestSpec" "test-spec" "/tmp/test-spec.json" ""].

Definition searchConfig : list SpecConfig :=
  [mkSpecConfig "SearchSpec" "search-spec" "/tmp/search-spec.json" ""].

Definition portConfig : list SpecConfig :=
  [mkSpecConfig "PortSpec" "port-spec" "/tmp/port-spec.json" ""].

(** Two specs that declare the same first server. *)
Definition clashConfig : list SpecConfig :=
  [mkSpecConfig "First" "first" "/tmp/test-spec.json" "";
   mkSpecConfig "Second" "second" "/tmp/copy-spec.json" ""].

Definition prefixedConfig : list SpecConfig :=
  [mkSpecConfig "Prefixed" "prefixed" "/tmp/prefixed-spec.json" ""].

Definition knownConfigs : list (list SpecConfig) :=
  [testConfig; searchConfig; portConfig; clashConfig; prefixedConfig].

Definition decodeConfigs (text : string) : option (list SpecConfig) :=
  List.find (fun cs => String.eqb (renderConfigs cs) text) knownConfigs.

#[export] Instance lib : GoLib := {
  url_Parse := parseURL;
  url_Query := parseQuery;
  ToUpper := mapBytes upperByte;
  ToLower := mapBytes lowerByte;
  CanonicalMIMEHeaderKey := canonicalKey;
  json_Unmarshal := decode;
  json_UnmarshalConfigs := decodeConfigs;
  sha256_hex := fun data => "sha256:" +:+ data;
  gob_Encode := fun m =>
    Join (map (fun '(k, v) => k +:+ "=" +:+ v) (map_to_list m)) ";";
  filepath_Abs := fun p => Some p;
  filepath_Join := fun dir name => dir +:+ "/" +:+ name;
  openapi3_Load := loadPaths;
  bleve_Search := search
}.

(** The file system of the tests. *)
Definition world (configs : list SpecConfig) : Indexing.World :=
  Indexing.mkWorld
    (list_to_map
       [("/tmp/specs.json", renderConfigs configs);
        ("/tmp/test-spec.json", renderJSON (JObject testSpec));
        ("/tmp/copy-spec.json", renderJSON (JObject testSpec));
        ("/tmp/port-spec.json", renderJSON (JObject portSpec));
        ("/tmp/search-spec.json", renderJSON (JObject searchSpec));
        ("/tmp/prefixed-spec.json", renderJSON (JObject prefixedSpec))])
    ∅ [].

(** The log of the parser's test. *)
Definition keyValueBody : string :=
  "{" +:+ quote +:+ "key" +:+ quote +:+ ":" +:+ quote +:+ "value" +:+ quote +:+ "}".

Definition mockRestAssuredLog : string :=
  Join ["Request method: POST";
        "Request URI: http://example.com/api/test?foo=bar&baz=qux";
        "Headers:";
        "    Content-Type=application/json";
        "    Accept=application/json";
        "Body:";
        "    " +:+ keyValueBody;
        ""]
       (String Parser.newline "").

(** The [SpecIndex] of the test spec. *)
Definition testIndex : Indexing.SpecIndex :=
  Indexing.mkSpecIndex "test-spec" "/tmp/test-spec.json" "example.com" "/api"
    ("sha256:" +:+ renderJSON (JObject testSpec)).

(** The registry [LoadConfigAndIndex] returns for a configuration of the
    test file system, empty when it fails. *)
Definition registryOf (configs : list SpecConfig) : Indexing.Registry :=
  match snd (Indexing.LoadConfigAndIndex Indexing.noFaults (world configs)
               "/tmp/specs.json" "/tmp/cache/bleve") with
  | Ok reg => reg
  | Err _ => ∅
  end.

(** The file system after [LoadConfigAndIndex] and [BuildShardedIndices]
    have run on it without a fault. *)
Definition startedWorld (configs : list SpecConfig) : Indexing.World :=
  fst (Indexing.BuildShardedIndices Indexing.noFaults
         (fst (Indexing.LoadConfigAndIndex Indexing.noFaults (world configs)
                 "/tmp/specs.json" "/tmp/cache/bleve"))
         "/tmp/cache" (registryOf configs)).

(** The alias [BuildShardedIndices] returns: the shards it opened. *)
Definition aliasOf (configs : list SpecConfig) : list Shard :=
  map snd (map_to_list (Indexing.shards (startedWorld configs))).

End Sample.

(* ===================================================================== *)
(** ** Package [route]: the HTTP handlers                                 *)
(* ===================================================================== *)

(** The handlers of search_service.go, action.go, specs.go and proxy.go of
    package [route]. A handler is a function of what it reads of the
    request; its result is what it writes, or the error [http.Error]
    sends. The text of an error that comes from a library is left out of
    the message, and so is a failure to write to the connection. *)

Module Route.
Import GoStrings Lib.

(** *** [strconv.Atoi], [int] having 64 bits *)

(** The value of a string of decimal digits, [None] when a byte is no
    digit. *)
Fixpoint parseDigits (s : string) (acc : Z) : option Z :=
  match s with
  | EmptyString => Some acc
  | String c s' =>
      if GoURL.isDigit c
      then parseDigits s' (acc * 10 + (Z.of_N (N_of_ascii c) - 48))%Z
      else None
  end.

(** [strconv.Atoi(s)]: an optional sign and at least one digit, in the
    range of [int]. *)
Definition Atoi (s : string) : option Z :=
  let '(neg, digits) :=
    match s with
    | String "-" s' => (true, s')
    | String "+" s' => (false, s')
    | _ => (false, s)
    end in
  match digits with
  | EmptyString => None
  | _ =>
      match parseDigits digits 0 with
      | Some n =>
          let v := if neg then (- n)%Z else n in
          if ((- 2 ^ 63 <=? v) && (v <? 2 ^ 63))%Z then Some v else None
      | None => None
      end
  end.

(** [v.Get(key)] of [url.Values] and of [http.Header] once the key is
    canonical: the first value, or the empty string. *)
Definition Values_Get (v : gmap string (list string)) (key : string) : string :=
  match v !! key with
  | Some (x :: _) => x
  | _ => EmptyString
  end.

(** *** What a handler writes *)

(** [http.Error(w, msg, code)]. A handler returns [Err] of it, or [Ok] of
    what it writes otherwise. *)
Record HttpError : Type := mkHttpError {
  code : nat;
  msg : string
}.

(** *** search_service.go *)

Record SearchService : Type := mkSearchService {
  Registry : Indexing.Registry;
  Index : list Shard
}.

(** action.go *)
Record ActionService : Type := mkActionService {
  actRegistry : Indexing.Registry;
  actIndex : list Shard
}.

(** The [limit] and [offset] of [SearchHandler], read from the query
    [r.URL.Query()]. *)
Definition paging (query : gmap string (list string)) : Z * Z :=
  let limit :=
    let ls := Values_Get query "limit" in
    if negb (String.eqb ls "") then
      match Atoi ls with
      | Some n => if (0 <? n)%Z then n else 20%Z
      | None => 20%Z
      end
    else 20%Z in
  let offset :=
    let os := Values_Get query "offset" in
    if negb (String.eqb os "") then
      match Atoi os with
      | Some n => if (0 <=? n)%Z then n else 0%Z
      | None => 0%Z
      end
    else 0%Z in
  (limit, offset).

(** The [response] of [SearchHandler]. *)
Record SearchResponse : Type := mkSearchResponse {
  Total : nat;
  Results : list Indexing.SearchResult
}.

(** The [Response] of [RaSearchHandler]. *)
Record RaResponse : Type := mkRaResponse {
  raSpecName : string;
  raOperationId : string;
  raParsedInfo : Parser.ParsedRequest
}.

Definition setPathParams (p : Parser.ParsedRequest) (params : gmap string string)
  : Parser.ParsedRequest :=
  Parser.mkParsedRequest (Parser.Method p) (Parser.URI p) (Parser.Headers p)
    (Parser.Params p) (Parser.Body p) params.

(** [parser.ParsedResponse] *)
Record ParsedResponse : Type := mkParsedResponse {
  Proto : string;
  Status : string;
  respHeaders : gmap string (list string);
  respBytes : string
}.

(** [err.Error()] of the error [ParseLog] returns. *)
Definition parseErrorText (e : Parser.ParseError) : string :=
  match e with
  | Parser.ErrRead text => text
  | Parser.ErrMissingMethodOrURI => "missing method or URI"
  end.

(** *** specs.go of package [route] *)

Record Spec : Type := mkSpec {
  DisplayName : string;
  Name : string;
  File : string;
  URL : string;
  ProxyBase : string
}.

(** What the proxy needs of the standard library beyond [GoLib]. Nothing
    is assumed of these operations. *)
Class NetLib : Type := {
  (** [json.NewDecoder(f).Decode(&specs)] on the bytes of the file *)
  json_DecodeSpecs : string -> option (list Spec);
  (** [path.Join(a, b)] *)
  path_Join : string -> string -> string;
  (** [base.ResolveReference(ref)] *)
  url_ResolveReference : GoURL.URL -> GoURL.URL -> GoURL.URL;
  (** [u.String()] *)
  url_String : GoURL.URL -> string
}.

Inductive LoadSpecsError : Type :=
| ErrOpenSpecs       (* "open specs file: ..." *)
| ErrDecodeSpecs.    (* "decode specs: ..." *)

(** [SpecByIDHandler]: the file handed to [http.ServeFile] and the
    [Content-Type] set before. *)
Record ServedFile : Type := mkServedFile {
  ctype : string;
  file : string
}.

(** The loop of [SpecByIDHandler] over the specs. *)
Fixpoint serveByID (specs : list Spec) (id : string) : result HttpError ServedFile :=
  match specs with
  | [] => Err (mkHttpError 404 "spec not found")
  | s :: specs' =>
      if String.eqb (Name s) id then
        Ok (mkServedFile
                   (if HasSuffix (File s) ".yaml" || HasSuffix (File s) ".yml"
                    then "application/x-yaml" else "application/json")
                   (File s))
      else serveByID specs' id
  end.

(** [SpecByIDHandler(specs)] on the request path [r.URL.Path]. The slice
    [r.URL.Path[len("/api/specs/"):]] is out of range on a path of less
    than eleven bytes. *)
Definition SpecByIDHandler (specs : list Spec) (path : string)
  : outcome (result HttpError ServedFile) :=
  if Nat.ltb (len path) (len "/api/specs/")
  then Panic "slice bounds out of range"
  else
    let id := Trim (drop (len "/api/specs/") path) "/" in
    if String.eqb id "" then Done (Err (mkHttpError 400 "spec id not provided"))
    else Done (serveByID specs id).

(** *** proxy.go *)

(** What the proxy reads of the request it serves. *)
Record Request : Type := mkRequest {
  reqMethod : string;
  reqURL : GoURL.URL;
  reqHeader : gmap string (list string)
}.

(** What the proxy reads of the response of the target. *)
Record Response : Type := mkResponse {
  StatusCode : nat;
  respHeader : gmap string (list string);
  respBody : string
}.

Inductive ProxyError : Type :=
| ErrInvalidTarget                 (* "invalid target url: ..." *)
| ErrInvalidAPIPath                (* "invalid API path" *)
| ErrNoProxyBase (name : string).  (* "no proxyBase for <name>" *)

(** What [WithCORS(h)] writes: status 204 with the headers and no body,
    or what [h] writes. *)
Inductive Preflight (A : Type) : Type :=
| NoContent (header : gmap string (list string))
| Handled (reply : A).
Arguments NoContent {A} header.
Arguments Handled {A} reply.

Definition corsHeaders : list (string * string) :=
  [("Access-Control-Allow-Origin", "*");
   ("Access-Control-Allow-Methods", "GET, POST, PUT, DELETE, OPTIONS, PATCH");
   ("Access-Control-Allow-Headers", "Content-Type, Authorization")].

Section WithLib.
Context `{GoLib} `{NetLib}.

(** [SearchHandler], which writes its response with status 200. *)
Definition SearchHandler (s : SearchService) (query : gmap string (list string))
  : result HttpError SearchResponse :=
  let q := Values_Get query "q" in
  let specNames := default [] (query !! "spec") in
  let tagFilters := default [] (query !! "tag") in
  let '(limit, offset) := paging query in
  match Indexing.SearchBleve (Index s) specNames tagFilters q
          (Z.to_nat limit) (Z.to_nat offset) with
  | Err _ => Err (mkHttpError 500 "search error: ")
  | Ok (results, total) => Ok (mkSearchResponse total results)
  end.

(** [RaSearchHandler], which writes its response with status 200. The
    body is what [io.ReadAll(r.Body)] returns, [None] for an error. *)
Definition RaSearchHandler (s : SearchService) (body : option string)
  : result HttpError RaResponse :=
  match body with
  | None => Err (mkHttpError 400 "failed to read body: ")
  | Some data =>
      match Parser.ParseLog (Parser.mkReader data Parser.EOF) with
      | (_, Some e) => Err (mkHttpError 400 ("parse error: " +:+ parseErrorText e))
      | (pr, None) =>
          match Indexing.FindOperation (Index s) (Registry s)
                  (Parser.Method pr) (Parser.URI pr) with
          | Err _ => Err (mkHttpError 404 "no match: ")
          | Ok (specName, opID, pathParams) =>
              Ok (mkRaResponse specName opID (setPathParams pr pathParams))
          end
      end
  end.

(** [ActionHandler], which writes its text with status 200. [doRequest]
    is [parser.DoRequest], [None] for an error, and [responseString] is
    [parser.ResponseString]. *)
Definition ActionHandler (doRequest : Parser.ParsedRequest -> option ParsedResponse)
    (responseString : ParsedResponse -> string)
    (s : ActionService) (body : option string) : result HttpError string :=
  match body with
  | None => Err (mkHttpError 400 "failed to read body: ")
  | Some data =>
      match Parser.ParseLog (Parser.mkReader data Parser.EOF) with
      | (_, Some e) => Err (mkHttpError 400 ("parse error: " +:+ parseErrorText e))
      | (pr, None) =>
          match Indexing.FindOperation (actIndex s) (actRegistry s)
                  (Parser.Method pr) (Parser.URI pr) with
          | Err _ => Err (mkHttpError 404 "no match: ")
          | Ok _ =>
              match doRequest pr with
              | None => Err (mkHttpError 500 "request error: ")
              | Some response => Ok (responseString response)
              end
          end
      end
  end.

(** [LoadSpecs(path)] *)
Definition LoadSpecs (w : Indexing.World) (path : string)
  : result LoadSpecsError (list Spec * gmap string string) :=
  match Indexing.files w !! path with
  | None => Err ErrOpenSpecs
  | Some text =>
      match json_DecodeSpecs text with
      | None => Err ErrDecodeSpecs
      | Some specs =>
          Ok (specs,
              fold_left (fun pm s => <[ToLower (Name s) := TrimRight (ProxyBase s) "/"]> pm)
                        specs ∅)
      end
  end.

(** [h.Set(key, value)] of [http.Header] *)
Definition Header_Set (h : gmap string (list string)) (key value : string)
  : gmap string (list string) :=
  <[CanonicalMIMEHeaderKey key := [value]]> h.

(** [for _, vv := range v { h.Add(k, vv) }] *)
Definition addValues (h : gmap string (list string)) (k : string) (v : list string)
  : gmap string (list string) :=
  fold_left (fun h vv => Parser.MIMEHeader_Add h k vv) v h.

(** [WithCORS(h)]: the headers set before [h] runs on them; an [OPTIONS]
    request is answered at once with status 204 and no body. *)
Definition withCORSHeaders (wh : gmap string (list string)) : gmap string (list string) :=
  fold_left (fun h kv => Header_Set h (fst kv) (snd kv)) corsHeaders wh.

Definition WithCORS {A : Type}
    (h : gmap string (list string) -> Request -> outcome A)
    (wh : gmap string (list string)) (r : Request) : outcome (Preflight A) :=
  let wh := withCORSHeaders wh in
  if String.eqb (reqMethod r) "OPTIONS" then Done (NoContent wh)
  else match h wh r with
       | Done reply => Done (Handled reply)
       | Panic msg => Panic msg
       end.

(** The target of [ProxyHandler]: the [url] parameter when there is one,
    else the proxy base of the spec named by the path. The error of
    [url.Parse(base)] is dropped, which leaves [baseURL] nil. *)
Definition proxyTarget (proxyMap : gmap string string) (r : Request)
  : outcome (result ProxyError GoURL.URL) :=
  let u := Values_Get (url_Query (reqURL r)) "url" in
  if negb (String.eqb u "") then
    match url_Parse u with
    | None => Done (Err ErrInvalidTarget)
    | Some target => Done (Ok target)
    end
  else
    match SplitN (TrimPrefix (GoURL.Path (reqURL r)) "/api/") "/" 2 with
    | p0 :: p1 :: _ =>
        match proxyMap !! ToLower p0 with
        | None => Done (Err (ErrNoProxyBase p0))
        | Some base =>
            match url_Parse base with
            | None => Panic "invalid memory address or nil pointer dereference"
            | Some baseURL =>
                let rel := GoURL.mkURL "" "" (path_Join (GoURL.Path baseURL) p1)
                             (GoURL.RawQuery (reqURL r)) in
                Done (Ok (url_ResolveReference baseURL rel))
            end
        end
    | _ => Done (Err ErrInvalidAPIPath)
    end.

(** The body of the loop over [r.Header]. *)
Definition forwardHeader (src : gmap string (list string))
    (h : gmap string (list string)) (k : string) : gmap string (list string) :=
  let lk := ToLower k in
  if String.eqb lk "host" || String.eqb lk "origin" || String.eqb lk "referer" then h
  else addValues h k (default [] (src !! k)).

(** The header of the request sent to the target: [r.Clone] copies the
    header of [r], the loop adds the values of [r.Header] to the copy,
    then [Origin] and [Referer] are set. *)
Definition forwardHeaders (target : GoURL.URL) (header : gmap string (list string))
  : gmap string (list string) :=
  let h := fold_left (forwardHeader header) (Indexing.rangeKeys header) header in
  let h := Header_Set h "Origin" (GoURL.Scheme target +:+ "://" +:+ GoURL.Host target) in
  Header_Set h "Referer" (url_String target).

(** The body of the loop over [resp.Header]. *)
Definition copyHeader (src : gmap string (list string))
    (h : gmap string (list string)) (k : string) : gmap string (list string) :=
  if String.eqb (ToLower k) "transfer-encoding" then h
  else addValues h k (default [] (src !! k)).

(** [ProxyHandler(proxyMap, client)]: [client] is [client.Do], [None] when
    it returns an error; [wh] is [w.Header()] when the handler starts. What
    is written with status [resp.StatusCode] is a [Response]. *)
Definition ProxyHandler (proxyMap : gmap string string)
    (client : Request -> option Response)
    (wh : gmap string (list string)) (r : Request)
  : outcome (result HttpError Response) :=
  match proxyTarget proxyMap r with
  | Panic msg => Panic msg
  | Done (Err ErrInvalidTarget) => Done (Err (mkHttpError 400 "invalid target url: "))
  | Done (Err ErrInvalidAPIPath) => Done (Err (mkHttpError 400 "invalid API path"))
  | Done (Err (ErrNoProxyBase name)) =>
      Done (Err (mkHttpError 400 ("no proxyBase for " +:+ name)))
  | Done (Ok target) =>
      let req := mkRequest (reqMethod r) target
                   (forwardHeaders target (reqHeader r)) in
      match client req with
      | None => Done (Err (mkHttpError 502 "error connecting to target: "))
      | Some resp =>
          Done (Ok (mkResponse (StatusCode resp)
                      (fold_left (copyHeader (respHeader resp))
                         (Indexing.rangeKeys (respHeader resp)) wh)
                      (respBody resp)))
      end
  end.

End WithLib.

End Route.

(** The operations of [NetLib] on the inputs the examples use: clean path
    elements, a reference that holds an absolute path and a query only. *)

Module SampleNet.
Import GoStrings Lib Route.

Definition renderSpec (s : Spec) : string :=
  Sample.renderJSON
    (Sample.obj [("displayName", JString (DisplayName s)); ("name", JString (Name s));
                 ("file", JString (File s)); ("url", JString (URL s));
                 ("proxyBase", JString (ProxyBase s))]).

Definition renderSpecs (specs : list Spec) : string :=
  "[" +:+ Join (map renderSpec specs) "," +:+ "]".

Definition petSpecs : list Spec :=
  [mkSpec "Pet Store" "PetStore" "specs/petstore.yaml" "" "https://pets.example.com/v2/";
   mkSpec "Test" "test-spec" "/tmp/test-spec.json" "" "http://example.com/api"].

Definition knownSpecFiles : list (list Spec) := [petSpecs].

Definition decodeSpecs (text : string) : option (list Spec) :=
  List.find (fun specs => String.eqb (renderSpecs specs) text) knownSpecFiles.

Definition renderURL (u : GoURL.URL) : string :=
  GoURL.Scheme u +:+ "://" +:+ GoURL.Host u +:+ GoURL.Path u
  +:+ (if String.eqb (GoURL.RawQuery u) "" then "" else "?" +:+ GoURL.RawQuery u).

#[export] Instance net : NetLib := {
  json_DecodeSpecs := decodeSpecs;
  path_Join := fun a b => a +:+ "/" +:+ b;
  url_ResolveReference := fun base ref =>
    GoURL.mkURL (GoURL.Scheme base) (GoURL.Host base) (GoURL.Path ref) (GoURL.RawQuery ref);
  url_String := renderURL
}.

(** The file system with the specs file of the proxy. *)
Definition specsWorld : Indexing.World :=
  Indexing.mkWorld {["/tmp/specs.json" := renderSpecs petSpecs]} ∅ [].

(** The proxy map [LoadSpecs] returns on it, empty when it fails. *)
Definition proxyMap : gmap string string :=
  match LoadSpecs (H := Sample.lib) specsWorld "/tmp/specs.json" with
  | Ok (_, pm) => pm
  | Err _ => ∅
  end.

(** A request for [path] with the headers [header], and a target that
    answers every request alike. *)
Definition request (method path : string) (header : gmap string (list string)) : Request :=
  mkRequest method (GoURL.mkURL "http" "localhost:5001" path "") header.

Definition upstream (_ : Request) : option Response :=
  Some (mkResponse 200
          {["Content-Type" := ["application/json"];
            "Transfer-Encoding" := ["chunked"];
            "Access-Control-Allow-Origin" := ["https://pets.example.com"]]}
          "[]").

End SampleNet.

(* ===================================================================== *)
(** * Properties                                                          *)
(* ===================================================================== *)

(** ** Strings *)

Module GoStringsFacts.
Import GoStrings.

Lemma append_cons (c : ascii) (a b : string) :
  String c a +:+ b = String c (a +:+ b).
Proof. reflexivity. Qed.

Lemma append_nil_l (s : string) : "" +:+ s = s.
Proof. reflexivity. Qed.

Lemma append_nil_r (s : string) : s +:+ "" = s.
Proof.
  induction s as [|c s IH]; [reflexivity|].
  now rewrite append_cons, IH.
Qed.

Lemma append_assoc (a b c : string) : (a +:+ b) +:+ c = a +:+ (b +:+ c).
Proof.
  induction a as [|x a IH]; [reflexivity|].
  now rewrite !append_cons, IH.
Qed.

Lemma rev_onto_app (s acc : string) : rev_onto s acc = rev s +:+ acc.
Proof.
  unfold rev. revert acc.
  induction s as [|c s IH]; intros acc; simpl; [reflexivity|].
  rewrite (IH (String c acc)), (IH (String c "")), append_assoc. reflexivity.
Qed.

Lemma rev_cons (c : ascii) (s : string) : rev (String c s) = rev s +:+ String c "".
Proof. unfold rev at 1. simpl. apply rev_onto_app. Qed.

Lemma rev_app (a b : string) : rev (a +:+ b) = rev b +:+ rev a.
Proof.
  induction a as [|c a IH].
  - change (rev b = rev b +:+ ""). now rewrite append_nil_r.
  - change (rev (String c (a +:+ b)) = rev b +:+ rev (String c a)).
    rewrite !rev_cons, IH, append_assoc. reflexivity.
Qed.

Lemma rev_involutive (s : string) : rev (rev s) = s.
Proof.
  induction s as [|c s IH]; [reflexivity|].
  rewrite rev_cons, rev_app, IH. reflexivity.
Qed.

Lemma rev_inj (a b : string) : rev a = rev b -> a = b.
Proof. intros E. rewrite <- (rev_involutive a), <- (rev_involutive b), E. reflexivity. Qed.

Lemma HasPrefix_app (p s : string) : HasPrefix (p +:+ s) p = true.
Proof.
  induction p as [|c p IH]; [reflexivity|].
  rewrite append_cons. simpl. rewrite Ascii.eqb_refl. exact IH.
Qed.

Lemma HasPrefix_inv (s p : string) :
  HasPrefix s p = true -> s = p +:+ drop (len p) s.
Proof.
  revert s. induction p as [|c p IH]; intros s E; simpl in *; [reflexivity|].
  destruct s as [|d s]; [discriminate|].
  apply andb_true_iff in E as [Ec Ep].
  apply Ascii.eqb_eq in Ec. subst d.
  change (String c s = String c (p +:+ drop (len p) s)).
  f_equal. apply IH, Ep.
Qed.

Lemma HasPrefix_iff (s p : string) :
  HasPrefix s p = true <-> exists u, s = p +:+ u.
Proof.
  split.
  - intros E. eexists. apply HasPrefix_inv, E.
  - intros [u ->]. apply HasPrefix_app.
Qed.

Lemma HasSuffix_iff (s suf : string) :
  HasSuffix s suf = true <-> exists u, s = u +:+ suf.
Proof.
  unfold HasSuffix. rewrite HasPrefix_iff. split.
  - intros [u E]. exists (rev u). apply rev_inj.
    rewrite E, rev_app, rev_involutive. reflexivity.
  - intros [u ->]. exists (rev u). apply rev_app.
Qed.

Lemma Split_nonempty (s : string) (sep : ascii) : Split s sep <> [].
Proof.
  destruct s as [|c s]; simpl; [discriminate|].
  destruct (Ascii.eqb c sep); [discriminate|].
  destruct (Split s sep); discriminate.
Qed.

Lemma Split_free (s : string) (sep : ascii) :
  free_of sep s = true -> Split s sep = [s].
Proof.
  induction s as [|c s IH]; simpl; [reflexivity|].
  intros E. apply andb_true_iff in E as [Ec Es].
  apply negb_true_iff in Ec. rewrite Ec, (IH Es). reflexivity.
Qed.

(** Splitting [a ++ sep ++ rest], when [a] holds no separator. *)
Lemma Split_app_sep (a rest : string) (sep : ascii) :
  free_of sep a = true ->
  Split (a +:+ String sep rest) sep = a :: Split rest sep.
Proof.
  induction a as [|c a IH]; intros E.
  - rewrite append_nil_l. simpl. rewrite Ascii.eqb_refl. reflexivity.
  - simpl in E. apply andb_true_iff in E as [Ec Ea].
    apply negb_true_iff in Ec.
    rewrite append_cons. simpl. rewrite Ec, (IH Ea). reflexivity.
Qed.

End GoStringsFacts.

(** ** Template matching *)

Module Matching.
Import GoStrings GoStringsFacts Indexing.

(** The test of the source for a parameter segment holds exactly of the
    segments [{name}]. *)
Lemma isBraced_spec (seg : string) :
  isBraced seg = true <-> exists name, seg = "{" +:+ name +:+ "}".
Proof.
  unfold isBraced. rewrite andb_true_iff, HasPrefix_iff, HasSuffix_iff. split.
  - intros [[u ->] [v E]].
    assert (R : rev ("{" +:+ u) = rev (v +:+ "}")) by now rewrite E.
    rewrite !rev_app in R.
    destruct (rev u) as [|c r] eqn:Eu; [discriminate R|].
    change (String c (r +:+ "{") = String "}" (rev v)) in R.
    injection R as -> _.
    exists (rev r). f_equal.
    apply rev_inj. rewrite Eu, rev_app, rev_involutive. reflexivity.
  - intros [name ->]. split.
    + now exists (name +:+ "}").
    + exists ("{" +:+ name). now rewrite append_assoc.
Qed.

Lemma isBraced_false (seg : string) :
  ~ (exists name, seg = "{" +:+ name +:+ "}") -> isBraced seg = false.
Proof.
  intros N. destruct (isBraced seg) eqn:E; [|reflexivity].
  exfalso. apply N, isBraced_spec, E.
Qed.

(** The loop accepts exactly when, at every index, the template segment is
    braced or equal to the path segment. *)
Lemma matchSegments_iff (ts ps : list string) :
  List.length ts = List.length ps ->
  matchSegments ts ps = true <->
  forall (i : nat) (t p : string),
    ts !! i = Some t -> ps !! i = Some p -> isBraced t = true \/ t = p.
Proof.
  revert ps. induction ts as [|t ts IH]; intros [|p ps] L; try discriminate L.
  - split; [intros _ i t p E; discriminate E | reflexivity].
  - injection L as L. specialize (IH ps L). simpl. split.
    + intros M [|i] t' p' Et Ep; simpl in Et, Ep.
      * injection Et as <-. injection Ep as <-.
        destruct (isBraced t); [now left|].
        destruct (String.eqb_spec t p); [now right | discriminate M].
      * apply IH with (i := i); [|assumption..].
        destruct (isBraced t); [exact M|].
        destruct (String.eqb t p); [exact M | discriminate M].
    + intros A.
      assert (M : matchSegments ts ps = true).
      { apply IH. intros i. apply (A (S i)). }
      destruct (A 0 t p eq_refl eq_refl) as [-> | ->]; [exact M|].
      rewrite String.eqb_refl. simpl. destruct (isBraced p); exact M.
Qed.

Lemma matchTemplate_unfold (T P : string) :
  matchTemplate T P = true <->
  List.length (segments T) = List.length (segments P)
  /\ matchSegments (segments T) (segments P) = true.
Proof.
  unfold matchTemplate.
  destruct (Nat.eqb_spec (List.length (segments T)) (List.length (segments P))) as [E|N];
    simpl; split.
  - now split.
  - now intros [_ M].
  - discriminate.
  - intros [E _]. contradiction.
Qed.

(** C4. When [matchTemplate(T, P)] is true, [T] and [P], trimmed of
    slashes and split on [/], have equally many segments, and every segment
    of [T] that is not of the form [{name}] is equal to the segment of [P]
    at the same index. *)
Theorem matchTemplate_sound (T P : string) :
  matchTemplate T P = true ->
  List.length (segments T) = List.length (segments P)
  /\ forall (i : nat) (t p : string),
       segments T !! i = Some t -> segments P !! i = Some p ->
       ~ (exists name, t = "{" +:+ name +:+ "}") -> t = p.
Proof.
  intros M. apply matchTemplate_unfold in M as [L M]. split; [exact L|].
  intros i t p Et Ep N.
  destruct (proj1 (matchSegments_iff _ _ L) M i t p Et Ep) as [B|E]; [|exact E].
  exfalso. apply N, isBraced_spec, B.
Qed.

(** The template and the path of the resolver's test. *)
Lemma matchTemplate_sound_witness :
  List.length (segments "/items/{id}") = List.length (segments "/items/123")
  /\ forall (i : nat) (t p : string),
       segments "/items/{id}" !! i = Some t -> segments "/items/123" !! i = Some p ->
       ~ (exists name, t = "{" +:+ name +:+ "}") -> t = p.
Proof.
  apply (matchTemplate_sound "/items/{id}" "/items/123").
  vm_compute. reflexivity.
Defined.

(** C5, as stated, fails: facing the braced segment [{id}] the path holds
    an empty segment, and [matchTemplate] accepts. *)
Lemma matchTemplate_braced_accepts_empty :
  segments "/users/{id}/posts" !! 1 = Some "{id}"
  /\ segments "/users//posts" !! 1 = Some ""
  /\ matchTemplate "/users/{id}/posts" "/users//posts" = true.
Proof. vm_compute. repeat split. Qed.

(** C5, amended. A segment [{name}] of the template matches every path
    segment at its index, the empty one included: [matchTemplate(T, P)] is
    true exactly when the segment counts are equal and, at every index, the
    template segment is of the form [{name}] or equal to the path segment. *)
Theorem matchTemplate_iff (T P : string) :
  matchTemplate T P = true <->
  List.length (segments T) = List.length (segments P)
  /\ forall (i : nat) (t p : string),
       segments T !! i = Some t -> segments P !! i = Some p ->
       (exists name, t = "{" +:+ name +:+ "}") \/ t = p.
Proof.
  rewrite matchTemplate_unfold. split.
  - intros [L M]. split; [exact L|]. intros i t p Et Ep.
    destruct (proj1 (matchSegments_iff _ _ L) M i t p Et Ep) as [B|E].
    + left. apply isBraced_spec, B.
    + now right.
  - intros [L A]. split; [exact L|]. apply (matchSegments_iff _ _ L).
    intros i t p Et Ep. destruct (A i t p Et Ep) as [B|E].
    + left. apply isBraced_spec, B.
    + now right.
Qed.

End Matching.

(** ** The log parser *)

Module ParserProps.
Import GoStrings GoStringsFacts Lib Parser.

Section WithLib.
Context `{GoLib}.

Lemma method_not_uri (trim : string) :
  HasPrefix trim "Request method:" = true -> HasPrefix trim "Request URI:" = false.
Proof. intros E. apply HasPrefix_inv in E. rewrite E. reflexivity. Qed.

Lemma Method_addHeaderLine (p : ParsedRequest) (text : string) :
  Method (addHeaderLine p text) = Method p /\ URI (addHeaderLine p text) = URI p.
Proof.
  unfold addHeaderLine.
  destruct (SplitN text "=" 2) as [|k [|v [|x l]]]; split; reflexivity.
Qed.

(** What one turn of the loop does to [Method] and [URI]. *)
Lemma processLine_Method (st : Loop) (line : string) :
  Method (pr (processLine st line)) =
  if HasPrefix (TrimSpace line) "Request method:"
  then TrimSpace (TrimPrefix (TrimSpace line) "Request method:")
  else Method (pr st).
Proof.
  unfold processLine.
  destruct (HasPrefix (TrimSpace line) "Request method:"); [reflexivity|].
  destruct (HasPrefix (TrimSpace line) "Request URI:").
  { simpl. destruct (url_Parse _); reflexivity. }
  destruct (HasPrefix (TrimSpace line) "Headers:").
  { simpl. destruct (_ && _); [apply Method_addHeaderLine | reflexivity]. }
  destruct (HasPrefix (TrimSpace line) "Body:"); [reflexivity|].
  destruct (state st); [reflexivity| |].
  - destruct (String.eqb _ _); [reflexivity | apply Method_addHeaderLine].
  - destruct (_ || _); reflexivity.
Qed.

Lemma processLine_URI (st : Loop) (line : string) :
  URI (pr (processLine st line)) =
  if HasPrefix (TrimSpace line) "Request URI:"
  then TrimSpace (TrimPrefix (TrimSpace line) "Request URI:")
  else URI (pr st).
Proof.
  unfold processLine.
  destruct (HasPrefix (TrimSpace line) "Request method:") eqn:M.
  { rewrite (method_not_uri _ M). reflexivity. }
  destruct (HasPrefix (TrimSpace line) "Request URI:").
  { simpl. destruct (url_Parse _); reflexivity. }
  destruct (HasPrefix (TrimSpace line) "Headers:").
  { simpl. destruct (_ && _); [apply Method_addHeaderLine | reflexivity]. }
  destruct (HasPrefix (TrimSpace line) "Body:"); [reflexivity|].
  destruct (state st); [reflexivity| |].
  - destruct (String.eqb _ _); [reflexivity | apply Method_addHeaderLine].
  - destruct (_ || _); reflexivity.
Qed.

Lemma fold_processLine_fields (lines : list string) (st : Loop) :
  Method (pr (fold_left processLine lines st)) =
    fold_left (fun acc line =>
                 let trim := TrimSpace line in
                 if HasPrefix trim "Request method:"
                 then TrimSpace (TrimPrefix trim "Request method:") else acc)
              lines (Method (pr st))
  /\ URI (pr (fold_left processLine lines st)) =
    fold_left (fun acc line =>
                 let trim := TrimSpace line in
                 if HasPrefix trim "Request URI:"
                 then TrimSpace (TrimPrefix trim "Request URI:") else acc)
              lines (URI (pr st)).
Proof.
  revert st. induction lines as [|l lines IH]; intros st; [now split|].
  simpl. destruct (IH (processLine st l)) as [IM IU].
  rewrite IM, IU, processLine_Method, processLine_URI. now split.
Qed.

Lemma consume_fold (s : string) :
  consume s = fold_left processLine (allLines s) initial.
Proof.
  unfold consume, allLines. destruct (readLines s) as [lines rest]. simpl.
  rewrite fold_left_app. reflexivity.
Qed.

(** C7. [ParseLog] returns its malformed-log error exactly when the stream
    was read to its end and the [Method] or the [URI] of the request it
    returns is empty; with both set, it returns the request and no error.
    On a stream read to its end the two fields are those of the last
    [Request method:] and of the last [Request URI:] line among all the
    lines of the stream. *)
Theorem ParseLog_malformed_iff (r : Reader) :
  (snd (ParseLog r) = Some ErrMissingMethodOrURI <->
   ending r = EOF
   /\ (Method (fst (ParseLog r)) = "" \/ URI (fst (ParseLog r)) = ""))
  /\ (ending r = EOF ->
      Method (fst (ParseLog r)) = lastField "Request method:" (allLines (content r))
      /\ URI (fst (ParseLog r)) = lastField "Request URI:" (allLines (content r))
      /\ (Method (fst (ParseLog r)) <> "" -> URI (fst (ParseLog r)) <> "" ->
          snd (ParseLog r) = None)).
Proof.
  destruct r as [s [|e]]; unfold ParseLog; cbn [ending content].
  - set (st := consume s).
    set (p := setBody (pr st) _).
    assert (F : Method p = lastField "Request method:" (allLines s)
                /\ URI p = lastField "Request URI:" (allLines s)).
    { subst p st. rewrite consume_fold. apply fold_processLine_fields. }
    destruct F as [FM FU].
    destruct (String.eqb_spec (Method p) "") as [M|M];
      [|destruct (String.eqb_spec (URI p) "") as [U|U]]; cbn [orb fst snd].
    + split; [split; [now intros _; split; [|left] | reflexivity]|].
      intros _. repeat split; [assumption..|]. intros N. contradiction.
    + split; [split; [now intros _; split; [|right] | reflexivity]|].
      intros _. repeat split; [assumption..|]. intros _ N. contradiction.
    + split; [split; [discriminate | intros [_ [D|D]]; contradiction]|].
      intros _. repeat split; assumption.
  - cbn [fst snd].
    split; [split; [discriminate | intros [D _]; discriminate D] | discriminate].
Qed.

(** White space is only ever taken away. *)
Lemma len_append (a b : string) : len (a +:+ b) = (len a + len b)%nat.
Proof.
  induction a as [|c a IH]; [reflexivity|].
  rewrite append_cons. unfold len in *. simpl. now rewrite IH.
Qed.

Lemma len_rev (s : string) : len (rev s) = len s.
Proof.
  induction s as [|c s IH]; [reflexivity|].
  rewrite rev_cons, len_append, IH. unfold len. simpl. lia.
Qed.

Lemma trimLeftSpace_len (s : string) : (len (trimLeftSpace s) <= len s)%nat.
Proof.
  assert (G : forall n s, (len s <= n)%nat -> (len (trimLeftSpace s) <= len s)%nat).
  { clear s. unfold len. induction n as [|n IH]; intros s L.
    - destruct s; [simpl; lia | simpl in L; lia].
    - destruct s as [|b1 [|b2 [|b3 s3]]]; simpl in L |- *; [lia|..].
      + destruct (isAsciiSpace b1); simpl; lia.
      + destruct (isAsciiSpace b1).
        * specialize (IH (String b2 "")). simpl in IH. lia.
        * destruct (isSpace2 b1 b2); simpl; lia.
      + destruct (isAsciiSpace b1).
        * specialize (IH (String b2 (String b3 s3))). simpl in IH. lia.
        * destruct (isSpace2 b1 b2).
          -- specialize (IH (String b3 s3)). simpl in IH. lia.
          -- destruct (isSpace3 b1 b2 b3); [|simpl; lia].
             specialize (IH s3). lia. }
  now apply (G (len s)).
Qed.

Lemma trimLeftSpaceRev_len (s : string) : (len (trimLeftSpaceRev s) <= len s)%nat.
Proof.
  assert (G : forall n s, (len s <= n)%nat -> (len (trimLeftSpaceRev s) <= len s)%nat).
  { clear s. unfold len. induction n as [|n IH]; intros s L.
    - destruct s; [simpl; lia | simpl in L; lia].
    - destruct s as [|b1 [|b2 [|b3 s3]]]; simpl in L |- *; [lia|..].
      + destruct (isAsciiSpace b1); simpl; lia.
      + destruct (isAsciiSpace b1).
        * specialize (IH (String b2 "")). simpl in IH. lia.
        * destruct (isSpace2 b2 b1); simpl; lia.
      + destruct (isAsciiSpace b1).
        * specialize (IH (String b2 (String b3 s3))). simpl in IH. lia.
        * destruct (isSpace2 b2 b1).
          -- specialize (IH (String b3 s3)). simpl in IH. lia.
          -- destruct (isSpace3 b3 b2 b1); [|simpl; lia].
             specialize (IH s3). lia. }
  now apply (G (len s)).
Qed.

Lemma TrimSpace_len (s : string) : (len (TrimSpace s) <= len s)%nat.
Proof.
  unfold TrimSpace. rewrite len_rev.
  pose proof (trimLeftSpaceRev_len (rev (trimLeftSpace s))) as L1.
  rewrite len_rev in L1. pose proof (trimLeftSpace_len s). lia.
Qed.

(** What follows the keyword [Body:] on its line is shorter than the
    line. *)
Lemma after_Body_shorter (trim : string) :
  HasPrefix trim "Body:" = true ->
  (len (TrimSpace (TrimPrefix trim "Body:")) < len trim)%nat.
Proof.
  intros P. unfold TrimPrefix. rewrite P.
  pose proof (TrimSpace_len (drop (len "Body:") trim)) as L.
  apply HasPrefix_inv in P. rewrite P at 2. rewrite len_append.
  change (len "Body:") with 5%nat in *. lia.
Qed.

Lemma snoc_neq {A : Type} (l : list A) (x : A) : l <> l ++ [x].
Proof.
  intros E. apply (f_equal (@List.length A)) in E.
  rewrite length_app in E. simpl in E. lia.
Qed.

(** C8, amended. In the [Body] state, a line whose trimmed text begins
    with none of the four keywords returns the parser to [None] when it is
    blank or begins with [Response], leaving the collected body as it is,
    and otherwise stays in [Body] with the trimmed line appended; the
    request is untouched either way. A line that begins with a keyword is
    taken by the keyword's case instead, whose result is given in full:
    the parser stays in [Body], or moves to [Headers] on [Headers:]; the
    body is left as it is, but for the text that follows [Body:] when
    there is one. The keyword's case does to the request and to the body
    what it does in any other state, and the line itself is not
    appended. *)
Theorem processLine_in_body (st : Loop) (line : string) :
  state st = StateBody ->
  (isKeyword (TrimSpace line) = false ->
   processLine st line =
   if String.eqb (TrimSpace line) "" || HasPrefix (TrimSpace line) "Response"
   then mkLoop (pr st) (bodyLines st) StateNone
   else mkLoop (pr st) (bodyLines st ++ [TrimSpace line]) StateBody)
  /\ (isKeyword (TrimSpace line) = true ->
      processLine st line =
        (if HasPrefix (TrimSpace line) "Request method:" then
           mkLoop (setMethod (pr st)
                     (TrimSpace (TrimPrefix (TrimSpace line) "Request method:")))
                  (bodyLines st) StateBody
         else if HasPrefix (TrimSpace line) "Request URI:" then
           mkLoop (match url_Parse (TrimSpace (TrimPrefix (TrimSpace line)
                                                  "Request URI:")) with
                   | Some u =>
                       setParams
                         (setURI (pr st)
                            (TrimSpace (TrimPrefix (TrimSpace line) "Request URI:")))
                         (url_Query u)
                   | None =>
                       setURI (pr st)
                         (TrimSpace (TrimPrefix (TrimSpace line) "Request URI:"))
                   end)
                  (bodyLines st) StateBody
         else if HasPrefix (TrimSpace line) "Headers:" then
           mkLoop (if negb (String.eqb (TrimSpace (TrimPrefix (TrimSpace line)
                                                     "Headers:")) "")
                      && negb (String.eqb (TrimSpace (TrimPrefix (TrimSpace line)
                                                        "Headers:")) "<none>")
                   then addHeaderLine (pr st)
                          (TrimSpace (TrimPrefix (TrimSpace line) "Headers:"))
                   else pr st)
                  (bodyLines st) StateHeaders
         else
           mkLoop (pr st)
                  (if negb (String.eqb (TrimSpace (TrimPrefix (TrimSpace line)
                                                     "Body:")) "")
                      && negb (String.eqb (TrimSpace (TrimPrefix (TrimSpace line)
                                                        "Body:")) "<none>")
                   then bodyLines st
                          ++ [TrimSpace (TrimPrefix (TrimSpace line) "Body:")]
                   else bodyLines st)
                  StateBody)
      /\ (forall st' : Loop,
            pr st' = pr st -> bodyLines st' = bodyLines st ->
            pr (processLine st' line) = pr (processLine st line)
            /\ bodyLines (processLine st' line) = bodyLines (processLine st line)
            /\ state (processLine st' line) =
                 (if HasPrefix (TrimSpace line) "Headers:" then StateHeaders
                  else if HasPrefix (TrimSpace line) "Body:" then StateBody
                  else state st'))
      /\ bodyLines (processLine st line) <> bodyLines st ++ [TrimSpace line]).
Proof.
  intros B. unfold isKeyword. split.
  - unfold processLine. rewrite B.
    destruct (HasPrefix (TrimSpace line) "Request method:"); [discriminate|].
    destruct (HasPrefix (TrimSpace line) "Request URI:"); [discriminate|].
    destruct (HasPrefix (TrimSpace line) "Headers:"); [discriminate|].
    destruct (HasPrefix (TrimSpace line) "Body:"); [discriminate | reflexivity].
  - intros K.
    assert (Any : forall st' : Loop,
              pr st' = pr st -> bodyLines st' = bodyLines st ->
              pr (processLine st' line) = pr (processLine st line)
              /\ bodyLines (processLine st' line) = bodyLines (processLine st line)
              /\ state (processLine st' line) =
                   (if HasPrefix (TrimSpace line) "Headers:" then StateHeaders
                    else if HasPrefix (TrimSpace line) "Body:" then StateBody
                    else state st')).
    { intros st' Ep Eb. unfold processLine. rewrite Ep, Eb.
      destruct (HasPrefix (TrimSpace line) "Request method:") eqn:M.
      { apply HasPrefix_inv in M. rewrite M. now repeat split. }
      destruct (HasPrefix (TrimSpace line) "Request URI:") eqn:U.
      { apply HasPrefix_inv in U. rewrite U. now repeat split. }
      destruct (HasPrefix (TrimSpace line) "Headers:"); [now repeat split|].
      destruct (HasPrefix (TrimSpace line) "Body:"); [now repeat split|].
      discriminate K. }
    split; [|split; [exact Any|]].
    + unfold processLine. rewrite B.
      destruct (HasPrefix (TrimSpace line) "Request method:"); [reflexivity|].
      destruct (HasPrefix (TrimSpace line) "Request URI:"); [reflexivity|].
      destruct (HasPrefix (TrimSpace line) "Headers:"); [reflexivity|].
      destruct (HasPrefix (TrimSpace line) "Body:"); [reflexivity | discriminate K].
    + unfold processLine. rewrite B.
      destruct (HasPrefix (TrimSpace line) "Request method:"); [apply snoc_neq|].
      destruct (HasPrefix (TrimSpace line) "Request URI:"); [apply snoc_neq|].
      destruct (HasPrefix (TrimSpace line) "Headers:"); [apply snoc_neq|].
      destruct (HasPrefix (TrimSpace line) "Body:") eqn:P; [|discriminate K].
      cbn [bodyLines]. destruct (_ && _); [|apply snoc_neq].
      intros E. apply app_inv_head in E. injection E as E.
      pose proof (after_Body_shorter _ P) as L. rewrite E in L. lia.
Qed.

(** The body [ParseLog] returns is the collected lines joined with a
    newline. *)
Lemma ParseLog_Body (s : string) :
  Body (fst (ParseLog (mkReader s EOF))) =
  Join (bodyLines (consume s)) (String newline "").
Proof.
  unfold ParseLog. cbn [ending content].
  destruct (_ || _); reflexivity.
Qed.

End WithLib.

(** C8, as stated, fails: in the [Body] state the line [Headers: x=1] is
    neither blank nor begins with [Response], yet the parser moves to
    [Headers] and the line is not appended to the body. *)
Lemma processLine_body_keyword_line :
  let st := mkLoop emptyRequest ["{"] StateBody in
  String.eqb (TrimSpace "Headers: x=1") "" = false
  /\ HasPrefix (TrimSpace "Headers: x=1") "Response" = false
  /\ state (processLine (H := Sample.lib) st "Headers: x=1") = StateHeaders
  /\ bodyLines (processLine (H := Sample.lib) st "Headers: x=1") = ["{"].
Proof. vm_compute. repeat split. Qed.

(** In the [Body] state, a closing brace, indented, after an opening one;
    and what a [Headers:] line would do there. *)
Lemma processLine_in_body_witness :
  let st := mkLoop emptyRequest ["{"] StateBody in
  (processLine (H := Sample.lib) st "  }  " = mkLoop emptyRequest ["{"; "}"] StateBody)
  /\ (processLine (H := Sample.lib) st "Headers: x=1"
      = mkLoop (addHeaderLine (H := Sample.lib) emptyRequest "x=1") ["{"] StateHeaders).
Proof.
  split.
  - apply (proj1 (processLine_in_body (H := Sample.lib)
                    (mkLoop emptyRequest ["{"] StateBody) "  }  " eq_refl)).
    reflexivity.
  - apply (proj1 (proj2 (processLine_in_body (H := Sample.lib)
                           (mkLoop emptyRequest ["{"] StateBody) "Headers: x=1" eq_refl)
                    eq_refl)).
Defined.

End ParserProps.

(** ** Loading the registry *)

Module LoaderProps.
Import GoStrings GoStringsFacts Lib Indexing.

Section WithLib.
Context `{GoLib}.

(** What [firstServerInfo] returns on success: the [Host] field of the
    parsed [servers[0].url], port included, and its path without trailing
    slashes. *)
Lemma firstServerInfo_Ok (raw : option (gmap string JSON)) (host base : string) :
  firstServerInfo raw = Ok (host, base) ->
  exists (r m : gmap string JSON) (sv : list JSON) (urlStr : string) (u : GoURL.URL),
    raw = Some r
    /\ r !! "servers" = Some (JArray (JObject m :: sv))
    /\ m !! "url" = Some (JString urlStr)
    /\ url_Parse urlStr = Some u
    /\ host = GoURL.Host u
    /\ base = (if String.eqb (TrimRight (GoURL.Path u) "/") "/" then ""
               else TrimRight (GoURL.Path u) "/").
Proof.
  unfold firstServerInfo. intros E.
  destruct raw as [r|]; [|discriminate E]. cbn [mbind option_bind] in E.
  destruct (r !! "servers") as [[| | | |[|[| | | | |m] sv]|]|] eqn:Es; try discriminate E.
  destruct (m !! "url") as [[| | |urlStr| |]|] eqn:Eu; try discriminate E.
  destruct (url_Parse urlStr) as [u|] eqn:Ep; [|discriminate E].
  injection E as <- <-. exists r, m, sv, urlStr, u. repeat split; assumption.
Qed.

(** The registry after the loop: the specs inserted one after the other. *)
Lemma loadSpecs_Ok (w : World) (cfgs : list SpecConfig) (reg0 reg : Registry)
    (upd0 upd : gmap string string) :
  loadSpecs w cfgs reg0 upd0 = Ok (reg, upd) ->
  exists specs : list SpecIndex,
    Forall2 (fun cfg spec => loadSpec w cfg = Ok spec) cfgs specs
    /\ reg = fold_left (fun r spec => <[Host spec := spec]> r) specs reg0.
Proof.
  revert reg0 upd0. induction cfgs as [|cfg cfgs IH]; intros reg0 upd0 E; simpl in E.
  - injection E as <- _. exists []. split; [constructor | reflexivity].
  - destruct (loadSpec w cfg) as [spec|e] eqn:Ec; [|discriminate E].
    destruct (IH _ _ E) as (specs & F & ->).
    exists (spec :: specs). split; [now constructor | reflexivity].
Qed.

(** Inserting specs by host one after the other leaves, under each host,
    the last spec that declares it. *)
Lemma fold_insert_lookup (specs : list SpecIndex) (reg0 : Registry) (host : string) :
  fold_left (fun r spec => <[Host spec := spec]> r) specs reg0 !! host =
  match last (filter (fun spec => Host spec = host) specs) with
  | Some spec => Some spec
  | None => reg0 !! host
  end.
Proof.
  revert reg0. induction specs as [|spec specs IH]; intros reg0; [reflexivity|].
  simpl. rewrite IH, filter_cons.
  destruct (decide (Host spec = host)) as [E|N].
  - rewrite last_cons.
    destruct (last (filter _ specs)); [reflexivity|].
    rewrite <- E. apply lookup_insert_eq.
  - destruct (last (filter _ specs)); [reflexivity|].
    apply lookup_insert_ne, N.
Qed.

(** What a successful load returns. *)
Lemma LoadConfigAndIndex_Ok (flt : Faults) (w : World)
    (configPath cachePath : string) (reg : Registry) :
  snd (LoadConfigAndIndex flt w configPath cachePath) = Ok reg ->
  exists (cfgs : list SpecConfig) (specs : list SpecIndex),
    files w !! configPath ≫= json_UnmarshalConfigs = Some cfgs
    /\ Forall2 (fun cfg spec => loadSpec w cfg = Ok spec) cfgs specs
    /\ reg = fold_left (fun r spec => <[Host spec := spec]> r) specs ∅.
Proof.
  unfold LoadConfigAndIndex. intros E.
  destruct (files w !! configPath ≫= json_UnmarshalConfigs) as [cfgs|]; [|discriminate E].
  destruct (loadSpecs w cfgs ∅ ∅) as [[registry updated]|e] eqn:El; [|discriminate E].
  injection E as <-.
  destruct (loadSpecs_Ok _ _ _ _ _ _ El) as (specs & F & ->).
  now exists cfgs, specs.
Qed.


(** Every key of the registry is the [Host] field of a parsed
    [servers[0].url], as [url.Parse] gives it: with the port, when the URL
    has one. *)
Lemma registry_key_is_Host (flt : Faults) (w : World)
    (configPath cachePath : string) (reg : Registry) (key : string) (spec : SpecIndex) :
  snd (LoadConfigAndIndex flt w configPath cachePath) = Ok reg ->
  reg !! key = Some spec ->
  exists (data urlStr : string) (r m : gmap string JSON) (sv : list JSON) (u : GoURL.URL),
    files w !! File spec = Some data
    /\ json_Unmarshal data = Ok (Some r)
    /\ r !! "servers" = Some (JArray (JObject m :: sv))
    /\ m !! "url" = Some (JString urlStr)
    /\ url_Parse urlStr = Some u
    /\ key = GoURL.Host u.
Proof.
  intros E L.
  destruct (LoadConfigAndIndex_Ok _ _ _ _ _ E) as (cfgs & specs & _ & F & ->).
  rewrite fold_insert_lookup in L.
  destruct (last (filter _ specs)) as [spec'|] eqn:El;
    [injection L as -> | exfalso; revert L; apply lookup_empty_Some].
  apply last_Some_elem_of in El. rename El into L.
  apply list_elem_of_filter in L as [Ek Hin].
  apply list_elem_of_lookup in Hin as [i Hi].
  destruct (Forall2_lookup_r _ _ _ _ _ F Hi) as (cfg & _ & Ec).
  unfold loadSpec in Ec.
  destruct (filepath_Abs (cfgFile cfg)) as [abs|]; [|discriminate Ec].
  destruct (files w !! abs) as [data|] eqn:Ed; [|discriminate Ec].
  destruct (json_Unmarshal data) as [raw|] eqn:Ej; [|discriminate Ec].
  destruct (firstServerInfo raw) as [[host base]|] eqn:Es; [|discriminate Ec].
  injection Ec as <-. simpl in Ek. subst host.
  destruct (firstServerInfo_Ok _ _ _ Es) as (r & m & sv & urlStr & u & -> & ? & ? & ? & ? & _).
  exists data, urlStr, r, m, sv, u. simpl. repeat split; assumption.
Qed.

End WithLib.



End LoaderProps.

(** ** Resolving a request *)

Module ResolverProps.
Import GoStrings GoStringsFacts Lib Indexing.

Section WithLib.
Context `{GoLib}.

(** The loop skips the candidates that fail the test and returns at the
    first that passes it. *)
Lemma firstMatch_skip (meta : SpecIndex) (wantMethod full rel : string)
    (skipped rest : list SearchResult) :
  Forall (fun c => isMatch meta wantMethod full rel c = false) skipped ->
  firstMatch meta wantMethod full rel (skipped ++ rest)
  = firstMatch meta wantMethod full rel rest.
Proof.
  induction 1 as [|c skipped Hc _ IH]; [reflexivity|].
  simpl. unfold isMatch in Hc.
  destruct (String.eqb (srSpecName c) (SpecName meta)); [|exact IH].
  destruct (String.eqb (srMethod c) wantMethod); [|exact IH].
  simpl in Hc |- *. rewrite Hc. exact IH.
Qed.

Lemma firstMatch_hit (meta : SpecIndex) (wantMethod full rel : string)
    (r : SearchResult) (rest : list SearchResult) :
  isMatch meta wantMethod full rel r = true ->
  firstMatch meta wantMethod full rel (r :: rest)
  = Ok (srSpecName r, srOperationID r,
        extractPathParams (BasePath meta) (srTemplate r) full).
Proof.
  unfold isMatch. intros E.
  apply andb_true_iff in E as [E Em]. apply andb_true_iff in E as [Es Ew].
  simpl. rewrite Es, Ew, Em. reflexivity.
Qed.

(** The path [extractPathParams] splits: [fullPath] without [basePath] and
    without one leading slash. *)
Lemma extractPathParams_mismatch (basePath tmpl fullPath : string) :
  List.length (segments tmpl)
  <> List.length (segments (TrimPrefix (TrimPrefix fullPath basePath) "/")) ->
  extractPathParams basePath tmpl fullPath = ∅.
Proof.
  intros N. unfold extractPathParams.
  destruct (Nat.eqb_spec (List.length (segments tmpl))
              (List.length (segments (TrimPrefix (TrimPrefix fullPath basePath) "/"))));
    [contradiction | reflexivity].
Qed.

(** C9. Let [r] be the first candidate of the search that passes the
    resolver's test (spec, method, and a template that matches the full or
    the relative path). When the template's segment count differs from the
    segment count of the full path stripped of the base path,
    [extractPathParams] returns the empty map, and [FindOperation] returns
    the candidate's spec name and operation id with it, and no error. *)
Theorem FindOperation_segment_mismatch (idx : list Shard) (reg : Registry)
    (method rawURL : string) (u : GoURL.URL) (meta : SpecIndex)
    (skipped rest : list SearchResult) (r : SearchResult) (total : nat) :
  url_Parse rawURL = Some u ->
  reg !! GoURL.Hostname u = Some meta ->
  SearchBleve idx [] [] (relPath meta (GoURL.Path u)) 100 0
    = Ok (skipped ++ r :: rest, total) ->
  Forall (fun c => isMatch meta (ToUpper method) (GoURL.Path u)
                     (relPath meta (GoURL.Path u)) c = false) skipped ->
  isMatch meta (ToUpper method) (GoURL.Path u) (relPath meta (GoURL.Path u)) r = true ->
  List.length (segments (srTemplate r))
  <> List.length (segments (TrimPrefix (TrimPrefix (GoURL.Path u) (BasePath meta)) "/")) ->
  extractPathParams (BasePath meta) (srTemplate r) (GoURL.Path u) = ∅
  /\ FindOperation idx reg method rawURL = Ok (srSpecName r, srOperationID r, ∅).
Proof.
  intros Eu Er Es Hs Hr N.
  pose proof (extractPathParams_mismatch _ _ _ N) as Ee.
  split; [exact Ee|].
  unfold FindOperation. rewrite Eu, Er, Es.
  rewrite (firstMatch_skip _ _ _ _ _ _ Hs), (firstMatch_hit _ _ _ _ _ _ Hr), Ee.
  reflexivity.
Qed.

(** [FindOperation] looks the registry up under [u.Hostname()]. *)
Lemma FindOperation_unknown_host (idx : list Shard) (reg : Registry)
    (method rawURL : string) (u : GoURL.URL) :
  url_Parse rawURL = Some u ->
  reg !! GoURL.Hostname u = None ->
  FindOperation idx reg method rawURL = Err (ErrNoSpecForHost (GoURL.Hostname u)).
Proof. intros Eu Er. unfold FindOperation. rewrite Eu, Er. reflexivity. Qed.

End WithLib.

(** A spec whose template [/api/items/{id}] repeats the base path [/api]
    of its server: the template matches the full path, and has one segment
    more than the path without the base path. *)
Lemma FindOperation_segment_mismatch_witness :
  extractPathParams "/api" "/api/items/{id}" "/api/items/5" = ∅
  /\ FindOperation (H := Sample.lib) (Sample.aliasOf Sample.prefixedConfig)
       (Sample.registryOf Sample.prefixedConfig) "get" "http://prefixed.test/api/items/5"
     = Ok ("prefixed", "getItem", ∅).
Proof.
  apply (FindOperation_segment_mismatch (H := Sample.lib)
           (Sample.aliasOf Sample.prefixedConfig) (Sample.registryOf Sample.prefixedConfig)
           "get" "http://prefixed.test/api/items/5"
           (GoURL.mkURL "http" "prefixed.test" "/api/items/5" "")
           (mkSpecIndex "prefixed" "/tmp/prefixed-spec.json" "prefixed.test" "/api"
              (computeSHA (H := Sample.lib) (Sample.renderJSON (JObject Sample.prefixedSpec))))
           [] []
           (mkSearchResult "prefixed" "getItem" "GET" "/api/items/{id}" "" []) 1).
  - vm_compute. reflexivity.
  - vm_compute. reflexivity.
  - vm_compute. reflexivity.
  - constructor.
  - vm_compute. reflexivity.
  - vm_compute. discriminate.
Defined.

(** C1 fails on the code. The spec [portSpec] declares the server
    [http://example.com:8080/api]: it is registered under
    [example.com:8080], the [Host] of the parsed URL, while the hostname of
    that URL, which [FindOperation] looks up, is [example.com]. A request
    to the declared server finds no registry entry; the same spec on a
    server without a port resolves. *)
Theorem server_with_port_is_never_found :
  snd (LoadConfigAndIndex (H := Sample.lib) noFaults (Sample.world Sample.portConfig)
         "/tmp/specs.json" "/tmp/cache/bleve")
    = Ok (Sample.registryOf Sample.portConfig)
  /\ map fst (map_to_list (Sample.registryOf Sample.portConfig)) = ["example.com:8080"]
  /\ GoURL.Hostname <$> url_Parse (GoLib := Sample.lib) "http://example.com:8080/api"
     = Some "example.com"
  /\ FindOperation (H := Sample.lib) (Sample.aliasOf Sample.portConfig)
       (Sample.registryOf Sample.portConfig) "GET" "http://example.com:8080/api/items/123"
     = Err (ErrNoSpecForHost "example.com")
  /\ FindOperation (H := Sample.lib) (Sample.aliasOf Sample.testConfig)
       (Sample.registryOf Sample.testConfig) "GET" "http://example.com/api/items/123?foo=bar"
     = Ok ("test-spec", "getItem", {["id" := "123"]}).
Proof. vm_compute. repeat split. Qed.

End ResolverProps.

(** ** Searching *)

Module SearchProps.
Import GoStrings GoStringsFacts Lib Indexing.

(** The id of a document splits back into its four components when none
    of them holds the separator. *)
Lemma Split_docID (specName : string) (e : OpEntry) :
  free_of "|" specName = true -> free_of "|" (Method e) = true ->
  free_of "|" (Template e) = true -> free_of "|" (OperationID e) = true ->
  Split (docID specName e) "|" = [specName; Method e; Template e; OperationID e].
Proof.
  intros Fs Fm Ft Fo. unfold docID.
  rewrite !append_cons, !append_nil_l.
  rewrite (Split_app_sep specName _ "|" Fs), (Split_app_sep (Method e) _ "|" Fm),
    (Split_app_sep (Template e) _ "|" Ft), (Split_free _ _ Fo).
  reflexivity.
Qed.

(** The tags come back from the stored field as they were indexed. *)
Lemma ifaceSliceToString_stored (tags : list string) :
  ifaceSliceToString (default INil (storedValue (IStrings tags))) = tags.
Proof.
  destruct tags as [|t [|t' tags]]; [reflexivity..|].
  simpl. f_equal. f_equal.
  induction tags as [|x tags IH]; [reflexivity|].
  simpl. f_equal. exact IH.
Qed.

Lemma hitOf_Tags (specName : string) (e : OpEntry) :
  Fields (hitOf (docID specName e) (docMap specName e)) !! "Tags"
  = storedValue (IStrings (Tags e)).
Proof.
  unfold hitOf, docMap. cbn [Fields]. rewrite lookup_omap.
  rewrite !lookup_insert_ne by discriminate.
  rewrite lookup_insert_eq. reflexivity.
Qed.

(** What [SearchBleve] makes of the hit for an indexed entry: every field
    of the entry but the description, which it sets to the empty string. *)
Lemma materialise_hitOf (specName : string) (e : OpEntry) :
  free_of "|" specName = true -> free_of "|" (Method e) = true ->
  free_of "|" (Template e) = true -> free_of "|" (OperationID e) = true ->
  materialise (hitOf (docID specName e) (docMap specName e))
  = mkSearchResult specName (OperationID e) (Method e) (Template e) "" (Tags e).
Proof.
  intros Fs Fm Ft Fo. unfold materialise.
  rewrite hitOf_Tags, ifaceSliceToString_stored.
  cbn [ID hitOf]. rewrite Split_docID by assumption. reflexivity.
Qed.

Section WithLib.
Context `{GoLib}.

(** When the engine ranks first the hit for the document indexed for [e],
    the first result of [SearchBleve] carries the spec name, method,
    template, operation id and tags of [e], and an empty description. *)
Lemma SearchBleve_top_hit (idx : list Shard) (specName : string) (e : OpEntry)
    (limit : nat) (hits : list Hit) (total : nat) :
  free_of "|" specName = true -> free_of "|" (Method e) = true ->
  free_of "|" (Template e) = true -> free_of "|" (OperationID e) = true ->
  bleve_Search idx
    (mkSearchRequest (ConjunctionQuery [QueryStringQuery (OperationID e)])
       limit 0 searchFields)
    = Some (hitOf (docID specName e) (docMap specName e) :: hits, total) ->
  SearchBleve idx [] [] (OperationID e) limit 0
  = Ok (mkSearchResult specName (OperationID e) (Method e) (Template e) "" (Tags e)
          :: map materialise hits, total).
Proof.
  intros Fs Fm Ft Fo E. unfold SearchBleve. cbn zeta. rewrite E.
  cbn [map]. rewrite materialise_hitOf by assumption. reflexivity.
Qed.

End WithLib.

(** C3 fails on the code. The operation [getThing] of the search test is
    indexed with the description [Retrieve a thing]; searching for
    [getThing] returns one result, with the spec name, method, template,
    operation id and tags of the indexed entry, and an empty description. *)
Theorem search_drops_description :
  extractOpEntries (default [] (openapi3_Load (GoLib := Sample.lib) (Some Sample.searchSpec)))
  = [mkOpEntry "GET" "/things/{id}" "getThing" "Retrieve a thing" ["alpha"; "beta"];
     mkOpEntry "POST" "/things" "createThing" "Create a new thing" ["beta"]]
  /\ SearchBleve (H := Sample.lib) (Sample.aliasOf Sample.searchConfig) [] [] "getThing" 10 0
     = Ok ([mkSearchResult "search-spec" "getThing" "GET" "/things/{id}" ""
              ["alpha"; "beta"]], 1).
Proof. vm_compute. repeat split. Qed.

End SearchProps.

(** ** Building the shards *)

Module ShardProps.
Import GoStrings GoStringsFacts Lib Indexing.

Section WithLib.
Context `{GoLib}.

Lemma needRebuild_iff (w : World) (baseDir : string) (spec : SpecIndex) :
  needRebuild w baseDir spec = true <->
  prevHash w baseDir spec <> ContentHash spec
  \/ shards w !! shardDir baseDir spec = None.
Proof.
  unfold needRebuild. rewrite orb_true_iff, negb_true_iff, String.eqb_neq.
  rewrite bool_decide_eq_true. reflexivity.
Qed.

Lemma needRebuild_false_iff (w : World) (baseDir : string) (spec : SpecIndex) :
  needRebuild w baseDir spec = false <->
  prevHash w baseDir spec = ContentHash spec
  /\ is_Some (shards w !! shardDir baseDir spec).
Proof.
  unfold needRebuild. rewrite orb_false_iff, negb_false_iff, String.eqb_eq.
  rewrite bool_decide_eq_false, <- not_eq_None_Some. reflexivity.
Qed.

(** Indexing a spec writes to the shard it is given and to nothing else. *)
Lemma indexSpecOnDisk_frame (flt : Faults) (w : World) (dir : string) (spec : SpecIndex) :
  files (fst (indexSpecOnDisk flt w dir spec)) = files w
  /\ logged (fst (indexSpecOnDisk flt w dir spec)) = logged w
  /\ (forall d, d <> dir ->
        shards (fst (indexSpecOnDisk flt w dir spec)) !! d = shards w !! d)
  /\ (is_Some (shards w !! dir) ->
        is_Some (shards (fst (indexSpecOnDisk flt w dir spec)) !! dir)).
Proof.
  unfold indexSpecOnDisk.
  destruct (files w !! File spec) as [data|]; [|now repeat split].
  destruct (sanitizeComponents _) as [raw|msg]; [|now repeat split].
  destruct (injectMissingSchemas raw) as [raw'|msg]; [|now repeat split].
  destruct (openapi3_Load raw') as [doc|]; [|now repeat split].
  destruct (indexEntries _ _ _ _ _) as [shard r]. cbn [fst setShards files logged shards].
  repeat split.
  - intros d N. now rewrite lookup_insert_ne.
  - intros _. rewrite lookup_insert_eq. now eexists.
Qed.

(** Without a need to rebuild nothing is rebuilt: the file system, the
    shards and the log are left as they are, and the call returns what
    [bleve.Open] returns. *)
Lemma BuildOrOpenSpecIndex_open (flt : Faults) (w : World) (baseDir : string)
    (spec : SpecIndex) :
  needRebuild w baseDir spec = false ->
  BuildOrOpenSpecIndex flt w baseDir spec
  = (w, if mkdirAllFails flt then Done (Err ErrMkdirAll)
        else if openFails flt then Done (Err ErrOpenIndex)
        else Done (Ok (shardDir baseDir spec))).
Proof.
  intros N. unfold BuildOrOpenSpecIndex. rewrite N.
  destruct (mkdirAllFails flt); [reflexivity|].
  destruct (openFails flt); reflexivity.
Qed.


(** After a call that returns an index, the hash sibling holds the content
    hash of the spec and the shard directory exists. *)
Lemma BuildOrOpenSpecIndex_Ok_fresh (flt : Faults) (w : World) (baseDir : string)
    (spec : SpecIndex) (idx : string) :
  snd (BuildOrOpenSpecIndex flt w baseDir spec) = Done (Ok idx) ->
  idx = shardDir baseDir spec
  /\ needRebuild (fst (BuildOrOpenSpecIndex flt w baseDir spec)) baseDir spec = false.
Proof.
  unfold BuildOrOpenSpecIndex.
  destruct (mkdirAllFails flt); [discriminate|].
  destruct (needRebuild w baseDir spec) eqn:N.
  - set (w1 := if removeAllFails flt then _ else _).
    destruct (newUsingFails flt || _); [discriminate|].
    set (w2 := setShards w1 _).
    pose proof (indexSpecOnDisk_frame flt w2 (shardDir baseDir spec) spec) as (_ & _ & _ & S).
    destruct (indexSpecOnDisk flt w2 (shardDir baseDir spec) spec) as [w3 [[[]|e]|msg]];
      try discriminate.
    destruct (writeFileFails flt); [discriminate|].
    cbn [fst snd] in S |- *. intros E. injection E as <-. split; [reflexivity|].
    apply needRebuild_false_iff. split.
    + unfold prevHash. cbn [files setFiles]. now rewrite lookup_insert_eq.
    + cbn [shards setFiles]. apply S. subst w2. cbn [shards setShards].
      rewrite lookup_insert_eq. now eexists.
  - destruct (openFails flt); [discriminate|].
    cbn [fst snd]. intros E. injection E as <-. now split.
Qed.


(** A call changes no hash sibling and no shard but those of its spec. *)
Lemma BuildOrOpenSpecIndex_frame (flt : Faults) (w : World) (baseDir : string)
    (spec : SpecIndex) :
  (forall f, f <> hashFile baseDir spec ->
     files (fst (BuildOrOpenSpecIndex flt w baseDir spec)) !! f = files w !! f)
  /\ (forall d, d <> shardDir baseDir spec ->
        shards (fst (BuildOrOpenSpecIndex flt w baseDir spec)) !! d = shards w !! d).
Proof.
  unfold BuildOrOpenSpecIndex.
  destruct (mkdirAllFails flt); [now split|].
  destruct (needRebuild w baseDir spec); [|destruct (openFails flt); now split].
  set (w1 := if removeAllFails flt then _ else _).
  assert (F1 : files w1 = files w /\
               forall d, d <> shardDir baseDir spec -> shards w1 !! d = shards w !! d).
  { subst w1. destruct (removeAllFails flt); cbn [files shards setShards logPrintf];
      (split; [reflexivity|]); intros d N; [reflexivity | now rewrite lookup_delete_ne]. }
  destruct F1 as [Ff Fs].
  destruct (newUsingFails flt || _);
    [cbn [fst]; split; [intros; now rewrite Ff | exact Fs]|].
  set (w2 := setShards w1 _).
  pose proof (indexSpecOnDisk_frame flt w2 (shardDir baseDir spec) spec) as (If & _ & Is & _).
  assert (F2 : forall d, d <> shardDir baseDir spec ->
                 shards (fst (indexSpecOnDisk flt w2 (shardDir baseDir spec) spec)) !! d
                 = shards w !! d).
  { intros d N. rewrite (Is d N). subst w2. cbn [shards setShards].
    rewrite lookup_insert_ne by congruence. apply Fs, N. }
  destruct (indexSpecOnDisk flt w2 (shardDir baseDir spec) spec) as [w3 [[[]|e]|msg]];
    cbn [fst] in *;
    try (split; [intros; rewrite If; subst w2; cbn [files setShards]; now rewrite Ff
                | exact F2]).
  destruct (writeFileFails flt); cbn [fst files shards setFiles]; split; try exact F2.
  - intros. rewrite If. subst w2. cbn [files setShards]. now rewrite Ff.
  - intros f N. rewrite lookup_insert_ne by congruence.
    rewrite If. subst w2. cbn [files setShards]. now rewrite Ff.
Qed.

Lemma needRebuild_ext (w w' : World) (baseDir : string) (spec : SpecIndex) :
  files w' !! hashFile baseDir spec = files w !! hashFile baseDir spec ->
  shards w' !! shardDir baseDir spec = shards w !! shardDir baseDir spec ->
  needRebuild w' baseDir spec = needRebuild w baseDir spec.
Proof. intros Ef Es. unfold needRebuild, prevHash. now rewrite Ef, Es. Qed.

Lemma buildAll_keeps_fresh (flt : Faults) (baseDir : string) (spec : SpecIndex)
    (specs : list SpecIndex) (w : World) (alias : list string)
    (firstErr : option BuildError) :
  separate baseDir spec specs ->
  needRebuild w baseDir spec = false ->
  needRebuild (fst (buildAll flt w baseDir specs alias firstErr)) baseDir spec = false.
Proof.
  intros S. revert w alias firstErr.
  induction S as [|spec' specs [Nf Nd] _ IH]; intros w alias firstErr N; [exact N|].
  simpl.
  pose proof (BuildOrOpenSpecIndex_frame flt w baseDir spec') as [Ff Fs].
  assert (N1 : needRebuild (fst (BuildOrOpenSpecIndex flt w baseDir spec')) baseDir spec
               = false).
  { rewrite <- N. apply needRebuild_ext; [apply Ff | apply Fs]; congruence. }
  destruct (BuildOrOpenSpecIndex flt w baseDir spec') as [w1 [[idx|e]|msg]];
    cbn [fst] in N1 |- *; [apply IH, N1 | apply IH, N1 | exact N1].
Qed.

Lemma buildAll_error_stays (flt : Faults) (baseDir : string) (specs : list SpecIndex)
    (w : World) (alias : list string) (e : BuildError) (alias' : list string) :
  snd (buildAll flt w baseDir specs alias (Some e)) <> Done (alias', None).
Proof.
  revert w alias. induction specs as [|spec specs IH]; intros w alias; simpl.
  - discriminate.
  - destruct (BuildOrOpenSpecIndex flt w baseDir spec) as [w1 [[idx|e']|msg]];
      [apply IH | apply IH | discriminate].
Qed.

(** After a startup without error, no spec needs a rebuild. *)
Lemma buildAll_all_fresh (flt : Faults) (baseDir : string) (specs : list SpecIndex)
    (w : World) (alias alias' : list string) :
  NoDup (map (hashFile baseDir) specs) ->
  NoDup (map (shardDir baseDir) specs) ->
  snd (buildAll flt w baseDir specs alias None) = Done (alias', None) ->
  Forall (fun spec =>
            needRebuild (fst (buildAll flt w baseDir specs alias None)) baseDir spec = false)
         specs.
Proof.
  revert w alias. induction specs as [|spec specs IH]; intros w alias Nh Nd E;
    [constructor|].
  apply NoDup_cons in Nh as [Hh Nh]. apply NoDup_cons in Nd as [Hd Nd].
  assert (S : separate baseDir spec specs).
  { apply Forall_forall. intros spec' Hin. split; intros Eq.
    - apply Hh. rewrite <- Eq. apply list_elem_of_fmap. now exists spec'.
    - apply Hd. rewrite <- Eq. apply list_elem_of_fmap. now exists spec'. }
  simpl in E |- *.
  pose proof (BuildOrOpenSpecIndex_Ok_fresh flt w baseDir spec) as Fr.
  destruct (BuildOrOpenSpecIndex flt w baseDir spec) as [w1 [[idx|e]|msg]];
    cbn [fst snd] in Fr; [| |discriminate E].
  - destruct (Fr idx eq_refl) as [_ N]. constructor.
    + apply buildAll_keeps_fresh; assumption.
    + apply IH; assumption.
  - exfalso. exact (buildAll_error_stays _ _ _ _ _ _ _ E).
Qed.

(** With no spec in need of a rebuild, a startup changes nothing. *)
Lemma buildAll_fresh_unchanged (flt : Faults) (baseDir : string) (specs : list SpecIndex)
    (w : World) (alias : list string) (firstErr : option BuildError) :
  Forall (fun spec => needRebuild w baseDir spec = false) specs ->
  fst (buildAll flt w baseDir specs alias firstErr) = w.
Proof.
  intros F. revert alias firstErr.
  induction F as [|spec specs N _ IH]; intros alias firstErr; [reflexivity|].
  simpl. rewrite (BuildOrOpenSpecIndex_open flt _ _ _ N).
  destruct (mkdirAllFails flt); [apply IH|].
  destruct (openFails flt); apply IH.
Qed.

(** A second startup on what a startup without error left behind, with
    the same registry, whose specs have their own hash sibling and shard
    directory each, rebuilds no shard: it leaves the files, the shards and
    the log as they are, whatever fails in it. *)
Lemma second_startup_rebuilds_nothing (flt flt' : Faults) (w : World) (baseDir : string)
    (reg : Registry) (alias : list string) :
  NoDup (map (hashFile baseDir) (map snd (map_to_list reg))) ->
  NoDup (map (shardDir baseDir) (map snd (map_to_list reg))) ->
  snd (BuildShardedIndices flt w baseDir reg) = Done (alias, None) ->
  fst (BuildShardedIndices flt' (fst (BuildShardedIndices flt w baseDir reg)) baseDir reg)
  = fst (BuildShardedIndices flt w baseDir reg).
Proof.
  unfold BuildShardedIndices. intros Nh Nd E.
  apply buildAll_fresh_unchanged. eapply buildAll_all_fresh; eassumption.
Qed.

End WithLib.


End ShardProps.

(** ** Sanitizing *)

Module SanitizerProps.
Import GoStrings GoStringsFacts Lib Indexing.

Section WithLib.
Context `{GoLib}.

Lemma elem_of_rangeKeys {V : Type} (m : gmap string V) (k : string) :
  k ∈ rangeKeys m <-> is_Some (m !! k).
Proof.
  unfold rangeKeys. rewrite list_elem_of_fmap. split.
  - intros [[k' v] [-> Hin]]. apply elem_of_map_to_list in Hin. now exists v.
  - intros [v E]. exists (k, v). split; [reflexivity|].
    now apply elem_of_map_to_list.
Qed.

(** The loop runs to its end over non-empty keys, in whatever order and
    however often they are visited. *)
Lemma titleCaseAll_Done (ks : list string) (schemas : gmap string JSON) :
  Forall (fun k => k <> "") ks ->
  exists schemas', titleCaseAll ks schemas = Done schemas'.
Proof.
  intros F. revert schemas.
  induction F as [|k ks N _ IH]; intros schemas; [now eexists|].
  simpl. destruct k as [|k0 k1]; [contradiction|].
  unfold titleCase. destruct (negb _); apply IH.
Qed.

(** It panics when it comes to visit the empty key. *)
Lemma titleCaseAll_Panic (ks : list string) (schemas : gmap string JSON) :
  "" ∈ ks -> exists msg, titleCaseAll ks schemas = Panic msg.
Proof.
  revert schemas. induction ks as [|k ks IH]; intros schemas Hin.
  - now apply not_elem_of_nil in Hin.
  - simpl. destruct k as [|k0 k1]; [now eexists|].
    apply elem_of_cons in Hin as [E|Hin]; [discriminate E|].
    unfold titleCase. destruct (negb _); apply IH, Hin.
Qed.

Lemma sanitizeComponents_no_schemas (raw : option (gmap string JSON)) :
  schemasOf raw = None -> sanitizeComponents raw = Done raw.
Proof.
  intros E. unfold sanitizeComponents.
  destruct raw as [r|]; [|reflexivity]. now rewrite E.
Qed.

Lemma sanitizeComponents_schemas (raw : option (gmap string JSON))
    (schemas : gmap string JSON) :
  schemasOf raw = Some schemas ->
  (schemas !! "" = None -> exists raw', sanitizeComponents raw = Done raw')
  /\ (is_Some (schemas !! "") -> exists msg, sanitizeComponents raw = Panic msg).
Proof.
  intros E. unfold sanitizeComponents.
  destruct raw as [r|]; [|discriminate E]. rewrite E. split.
  - intros N.
    destruct (titleCaseAll_Done (rangeKeys schemas) schemas) as [schemas' ->];
      [|now eexists].
    apply Forall_forall. intros k Hin ->.
    apply elem_of_rangeKeys in Hin as [v Hv]. congruence.
  - intros S.
    destruct (titleCaseAll_Panic (rangeKeys schemas) schemas) as [msg ->];
      [|now eexists].
    now apply elem_of_rangeKeys.
Qed.

(** [sanitizePaths] leaves [components] alone. *)
Lemma schemasOf_sanitizePaths (raw : option (gmap string JSON)) :
  schemasOf (sanitizePaths raw) = schemasOf raw.
Proof.
  destruct raw as [r|]; [|reflexivity]. unfold sanitizePaths.
  destruct (r !! "paths") as [[| | | | |paths]|]; try reflexivity.
  unfold schemasOf. now rewrite lookup_insert_ne.
Qed.

(** C10. [sanitizeComponents] returns without a fault exactly on the
    documents whose [components.schemas], when there is one, has no empty
    key. On a document whose [components.schemas] has the empty key it
    panics on [k[0]], and so does the indexing of a spec file that decodes
    to it; such a document exists. *)
Theorem sanitizeComponents_total_iff (raw : option (gmap string JSON)) :
  ((exists raw', sanitizeComponents raw = Done raw') <->
   forall schemas, schemasOf raw = Some schemas -> schemas !! "" = None)
  /\ (forall schemas,
        schemasOf raw = Some schemas -> is_Some (schemas !! "") ->
        (exists msg, sanitizeComponents raw = Panic msg)
        /\ forall (flt : Faults) (w : World) (dir : string) (spec : SpecIndex)
                  (data : string),
             files w !! File spec = Some data ->
             json_Unmarshal data = Ok raw ->
             exists msg, snd (indexSpecOnDisk flt w dir spec) = Panic msg)
  /\ exists doc schemas,
       schemasOf (Some doc) = Some schemas /\ is_Some (schemas !! "")
       /\ exists msg, sanitizeComponents (Some doc) = Panic msg.
Proof.
  split; [|split].
  - destruct (schemasOf raw) as [schemas|] eqn:E.
    + destruct (sanitizeComponents_schemas raw schemas E) as [D P]. split.
      * intros [raw' Er] schemas' [= <-].
        destruct (schemas !! "") eqn:Es; [|reflexivity].
        destruct P as [msg Ep]; [now eexists | congruence].
      * intros A. apply D, A. reflexivity.
    + split; [discriminate|].
      intros _. exists raw. now apply sanitizeComponents_no_schemas.
  - intros schemas E S.
    destruct (sanitizeComponents_schemas raw schemas E) as [_ P]. split; [apply P, S|].
    intros flt w dir spec data Ef Ej. unfold indexSpecOnDisk. rewrite Ef, Ej.
    destruct (sanitizeComponents_schemas (sanitizePaths raw) schemas) as [_ [msg ->]];
      [now rewrite schemasOf_sanitizePaths | exact S | now eexists].
  - exists {["components" :=
              JObject {["schemas" := JObject {["" := JObject ∅]}]}]}.
    exists {["" := JObject ∅]}.
    split; [reflexivity|]. split; [now eexists|].
    apply (sanitizeComponents_schemas _ {["" := JObject ∅]}); [reflexivity | now eexists].
Qed.

End WithLib.

End SanitizerProps.

(** ** Path parameters *)

Module PathParamProps.
Import GoStrings GoStringsFacts Lib Indexing.

Lemma substring_prefix (a b : string) :
  String.substring 0 (String.length a) (a +:+ b) = a.
Proof.
  induction a as [|c a IH]; [now destruct b|].
  rewrite append_cons. simpl. now rewrite IH.
Qed.

Lemma len_app (a b : string) : len (a +:+ b) = len a + len b.
Proof.
  unfold len. induction a as [|c a IH]; [reflexivity|].
  rewrite append_cons. simpl. now rewrite IH.
Qed.

(** [ts[1:len(ts)-1]] of the segment [{name}] is [name]. *)
Lemma slice_braced (name : string) :
  slice ("{" +:+ name +:+ "}") 1 (len ("{" +:+ name +:+ "}") - 1) = name.
Proof.
  unfold slice. rewrite !len_app. change (len "{") with 1. change (len "}") with 1.
  replace (1 + (len name + 1) - 1 - 1) with (String.length name) by (unfold len; lia).
  rewrite append_cons, append_nil_l. simpl. apply substring_prefix.
Qed.

(** The segment is braced and holds the name [name]. *)
Lemma braced_name_iff (t name : string) :
  isBraced t = true /\ slice t 1 (len t - 1) = name <-> t = "{" +:+ name +:+ "}".
Proof.
  split.
  - intros [B E]. apply Matching.isBraced_spec in B as [n ->].
    now rewrite slice_braced in E; subst.
  - intros ->. split; [apply Matching.isBraced_spec; now eexists | apply slice_braced].
Qed.

(** The map the loop leaves: under [name], the path segment that faces the
    last template segment [{name}], or what the map held before. *)
Lemma collectParams_lookup (ts ps : list string) (acc : gmap string string)
    (name v : string) :
  List.length ts = List.length ps ->
  collectParams ts ps acc !! name = Some v <->
  (exists i : nat,
     ts !! i = Some ("{" +:+ name +:+ "}") /\ ps !! i = Some v
     /\ forall j : nat, (i < j)%nat -> ts !! j <> Some ("{" +:+ name +:+ "}"))
  \/ ((forall j : nat, ts !! j <> Some ("{" +:+ name +:+ "}")) /\ acc !! name = Some v).
Proof.
  revert ps acc. induction ts as [|t ts IH]; intros [|p ps] acc L; try discriminate L.
  - simpl. split.
    + intros E. right. split; [intros j; discriminate | exact E].
    + intros [(i & E & _)|[_ E]]; [discriminate E | exact E].
  - injection L as L. simpl. rewrite (IH ps _ L). clear IH. split.
    + intros [(i & Et & Ep & Hl)|[Hn E]].
      * left. exists (S i). repeat split; [exact Et | exact Ep|].
        intros [|j] Hj; [lia|]. apply Hl. lia.
      * destruct (decide (t = "{" +:+ name +:+ "}")) as [->|N].
        -- left. exists 0. 
           assert (B : isBraced ("{" +:+ name +:+ "}") = true)
             by (apply Matching.isBraced_spec; now eexists).
           rewrite B, slice_braced, lookup_insert_eq in E. injection E as <-.
           repeat split. intros [|j] Hj; [lia|]. apply Hn.
        -- right. split.
           ++ intros [|j]; [simpl; congruence | apply Hn].
           ++ destruct (isBraced t) eqn:B; [|exact E].
              rewrite lookup_insert_ne in E; [exact E|].
              intros Es. apply N, braced_name_iff. now split.
    + intros [(i & Et & Ep & Hl)|[Hn E]].
      * destruct i as [|i].
        -- simpl in Et, Ep. injection Et as ->. injection Ep as ->.
           right. split; [intros j; apply (Hl (S j)); lia|].
           assert (B : isBraced ("{" +:+ name +:+ "}") = true)
             by (apply Matching.isBraced_spec; now eexists).
           now rewrite B, slice_braced, lookup_insert_eq.
        -- left. exists i. repeat split; [exact Et | exact Ep|].
           intros j Hj. apply (Hl (S j)). lia.
      * right. split; [intros j; apply (Hn (S j))|].
        destruct (isBraced t) eqn:B; [|exact E].
        rewrite lookup_insert_ne; [exact E|].
        intros Es. apply (Hn 0). simpl. f_equal. apply braced_name_iff. now split.
Qed.

(** X1. When the template and the stripped path have equally many
    segments, [extractPathParams] binds [name] to [v] exactly when [v] is
    the path segment that faces the last template segment [{name}]: every
    parameter of the template is extracted, nothing else is, and of two
    parameters of one name the later wins. *)
Theorem extractPathParams_lookup (basePath tmpl fullPath name v : string) :
  List.length (segments tmpl)
  = List.length (segments (TrimPrefix (TrimPrefix fullPath basePath) "/")) ->
  extractPathParams basePath tmpl fullPath !! name = Some v <->
  exists i : nat,
    segments tmpl !! i = Some ("{" +:+ name +:+ "}")
    /\ segments (TrimPrefix (TrimPrefix fullPath basePath) "/") !! i = Some v
    /\ forall j : nat, (i < j)%nat -> segments tmpl !! j <> Some ("{" +:+ name +:+ "}").
Proof.
  intros L. unfold extractPathParams.
  rewrite (proj2 (Nat.eqb_eq _ _) L). cbn [negb].
  rewrite (collectParams_lookup _ _ _ _ _ L). split.
  - intros [E|[_ E]]; [exact E | now rewrite lookup_empty in E].
  - intros E. now left.
Qed.

(** The template and the request of the resolver's test. *)
Lemma extractPathParams_lookup_witness :
  extractPathParams "/api" "/items/{id}" "/api/items/123" !! "id" = Some "123" <->
  exists i : nat,
    segments "/items/{id}" !! i = Some ("{" +:+ "id" +:+ "}")
    /\ segments (TrimPrefix (TrimPrefix "/api/items/123" "/api") "/") !! i = Some "123"
    /\ forall j : nat, (i < j)%nat -> segments "/items/{id}" !! j <> Some ("{" +:+ "id" +:+ "}").
Proof.
  apply (extractPathParams_lookup "/api" "/items/{id}" "/api/items/123" "id" "123").
  reflexivity.
Defined.

End PathParamProps.

(** ** The resolver, from its result *)

Module ResolverSound.
Import GoStrings GoStringsFacts Lib Indexing.

Section WithLib.
Context `{GoLib}.

(** The loop returns an operation exactly for the first candidate that
    passes its test. *)
Lemma firstMatch_Ok_iff (meta : SpecIndex) (wantMethod full rel : string)
    (results : list SearchResult) (res : string * string * gmap string string) :
  firstMatch meta wantMethod full rel results = Ok res <->
  exists (skipped rest : list SearchResult) (r : SearchResult),
    results = skipped ++ r :: rest
    /\ Forall (fun c => isMatch meta wantMethod full rel c = false) skipped
    /\ isMatch meta wantMethod full rel r = true
    /\ res = (srSpecName r, srOperationID r,
              extractPathParams (BasePath meta) (srTemplate r) full).
Proof.
  split.
  - induction results as [|c results IH]; [discriminate|].
    intros E. destruct (isMatch meta wantMethod full rel c) eqn:M.
    + rewrite (ResolverProps.firstMatch_hit _ _ _ _ _ _ M) in E. injection E as <-.
      exists [], results, c. repeat split; [constructor | exact M].
    + change (c :: results) with ([c] ++ results) in E.
      rewrite (ResolverProps.firstMatch_skip meta wantMethod full rel [c] results) in E
        by (constructor; [exact M | constructor]).
      destruct (IH E) as (skipped & rest & r & -> & F & Mr & ->).
      exists (c :: skipped), rest, r. repeat split; [now constructor | exact Mr].
  - intros (skipped & rest & r & -> & F & M & ->).
    rewrite (ResolverProps.firstMatch_skip _ _ _ _ _ _ F).
    apply ResolverProps.firstMatch_hit, M.
Qed.

Lemma firstMatch_Err_iff (meta : SpecIndex) (wantMethod full rel : string)
    (results : list SearchResult) (e : FindError) :
  firstMatch meta wantMethod full rel results = Err e <->
  e = ErrNoOperation
  /\ Forall (fun c => isMatch meta wantMethod full rel c = false) results.
Proof.
  split.
  - induction results as [|c results IH].
    + intros [= <-]. split; [reflexivity | constructor].
    + intros E. destruct (isMatch meta wantMethod full rel c) eqn:M.
      * rewrite (ResolverProps.firstMatch_hit _ _ _ _ _ _ M) in E. discriminate E.
      * change (c :: results) with ([c] ++ results) in E.
        rewrite (ResolverProps.firstMatch_skip meta wantMethod full rel [c] results) in E
          by (constructor; [exact M | constructor]).
        destruct (IH E) as [-> F]. split; [reflexivity | now constructor].
  - intros [-> F].
    rewrite <- (app_nil_r results), (ResolverProps.firstMatch_skip _ _ _ _ _ _ F).
    reflexivity.
Qed.

Lemma isMatch_true (meta : SpecIndex) (wantMethod full rel : string) (r : SearchResult) :
  isMatch meta wantMethod full rel r = true <->
  srSpecName r = SpecName meta /\ srMethod r = wantMethod
  /\ (matchTemplate (srTemplate r) full = true \/ matchTemplate (srTemplate r) rel = true).
Proof.
  unfold isMatch. rewrite !andb_true_iff, orb_true_iff, !String.eqb_eq. tauto.
Qed.

(** X2. [FindOperation] returns an operation exactly when the URL parses,
    its hostname is a key of the registry, the search succeeds, and some
    candidate passes the test; the operation is then that of the first
    such candidate in rank order. The spec name returned is the one
    registered under the host, the candidate's method is the caller's
    method in upper case, and its template matches the full or the
    relative path: an operation of another spec or method is never
    returned. *)
Theorem FindOperation_Ok_iff (idx : list Shard) (reg : Registry)
    (method rawURL name op : string) (params : gmap string string) :
  FindOperation idx reg method rawURL = Ok (name, op, params) <->
  exists (u : GoURL.URL) (meta : SpecIndex) (skipped rest : list SearchResult)
         (r : SearchResult) (total : nat),
    url_Parse rawURL = Some u
    /\ reg !! GoURL.Hostname u = Some meta
    /\ SearchBleve idx [] [] (relPath meta (GoURL.Path u)) 100 0
       = Ok (skipped ++ r :: rest, total)
    /\ Forall (fun c => isMatch meta (ToUpper method) (GoURL.Path u)
                          (relPath meta (GoURL.Path u)) c = false) skipped
    /\ srSpecName r = SpecName meta
    /\ srMethod r = ToUpper method
    /\ (matchTemplate (srTemplate r) (GoURL.Path u) = true
        \/ matchTemplate (srTemplate r) (relPath meta (GoURL.Path u)) = true)
    /\ name = SpecName meta
    /\ op = srOperationID r
    /\ params = extractPathParams (BasePath meta) (srTemplate r) (GoURL.Path u).
Proof.
  unfold FindOperation. split.
  - destruct (url_Parse rawURL) as [u|] eqn:Eu; [|discriminate].
    destruct (reg !! GoURL.Hostname u) as [meta|] eqn:Er; [|discriminate].
    destruct (SearchBleve idx [] [] _ 100 0) as [[results total]|[]] eqn:Es; [|discriminate].
    intros E. apply firstMatch_Ok_iff in E as (skipped & rest & r & -> & F & M & E).
    injection E as -> -> ->. apply isMatch_true in M as (Ms & Mm & Mt).
    exists u, meta, skipped, rest, r, total. now repeat split.
  - intros (u & meta & skipped & rest & r & total & -> & -> & -> & F & Ms & Mm & Mt
              & -> & -> & ->).
    apply firstMatch_Ok_iff. exists skipped, rest, r.
    repeat split; [exact F | now apply isMatch_true | now rewrite Ms].
Qed.

(** X3. The errors of [FindOperation], each with its cause: the URL does
    not parse; its hostname is no key of the registry; the search fails;
    or no candidate of the search passes the test. *)
Theorem FindOperation_Err_iff (idx : list Shard) (reg : Registry)
    (method rawURL : string) (e : FindError) :
  FindOperation idx reg method rawURL = Err e <->
  (url_Parse rawURL = None /\ e = ErrInvalidURL)
  \/ exists u : GoURL.URL,
       url_Parse rawURL = Some u
       /\ ((reg !! GoURL.Hostname u = None /\ e = ErrNoSpecForHost (GoURL.Hostname u))
           \/ exists meta : SpecIndex,
                reg !! GoURL.Hostname u = Some meta
                /\ ((SearchBleve idx [] [] (relPath meta (GoURL.Path u)) 100 0 = Err tt
                     /\ e = ErrSearch)
                    \/ exists (results : list SearchResult) (total : nat),
                         SearchBleve idx [] [] (relPath meta (GoURL.Path u)) 100 0
                         = Ok (results, total)
                         /\ Forall (fun c => isMatch meta (ToUpper method) (GoURL.Path u)
                                               (relPath meta (GoURL.Path u)) c = false)
                                   results
                         /\ e = ErrNoOperation)).
Proof.
  unfold FindOperation.
  destruct (url_Parse rawURL) as [u|].
  2: { split; [intros [= <-]; now left | intros [[_ ->]|(u & Eu & _)]; [reflexivity | discriminate Eu]]. }
  destruct (reg !! GoURL.Hostname u) as [meta|] eqn:Er.
  2: { split.
       - intros [= <-]. right. exists u. split; [reflexivity|]. now left.
       - intros [[Eu _]|(u' & [= <-] & [[_ ->]|(meta & Em & _)])];
           [discriminate Eu | reflexivity | congruence]. }
  destruct (SearchBleve idx [] [] _ 100 0) as [[results total]|[]] eqn:Es.
  - split.
    + intros E. apply firstMatch_Err_iff in E as [-> F].
      right. exists u. split; [reflexivity|]. right. exists meta. split; [exact Er|].
      right. exists results, total. now repeat split.
    + intros [[Eu _]|(u' & [= <-] & [[En _]|(meta' & Em & [[Ee _]|(rs & t & Eo & F & ->)])])];
        try congruence.
      assert (meta' = meta) as -> by congruence.
      rewrite Es in Eo. injection Eo as <- <-.
      now apply firstMatch_Err_iff.
  - split.
    + intros [= <-]. right. exists u. split; [reflexivity|]. right. exists meta.
      split; [exact Er|]. now left.
    + intros [[Eu _]|(u' & [= <-] & [[En _]|(meta' & Em & [[_ ->]|(rs & t & Eo & _)])])];
        congruence.
Qed.

End WithLib.

End ResolverSound.

(** ** The registry, entry by entry *)

Module LoaderInvariants.
Import GoStrings GoStringsFacts Lib Indexing.

(** What [TrimLeft] returns does not begin with a byte of the cutset. *)
Lemma TrimLeft_head (s cutset : string) :
  match TrimLeft s cutset with
  | EmptyString => True
  | String c _ => inCutset c cutset = false
  end.
Proof.
  induction s as [|c s IH]; [exact I|].
  simpl. destruct (inCutset c cutset) eqn:E; [exact IH | exact E].
Qed.

Lemma TrimLeft_idem (s cutset : string) :
  TrimLeft (TrimLeft s cutset) cutset = TrimLeft s cutset.
Proof.
  pose proof (TrimLeft_head s cutset) as Hh.
  destruct (TrimLeft s cutset) as [|c t]; [reflexivity|].
  simpl. now rewrite Hh.
Qed.

Lemma TrimRight_idem (s cutset : string) :
  TrimRight (TrimRight s cutset) cutset = TrimRight s cutset.
Proof. unfold TrimRight. now rewrite rev_involutive, TrimLeft_idem. Qed.

(** What [TrimRight(s, "/")] returns does not end with a slash. *)
Lemma TrimRight_no_slash (s : string) : HasSuffix (TrimRight s "/") "/" = false.
Proof.
  unfold HasSuffix, TrimRight. rewrite rev_involutive.
  pose proof (TrimLeft_head (rev s) "/") as Hh.
  destruct (TrimLeft (rev s) "/") as [|c t]; [reflexivity|].
  simpl in Hh |- *. rewrite orb_false_r in Hh. now rewrite Hh.
Qed.

Section WithLib.
Context `{GoLib}.

(** The base path [firstServerInfo] returns is the trimmed path itself:
    the test for ["/"] never holds. *)
Lemma firstServerInfo_trimmed (raw : option (gmap string JSON)) (host base : string) :
  firstServerInfo raw = Ok (host, base) ->
  exists (r m : gmap string JSON) (sv : list JSON) (urlStr : string) (u : GoURL.URL),
    raw = Some r
    /\ r !! "servers" = Some (JArray (JObject m :: sv))
    /\ m !! "url" = Some (JString urlStr)
    /\ url_Parse urlStr = Some u
    /\ base = TrimRight (GoURL.Path u) "/".
Proof.
  intros E.
  destruct (LoaderProps.firstServerInfo_Ok _ _ _ E)
    as (r & m & sv & urlStr & u & Er & Es & Em & Eu & _ & Eb).
  exists r, m, sv, urlStr, u. repeat split; try assumption.
  destruct (String.eqb_spec (TrimRight (GoURL.Path u) "/") "/") as [Eq|_]; [|exact Eb].
  pose proof (TrimRight_no_slash (GoURL.Path u)) as N. rewrite Eq in N. discriminate N.
Qed.

(** X4. The base path [firstServerInfo] returns is the path of the parsed
    [servers[0].url] without its trailing slashes: it never ends with a
    slash (the path [/] gives the empty base path), so trimming it again,
    as [FindOperation] does, changes nothing. *)
Theorem firstServerInfo_basePath (raw : option (gmap string JSON)) (host base : string) :
  firstServerInfo raw = Ok (host, base) ->
  HasSuffix base "/" = false
  /\ TrimRight base "/" = base
  /\ exists (r m : gmap string JSON) (sv : list JSON) (urlStr : string) (u : GoURL.URL),
       raw = Some r
       /\ r !! "servers" = Some (JArray (JObject m :: sv))
       /\ m !! "url" = Some (JString urlStr)
       /\ url_Parse urlStr = Some u
       /\ base = TrimRight (GoURL.Path u) "/".
Proof.
  intros E.
  destruct (firstServerInfo_trimmed _ _ _ E) as (r & m & sv & urlStr & u & Er & Es & Em & Eu & Eb).
  split; [rewrite Eb; apply TrimRight_no_slash|].
  split; [rewrite Eb; apply TrimRight_idem|].
  exists r, m, sv, urlStr, u. now repeat split.
Qed.

(** X5. Every entry of the registry a successful load returns is sound:
    it stands under its own [Host]; its [SpecName] is the name of a
    configured spec and its [File] the absolute path of that spec's file;
    its [ContentHash] is the SHA-256 of the bytes of that file; and its
    [BasePath] has no trailing slash. *)
Theorem registry_entry_sound (flt : Faults) (w : World)
    (configPath cachePath : string) (reg : Registry) (key : string) (spec : SpecIndex) :
  snd (LoadConfigAndIndex flt w configPath cachePath) = Ok reg ->
  reg !! key = Some spec ->
  Host spec = key
  /\ HasSuffix (BasePath spec) "/" = false
  /\ exists (cfgs : list SpecConfig) (cfg : SpecConfig) (data : string),
       files w !! configPath ≫= json_UnmarshalConfigs = Some cfgs
       /\ cfg ∈ cfgs
       /\ SpecName spec = Name cfg
       /\ filepath_Abs (cfgFile cfg) = Some (File spec)
       /\ files w !! File spec = Some data
       /\ ContentHash spec = computeSHA data.
Proof.
  intros E L.
  destruct (LoaderProps.LoadConfigAndIndex_Ok _ _ _ _ _ E) as (cfgs & specs & Ec & F & ->).
  rewrite LoaderProps.fold_insert_lookup in L.
  destruct (last (filter _ specs)) as [spec'|] eqn:El;
    [injection L as -> | exfalso; revert L; apply lookup_empty_Some].
  apply last_Some_elem_of, list_elem_of_filter in El as [Ek Hin].
  apply list_elem_of_lookup in Hin as [i Hi].
  destruct (Forall2_lookup_r _ _ _ _ _ F Hi) as (cfg & Hc & Es).
  unfold loadSpec in Es.
  destruct (filepath_Abs (cfgFile cfg)) as [abs|] eqn:Ea; [|discriminate Es].
  destruct (files w !! abs) as [data|] eqn:Ed; [|discriminate Es].
  destruct (json_Unmarshal data) as [raw|]; [|discriminate Es].
  destruct (firstServerInfo raw) as [[host base]|] eqn:Ef; [|discriminate Es].
  injection Es as <-. cbn [Host BasePath SpecName File ContentHash] in *.
  split; [exact Ek|].
  split.
  { destruct (firstServerInfo_trimmed _ _ _ Ef) as (_ & _ & _ & _ & u & _ & _ & _ & _ & ->).
    apply TrimRight_no_slash. }
  exists cfgs, cfg, data. repeat split; try assumption.
  apply list_elem_of_lookup. now exists i.
Qed.

(** What [loadSpec] returns is built from the configured spec and the
    bytes of its file. *)
Lemma loadSpec_Ok (w : World) (cfg : SpecConfig) (spec : SpecIndex) :
  loadSpec w cfg = Ok spec ->
  SpecName spec = Name cfg
  /\ filepath_Abs (cfgFile cfg) = Some (File spec)
  /\ exists data : string,
       files w !! File spec = Some data /\ ContentHash spec = computeSHA data.
Proof.
  unfold loadSpec.
  destruct (filepath_Abs (cfgFile cfg)) as [abs|]; [|discriminate].
  destruct (files w !! abs) as [data|] eqn:Ed; [|discriminate].
  destruct (json_Unmarshal data) as [raw|]; [|discriminate].
  destruct (firstServerInfo raw) as [[host base]|]; [|discriminate].
  intros [= <-]. cbn [SpecName File ContentHash]. repeat split. now exists data.
Qed.

(** The table of hashes the loop builds: under each name, the hash of the
    last spec of that name. *)
Lemma loadSpecs_updated (w : World) (cfgs : list SpecConfig) (reg0 reg : Registry)
    (upd0 upd : gmap string string) :
  loadSpecs w cfgs reg0 upd0 = Ok (reg, upd) ->
  exists specs : list SpecIndex,
    Forall2 (fun cfg spec => loadSpec w cfg = Ok spec) cfgs specs
    /\ forall name : string,
         upd !! name =
         match last (filter (fun spec => SpecName spec = name) specs) with
         | Some spec => Some (ContentHash spec)
         | None => upd0 !! name
         end.
Proof.
  revert reg0 upd0. induction cfgs as [|cfg cfgs IH]; intros reg0 upd0 E; simpl in E.
  - injection E as _ <-. exists []. split; [constructor | reflexivity].
  - destruct (loadSpec w cfg) as [spec|e] eqn:Ec; [|discriminate E].
    destruct (IH _ _ E) as (specs & F & L).
    exists (spec :: specs). split; [now constructor|].
    intros name. rewrite L, filter_cons.
    destruct (loadSpec_Ok _ _ _ Ec) as (En & _).
    destruct (decide (SpecName spec = name)) as [Es|N].
    + rewrite last_cons. destruct (last (filter _ specs)); [reflexivity|].
      rewrite <- Es, En. apply lookup_insert_eq.
    + destruct (last (filter _ specs)); [reflexivity|].
      apply lookup_insert_ne. congruence.
Qed.

(** X6. A load that fails writes nothing. A load that succeeds changes at
    most the cache file; shards and log are never touched. Unless it could
    not be created, the cache file then holds the encoding of the table
    that maps the name of every configured spec, and nothing else, to the
    SHA-256 of the bytes of the file of the last configured spec of that
    name. *)
Theorem LoadConfigAndIndex_effect (flt : Faults) (w : World) (configPath cachePath : string) :
  match snd (LoadConfigAndIndex flt w configPath cachePath) with
  | Err _ => fst (LoadConfigAndIndex flt w configPath cachePath) = w
  | Ok _ =>
      shards (fst (LoadConfigAndIndex flt w configPath cachePath)) = shards w
      /\ logged (fst (LoadConfigAndIndex flt w configPath cachePath)) = logged w
      /\ (forall f, f <> cachePath ->
            files (fst (LoadConfigAndIndex flt w configPath cachePath)) !! f = files w !! f)
      /\ (createFails flt = true ->
            fst (LoadConfigAndIndex flt w configPath cachePath) = w)
      /\ (createFails flt = false ->
            exists (cfgs : list SpecConfig) (specs : list SpecIndex)
                   (updated : gmap string string),
              files w !! configPath ≫= json_UnmarshalConfigs = Some cfgs
              /\ Forall2 (fun cfg spec =>
                            SpecName spec = Name cfg
                            /\ filepath_Abs (cfgFile cfg) = Some (File spec)
                            /\ exists data : string,
                                 files w !! File spec = Some data
                                 /\ ContentHash spec = computeSHA data)
                         cfgs specs
              /\ (forall name : string,
                    updated !! name
                    = ContentHash
                        <$> last (filter (fun spec => SpecName spec = name) specs))
              /\ files (fst (LoadConfigAndIndex flt w configPath cachePath)) !! cachePath
                 = Some (gob_Encode updated))
  end.
Proof.
  unfold LoadConfigAndIndex.
  destruct (files w !! configPath ≫= json_UnmarshalConfigs) as [cfgs|]; [|reflexivity].
  destruct (loadSpecs w cfgs ∅ ∅) as [[registry updated]|e] eqn:El; [|reflexivity].
  cbn [fst snd]. destruct (createFails flt).
  - repeat split; discriminate.
  - cbn [shards logged files setFiles]. repeat split; [|discriminate|].
    + intros f N. now rewrite lookup_insert_ne.
    + intros _. destruct (loadSpecs_updated _ _ _ _ _ _ El) as (specs & F & L).
      exists cfgs, specs, updated. split; [reflexivity|]. split; [|split].
      * eapply Forall2_impl; [exact F|]. intros cfg spec. apply loadSpec_Ok.
      * intros name. rewrite L. destruct (last _); [reflexivity | apply lookup_empty].
      * apply lookup_insert_eq.
Qed.

End WithLib.

(** The configuration of the resolver's test, and its one entry. *)
Lemma firstServerInfo_basePath_witness :
  HasSuffix "/api" "/" = false
  /\ TrimRight "/api" "/" = "/api"
  /\ exists (r m : gmap string JSON) (sv : list JSON) (urlStr : string) (u : GoURL.URL),
       Some Sample.testSpec = Some r
       /\ r !! "servers" = Some (JArray (JObject m :: sv))
       /\ m !! "url" = Some (JString urlStr)
       /\ url_Parse (GoLib := Sample.lib) urlStr = Some u
       /\ "/api" = TrimRight (GoURL.Path u) "/".
Proof.
  apply (firstServerInfo_basePath (H := Sample.lib) (Some Sample.testSpec) "example.com" "/api").
  vm_compute. reflexivity.
Defined.

Lemma registry_entry_sound_witness :
  Host Sample.testIndex = "example.com"
  /\ HasSuffix (BasePath Sample.testIndex) "/" = false
  /\ exists (cfgs : list SpecConfig) (cfg : SpecConfig) (data : string),
       files (Sample.world Sample.testConfig) !! "/tmp/specs.json"
         ≫= json_UnmarshalConfigs (GoLib := Sample.lib) = Some cfgs
       /\ cfg ∈ cfgs
       /\ SpecName Sample.testIndex = Name cfg
       /\ filepath_Abs (GoLib := Sample.lib) (cfgFile cfg) = Some (File Sample.testIndex)
       /\ files (Sample.world Sample.testConfig) !! File Sample.testIndex = Some data
       /\ ContentHash Sample.testIndex = computeSHA (H := Sample.lib) data.
Proof.
  apply (registry_entry_sound (H := Sample.lib) noFaults (Sample.world Sample.testConfig)
           "/tmp/specs.json" "/tmp/cache/bleve" (Sample.registryOf Sample.testConfig)).
  - vm_compute. reflexivity.
  - vm_compute. reflexivity.
Defined.

End LoaderInvariants.

(** ** Document ids and extracted entries *)

Module IndexDocProps.
Import GoStrings GoStringsFacts Lib Indexing.

Lemma Split_length_pos (s : string) (sep : ascii) : (1 <= List.length (Split s sep))%nat.
Proof.
  pose proof (Split_nonempty s sep). destruct (Split s sep); [contradiction | simpl; lia].
Qed.

Lemma Split_length_app (a b : string) (sep : ascii) :
  List.length (Split (a +:+ String sep b) sep)
  = List.length (Split a sep) + List.length (Split b sep).
Proof.
  induction a as [|c a IH].
  - rewrite append_nil_l. simpl. now rewrite Ascii.eqb_refl.
  - rewrite append_cons. simpl. destruct (Ascii.eqb c sep).
    + simpl. now rewrite IH.
    + pose proof (Split_nonempty (a +:+ String sep b) sep).
      pose proof (Split_nonempty a sep).
      destruct (Split (a +:+ String sep b) sep); [contradiction|].
      destruct (Split a sep); [contradiction|]. exact IH.
Qed.

Lemma Split_length_one (s : string) (sep : ascii) :
  List.length (Split s sep) = 1 <-> free_of sep s = true.
Proof.
  split; [|intros F; now rewrite Split_free].
  induction s as [|c s IH]; [reflexivity|].
  simpl. destruct (Ascii.eqb c sep).
  - simpl. pose proof (Split_length_pos s sep). lia.
  - pose proof (Split_nonempty s sep).
    destruct (Split s sep) as [|h t] eqn:E; [contradiction|]. exact IH.
Qed.

(** The id of a document has four pieces, and one more for every
    separator its components hold. *)
Lemma Split_docID_length (specName : string) (e : OpEntry) :
  List.length (Split (docID specName e) "|")
  = List.length (Split specName "|") + List.length (Split (Method e) "|")
    + List.length (Split (Template e) "|") + List.length (Split (OperationID e) "|").
Proof.
  unfold docID. rewrite !append_cons, !append_nil_l, !Split_length_app. lia.
Qed.

(** X7. The id [specName|method|template|operationId] decodes back into
    its four components exactly when none of them holds a [|]: then the
    result [SearchBleve] builds from the hit carries them (and the tags);
    otherwise the id splits into more than four pieces and the result
    carries the tags alone, its other fields empty. *)
Theorem materialise_docID (specName : string) (e : OpEntry) :
  (free_of "|" specName && free_of "|" (Method e)
   && free_of "|" (Template e) && free_of "|" (OperationID e) = true ->
   materialise (hitOf (docID specName e) (docMap specName e))
   = mkSearchResult specName (OperationID e) (Method e) (Template e) "" (Tags e))
  /\ (free_of "|" specName && free_of "|" (Method e)
      && free_of "|" (Template e) && free_of "|" (OperationID e) = false ->
      materialise (hitOf (docID specName e) (docMap specName e))
      = mkSearchResult "" "" "" "" "" (Tags e)).
Proof.
  split.
  - rewrite !andb_true_iff. intros [[[Fs Fm] Ft] Fo].
    now apply SearchProps.materialise_hitOf.
  - intros N.
    assert (L : List.length (Split (docID specName e) "|") <> 4).
    { rewrite Split_docID_length. intros L.
      pose proof (Split_length_pos specName "|").
      pose proof (Split_length_pos (Method e) "|").
      pose proof (Split_length_pos (Template e) "|").
      pose proof (Split_length_pos (OperationID e) "|").
      rewrite (proj1 (Split_length_one specName "|")) in N by lia.
      rewrite (proj1 (Split_length_one (Method e) "|")) in N by lia.
      rewrite (proj1 (Split_length_one (Template e) "|")) in N by lia.
      rewrite (proj1 (Split_length_one (OperationID e) "|")) in N by lia.
      discriminate N. }
    unfold materialise.
    rewrite SearchProps.hitOf_Tags, SearchProps.ifaceSliceToString_stored.
    cbn [ID hitOf].
    destruct (Split (docID specName e) "|") as [|p0 [|p1 [|p2 [|p3 [|p4 l]]]]];
      try reflexivity.
    now contradiction L.
Qed.

(** The verbs [extractOperations] tests, each with the field it reads. *)
Lemma extractOperations_elem (item : PathItem) (verb : string) (op : Operation) :
  (verb, op) ∈ extractOperations item <->
  (verb, Some op) ∈
    [("GET", Get item); ("POST", Post item); ("PUT", Put item);
     ("DELETE", Delete item); ("OPTIONS", Options item); ("HEAD", Head item);
     ("PATCH", Patch item); ("TRACE", Trace item); ("CONNECT", Connect item)].
Proof.
  unfold extractOperations. rewrite list_elem_of_omap. split.
  - intros [[v [o|]] [Hin E]]; [|discriminate E].
    simpl in E. now injection E as -> ->.
  - intros Hin. exists (verb, Some op). split; [exact Hin | reflexivity].
Qed.

(** X8. The entries [extractOpEntries] returns are exactly the non-nil
    operations of the path items: each entry has one of the nine verbs in
    upper case as its method, the path it stands under as its template,
    the operation's id and tags, and as its description the operation's
    summary, or its description when the summary is empty. *)
Theorem extractOpEntries_elem (doc : list (string * PathItem)) (e : OpEntry) :
  e ∈ extractOpEntries doc <->
  exists (item : PathItem) (op : Operation),
    (Template e, item) ∈ doc
    /\ (Method e, Some op) ∈
         [("GET", Get item); ("POST", Post item); ("PUT", Put item);
          ("DELETE", Delete item); ("OPTIONS", Options item); ("HEAD", Head item);
          ("PATCH", Patch item); ("TRACE", Trace item); ("CONNECT", Connect item)]
    /\ OperationID e = opOperationID op
    /\ Tags e = opTags op
    /\ Description e = (if String.eqb (Summary op) "" then opDescription op
                        else Summary op).
Proof.
  unfold extractOpEntries. rewrite list_elem_of_In, in_flat_map. split.
  - intros [[tmpl item] [Hd He]]. apply in_map_iff in He as [[verb op] [<- Ho]].
    exists item, op. cbn [Method Template OperationID Tags Description].
    apply list_elem_of_In in Hd, Ho. apply extractOperations_elem in Ho.
    now repeat split.
  - intros (item & op & Hd & Ho & Ei & Et & Ed).
    exists (Template e, item). split; [now apply list_elem_of_In|].
    apply in_map_iff. exists (Method e, op). split.
    + destruct e. cbn in *. now subst.
    + apply list_elem_of_In, extractOperations_elem, Ho.
Qed.

End IndexDocProps.

(** ** What the sanitizer leaves behind *)

Module SanitizerPost.
Import GoStrings GoStringsFacts Lib Indexing.

Lemma isValidVerb_In (k : string) : isValidVerb k = true <-> In k validVerbs.
Proof.
  unfold isValidVerb. rewrite existsb_exists. split.
  - intros (v & Hin & E). apply String.eqb_eq in E. now subst.
  - intros Hin. exists k. split; [exact Hin | apply String.eqb_refl].
Qed.

Section WithLib.
Context `{GoLib}.

(** Once every key of [ks] has been visited, the keys still in the path
    item are verbs in lower case or [parameters]. *)
Lemma fold_sanitizeVerb_keys (ks : list string) (m : gmap string JSON) :
  (forall k, is_Some (m !! k) -> k ∈ ks \/ In k validVerbs \/ k = "parameters") ->
  forall k, is_Some (fold_left sanitizeVerb ks m !! k) ->
            In k validVerbs \/ k = "parameters".
Proof.
  revert m. induction ks as [|k0 ks IH]; intros m Hm k Hk.
  - destruct (Hm k Hk) as [Hin|Hok]; [|exact Hok]. now apply not_elem_of_nil in Hin.
  - simpl in Hk. revert k Hk. apply IH. intros k Hk. unfold sanitizeVerb in Hk.
    destruct (isValidVerb (ToLower k0)) eqn:V.
    + destruct (String.eqb_spec (ToLower k0) k0) as [E|N]; cbn [negb] in Hk.
      * destruct (decide (k = k0)) as [->|Nk].
        -- right. left. apply isValidVerb_In. now rewrite <- E.
        -- destruct (Hm k Hk) as [Hin|Hok]; [|now right].
           apply elem_of_cons in Hin as [?|Hin]; [contradiction | now left].
      * destruct (decide (k = k0)) as [->|Nk];
          [rewrite lookup_delete_eq in Hk; now destruct Hk|].
        rewrite lookup_delete_ne in Hk by congruence.
        destruct (decide (k = ToLower k0)) as [->|Nl];
          [right; left; now apply isValidVerb_In|].
        rewrite lookup_insert_ne in Hk by congruence.
        destruct (Hm k Hk) as [Hin|Hok]; [|now right].
        apply elem_of_cons in Hin as [?|Hin]; [contradiction | now left].
    + destruct (String.eqb_spec k0 "parameters") as [E|N].
      * destruct (decide (k = k0)) as [->|Nk]; [right; now right|].
        destruct (Hm k Hk) as [Hin|Hok]; [|now right].
        apply elem_of_cons in Hin as [?|Hin]; [contradiction | now left].
      * destruct (decide (k = k0)) as [->|Nk];
          [rewrite lookup_delete_eq in Hk; now destruct Hk|].
        rewrite lookup_delete_ne in Hk by congruence.
        destruct (Hm k Hk) as [Hin|Hok]; [|now right].
        apply elem_of_cons in Hin as [?|Hin]; [contradiction | now left].
Qed.

(** X9. After [sanitizePaths], every key of every path item that is an
    object is one of the nine verbs in lower case, or [parameters]; the
    templates are the same as before, and the document is unchanged
    outside [paths]. *)
Theorem sanitizePaths_keys (raw : option (gmap string JSON)) (r r' : gmap string JSON) :
  raw = Some r -> sanitizePaths raw = Some r' ->
  (forall k, k <> "paths" -> r' !! k = r !! k)
  /\ forall paths', r' !! "paths" = Some (JObject paths') ->
       exists paths,
         r !! "paths" = Some (JObject paths)
         /\ (forall tmpl, is_Some (paths' !! tmpl) <-> is_Some (paths !! tmpl))
         /\ forall tmpl item' k,
              paths' !! tmpl = Some (JObject item') -> is_Some (item' !! k) ->
              In k validVerbs \/ k = "parameters".
Proof.
  intros -> E. unfold sanitizePaths in E.
  destruct (r !! "paths") as [node|] eqn:Ep.
  2: { injection E as <-. split; [reflexivity|]. intros paths' E. congruence. }
  destruct node as [| | | | |paths];
    try (injection E as <-; split; [reflexivity|]; intros paths' E; congruence).
  injection E as <-. split; [intros k N; now rewrite lookup_insert_ne|].
  intros paths' E. rewrite lookup_insert_eq in E. injection E as <-.
  exists paths. split; [reflexivity|]. split.
  - intros tmpl. rewrite lookup_fmap. apply fmap_is_Some.
  - intros tmpl item' k E Hk. rewrite lookup_fmap in E.
    destruct (paths !! tmpl) as [node|]; [|discriminate E].
    simpl in E. destruct node as [| | | | |m]; try discriminate E.
    injection E as <-. revert k Hk. apply fold_sanitizeVerb_keys.
    intros k Hk. left. now apply SanitizerProps.elem_of_rangeKeys.
Qed.

(** Visiting a key other than [k] that does not lower-case to [lk]
    touches neither [k] nor [lk]. *)
Lemma sanitizeVerb_other (cur : gmap string JSON) (k lk k' : string) :
  (forall v, isValidVerb v = true -> ToLower v = v) ->
  ToLower k = lk -> isValidVerb lk = true ->
  k' <> k -> ToLower k' <> lk ->
  sanitizeVerb cur k' !! lk = cur !! lk /\ sanitizeVerb cur k' !! k = cur !! k.
Proof.
  intros Hfix El V Nk Nl.
  assert (N1 : k' <> lk).
  { intros ->. apply Nl. now apply Hfix. }
  unfold sanitizeVerb.
  destruct (isValidVerb (ToLower k')) eqn:V'.
  - destruct (String.eqb_spec (ToLower k') k') as [E|N]; cbn [negb]; [now split|].
    assert (N2 : ToLower k' <> k).
    { intros E. apply Nl. rewrite <- El, <- E. symmetry. apply Hfix, V'. }
    split; (rewrite lookup_delete_ne by congruence); now rewrite lookup_insert_ne.
  - destruct (String.eqb k' "parameters"); [now split|].
    split; now rewrite lookup_delete_ne by congruence.
Qed.

Lemma fold_sanitizeVerb_other (ks : list string) (cur : gmap string JSON) (k lk : string) :
  (forall v, isValidVerb v = true -> ToLower v = v) ->
  ToLower k = lk -> isValidVerb lk = true ->
  Forall (fun k' => k' <> k /\ ToLower k' <> lk) ks ->
  fold_left sanitizeVerb ks cur !! lk = cur !! lk
  /\ fold_left sanitizeVerb ks cur !! k = cur !! k.
Proof.
  intros Hfix El V F. revert cur.
  induction F as [|k' ks [Nk Nl] _ IH]; intros cur; [now split|].
  simpl. destruct (IH (sanitizeVerb cur k')) as [-> ->].
  now apply sanitizeVerb_other.
Qed.

(** X10. A verb written in any letter case ends up under its lower-case
    name with its operation: when [k] is the only key of the path item
    that lower-cases to the verb [lk], the sanitized item holds under [lk]
    what the item held under [k]. (Lower-casing is taken to leave the nine
    verbs as they are.) *)
Theorem sanitizePathItem_verb (m : gmap string JSON) (k lk : string) (op : JSON) :
  (forall v, isValidVerb v = true -> ToLower v = v) ->
  m !! k = Some op -> ToLower k = lk -> isValidVerb lk = true ->
  (forall k', is_Some (m !! k') -> ToLower k' = lk -> k' = k) ->
  exists m', sanitizePathItem (JObject m) = JObject m' /\ m' !! lk = Some op.
Proof.
  intros Hfix Ek El V Huniq. eexists. split; [reflexivity|].
  assert (Hin : k ∈ rangeKeys m) by (apply SanitizerProps.elem_of_rangeKeys; rewrite Ek; now eexists).
  assert (Hnd : NoDup (rangeKeys m)) by (unfold rangeKeys; apply NoDup_fst_map_to_list).
  apply list_elem_of_split in Hin as (pre & post & Eks). rewrite Eks in Hnd |- *.
  apply NoDup_app in Hnd as (_ & Hpre & Hpost). apply NoDup_cons in Hpost as [Hpost _].
  assert (Hother : forall k', k' ∈ pre ++ post -> k' <> k /\ ToLower k' <> lk).
  { intros k' Hk'.
    assert (Nk : k' <> k).
    { intros ->. apply elem_of_app in Hk' as [Hk'|Hk'];
        [apply (Hpre k Hk'); now left | contradiction]. }
    split; [exact Nk|]. intros E. apply Nk, Huniq; [|exact E].
    apply SanitizerProps.elem_of_rangeKeys. rewrite Eks.
    apply elem_of_app in Hk' as [Hk'|Hk']; apply elem_of_app;
      [now left | right; now right]. }
  rewrite fold_left_app. cbn [fold_left].
  destruct (fold_sanitizeVerb_other pre m k lk Hfix El V) as [_ Ek1].
  { apply Forall_forall. intros k' Hk'. apply Hother, elem_of_app. now left. }
  destruct (fold_sanitizeVerb_other post
              (sanitizeVerb (fold_left sanitizeVerb pre m) k) k lk Hfix El V) as [-> _].
  { apply Forall_forall. intros k' Hk'. apply Hother, elem_of_app. now right. }
  set (cur := fold_left sanitizeVerb pre m) in *.
  unfold sanitizeVerb. rewrite El, V, Ek1, Ek. cbn [default].
  destruct (String.eqb_spec lk k) as [->|N]; cbn [negb].
  - now rewrite Ek1.
  - rewrite lookup_delete_ne by congruence. apply lookup_insert_eq.
Qed.

(** The loop of [sanitizeComponents] removes no key and adds, for every
    key it visits, the title-cased key. *)
Lemma titleCase_keeps (schemas schemas' : gmap string JSON) (k x : string) :
  titleCase schemas k = Done schemas' ->
  is_Some (schemas !! x) -> is_Some (schemas' !! x).
Proof.
  unfold titleCase. destruct k as [|k0 k1]; [discriminate|].
  destruct (negb _); intros [= <-] Hx; [|exact Hx].
  destruct (decide (x = ToUpper (runeString k0) +:+ k1)) as [->|N];
    [rewrite lookup_insert_eq; now eexists | now rewrite lookup_insert_ne].
Qed.

(** What one turn of the loop leaves behind at a key that is in the map:
    the key has its title in the map, and every value of the map was
    there before, under the same key or under the key visited. *)
Lemma titleCase_step (schemas schemas' : gmap string JSON) (k : string) :
  is_Some (schemas !! k) ->
  titleCase schemas k = Done schemas' ->
  is_Some (schemas' !! titleOf k)
  /\ forall x v, schemas' !! x = Some v ->
       schemas !! x = Some v \/ (x = titleOf k /\ schemas !! k = Some v).
Proof.
  intros [v0 Ek]. unfold titleCase. destruct k as [|k0 k1]; [discriminate|].
  cbn [titleOf]. rewrite Ek. cbn [default from_option]. unfold Datatypes.id.
  destruct (String.eqb_spec (ToUpper (runeString k0) +:+ k1) (String k0 k1)) as [Et|Nt];
    cbn [negb]; intros [= <-].
  - rewrite Et, Ek. split; [now eexists | intros x v Hx; now left].
  - split; [rewrite lookup_insert_eq; now eexists|].
    intros x v Hx.
    destruct (decide (x = ToUpper (runeString k0) +:+ k1)) as [->|N].
    + rewrite lookup_insert_eq in Hx. injection Hx as <-. now right.
    + rewrite lookup_insert_ne in Hx by congruence. now left.
Qed.

(** A run of the loop from the map [cur]: no key is removed, every key
    visited has its title in the map, and every value is that of a key of
    [cur] from which the key it stands under comes by title-casing, zero
    or more times. *)
Lemma titleCaseAll_run (ks : list string) (cur cur' : gmap string JSON) :
  visitable ks cur = true ->
  titleCaseAll ks cur = Done cur' ->
  (forall k, is_Some (cur !! k) -> is_Some (cur' !! k))
  /\ (forall k, k ∈ ks -> is_Some (cur' !! titleOf k))
  /\ (forall k v, cur' !! k = Some v ->
        exists (k0 : string) (n : nat),
          cur !! k0 = Some v /\ k = Nat.iter n titleOf k0).
Proof.
  revert cur. induction ks as [|k ks IH]; intros cur V E; simpl in V, E.
  - injection E as <-. repeat split; [auto|..].
    + intros k Hin. now apply not_elem_of_nil in Hin.
    + intros k v Hk. now exists k, 0%nat.
  - apply andb_true_iff in V as [Vk V]. apply bool_decide_eq_true in Vk.
    destruct (titleCase cur k) as [cur1|msg] eqn:Et; [|discriminate E].
    destruct (IH cur1 V E) as (IHkeep & IHtitle & IHfrom).
    destruct (titleCase_step _ _ _ Vk Et) as [Ht Hfrom].
    repeat split.
    + intros x Hx. apply IHkeep. now apply (titleCase_keeps _ _ _ _ Et).
    + intros x Hin. apply elem_of_cons in Hin as [->|Hin];
        [apply IHkeep, Ht | now apply IHtitle].
    + intros x v Hx. destruct (IHfrom x v Hx) as (k0 & n & E0 & ->).
      destruct (Hfrom k0 v E0) as [E1|[-> E1]].
      * now exists k0, n.
      * exists k, (S n). split; [exact E1|]. symmetry. apply Nat.iter_succ_r.
Qed.

Lemma visitable_present (ks : list string) (cur : gmap string JSON) :
  (forall k, k ∈ ks -> is_Some (cur !! k)) -> visitable ks cur = true.
Proof.
  revert cur. induction ks as [|k ks IH]; intros cur Hp; [reflexivity|].
  simpl. apply andb_true_iff. split.
  - apply bool_decide_eq_true, Hp. now left.
  - destruct (titleCase cur k) as [cur1|msg] eqn:Et; [|reflexivity].
    apply IH. intros x Hx. apply (titleCase_keeps _ _ _ _ Et), Hp. now right.
Qed.

(** The run [sanitizeComponents] stands for is one of the runs of the
    loop. *)
Lemma sanitizeComponents_is_run (raw : option (gmap string JSON))
    (schemas : gmap string JSON) :
  schemasOf raw = Some schemas ->
  visits (rangeKeys schemas) schemas = true
  /\ sanitizeComponents raw = sanitizeComponentsOn (rangeKeys schemas) raw.
Proof.
  intros Es. split.
  - unfold visits. rewrite !andb_true_iff. repeat split.
    + apply bool_decide_eq_true. unfold rangeKeys. apply NoDup_fst_map_to_list.
    + apply forallb_forall. intros k Hin. apply bool_decide_eq_true.
      now apply list_elem_of_In.
    + apply visitable_present. intros k Hin.
      now apply SanitizerProps.elem_of_rangeKeys.
  - unfold sanitizeComponents, sanitizeComponentsOn.
    destruct raw as [r|]; [|reflexivity]. now rewrite Es.
Qed.

(** Whether the loop panics does not depend on the run: where upper-casing
    gives no empty string, no key the loop inserts is empty, so every run
    ends exactly when no key present at the start is empty. *)
Lemma sanitizeComponentsOn_total (ks : list string) (raw : option (gmap string JSON))
    (schemas : gmap string JSON) :
  (forall s, s <> "" -> ToUpper s <> "") ->
  schemasOf raw = Some schemas ->
  visits ks schemas = true ->
  (exists raw', sanitizeComponentsOn ks raw = Done raw') <-> schemas !! "" = None.
Proof.
  intros Hup Es V. unfold sanitizeComponentsOn.
  destruct raw as [r|]; [|discriminate Es]. rewrite Es.
  unfold visits in V. rewrite !andb_true_iff in V. destruct V as [[_ Vall] Vp].
  split.
  - intros [raw' E]. destruct (schemas !! "") as [v|] eqn:E0; [|reflexivity].
    exfalso. destruct (SanitizerProps.titleCaseAll_Panic ks schemas) as [msg Ep].
    + rewrite forallb_forall in Vall.
      apply (bool_decide_eq_true ("" ∈ ks)), Vall, list_elem_of_In.
      apply SanitizerProps.elem_of_rangeKeys. rewrite E0. now eexists.
    + rewrite Ep in E. discriminate E.
  - intros N.
    assert (G : forall cur, cur !! "" = None -> visitable ks cur = true ->
                exists cur', titleCaseAll ks cur = Done cur').
    { clear Vp Vall. induction ks as [|k ks IH]; intros cur N0 Vc; [now eexists|].
      simpl in Vc |- *. apply andb_true_iff in Vc as [Vk Vc].
      apply bool_decide_eq_true in Vk.
      destruct k as [|k0 k1]; [rewrite N0 in Vk; now destruct Vk|].
      unfold titleCase in Vc |- *.
      destruct (negb _); [|now apply IH].
      apply IH; [|exact Vc]. rewrite lookup_insert_ne; [exact N0|].
      intros Et. apply (Hup (runeString k0)).
      - unfold runeString. now destruct (N.ltb _ _).
      - destruct (ToUpper (runeString k0)); [reflexivity | discriminate Et]. }
    destruct (G schemas N Vp) as [cur' ->]. now eexists.
Qed.

(** X11. On every run of its loop, visited keys that the loop itself has
    inserted included, [sanitizeComponents] removes no schema: every key
    of [components.schemas] is still there afterwards, and so is its
    title-cased form. Every schema of the result is the definition of an
    initial schema whose key gives the key it stands under by title-casing
    zero or more times; so a key that comes from no initial key but itself
    has its definition unchanged, or is still absent. The document is
    unchanged outside [components]. *)
Theorem sanitizeComponents_keys (ks : list string) (raw raw' : option (gmap string JSON))
    (schemas : gmap string JSON) :
  schemasOf raw = Some schemas ->
  visits ks schemas = true ->
  sanitizeComponentsOn ks raw = Done raw' ->
  exists (r r' schemas' : gmap string JSON),
    raw = Some r /\ raw' = Some r'
    /\ schemasOf raw' = Some schemas'
    /\ (forall k, k <> "components" -> r' !! k = r !! k)
    /\ (forall k, is_Some (schemas !! k) -> is_Some (schemas' !! k))
    /\ (forall k, is_Some (schemas !! k) -> is_Some (schemas' !! titleOf k))
    /\ (forall k v, schemas' !! k = Some v ->
          exists (k0 : string) (n : nat),
            schemas !! k0 = Some v /\ k = Nat.iter n titleOf k0)
    /\ (forall k, (forall k0 n, is_Some (schemas !! k0) ->
                     Nat.iter n titleOf k0 = k -> k0 = k) ->
          schemas' !! k = schemas !! k).
Proof.
  intros Es V E. unfold sanitizeComponentsOn in E.
  destruct raw as [r|]; [|discriminate Es]. rewrite Es in E.
  destruct (titleCaseAll ks schemas) as [schemas'|msg] eqn:Et; [|discriminate E].
  injection E as <-.
  unfold visits in V. rewrite !andb_true_iff in V. destruct V as [[_ Vall] Vp].
  destruct (titleCaseAll_run _ _ _ Vp Et) as (Hkeep & Htitle & Hfrom).
  eexists r, _, schemas'. split; [reflexivity|]. split; [reflexivity|]. split.
  { unfold schemasOf. now rewrite lookup_insert_eq, lookup_insert_eq. }
  split; [intros k N; now rewrite lookup_insert_ne|].
  split; [exact Hkeep|]. split; [|split; [exact Hfrom|]].
  - intros k Hs. apply Htitle.
    rewrite forallb_forall in Vall.
    apply (bool_decide_eq_true (k ∈ ks)), Vall, list_elem_of_In.
    now apply SanitizerProps.elem_of_rangeKeys.
  - intros k Hk. destruct (schemas' !! k) as [v|] eqn:E'.
    + destruct (Hfrom k v E') as (k0 & n & E0 & En).
      assert (k0 = k) as -> by (apply (Hk k0 n); [rewrite E0; now eexists | now symmetry]).
      now rewrite E0.
    + destruct (schemas !! k) as [v|] eqn:E0; [|reflexivity].
      destruct (Hkeep k) as [v' Hv']; [rewrite E0; now eexists|]. congruence.
Qed.



End WithLib.

Lemma sanitizePaths_keys_witness :
  let r := Sample.testSpec in
  let r' := default ∅ (sanitizePaths (H := Sample.lib) (Some Sample.testSpec)) in
  (forall k, k <> "paths" -> r' !! k = r !! k)
  /\ forall paths', r' !! "paths" = Some (JObject paths') ->
       exists paths,
         r !! "paths" = Some (JObject paths)
         /\ (forall tmpl, is_Some (paths' !! tmpl) <-> is_Some (paths !! tmpl))
         /\ forall tmpl item' k,
              paths' !! tmpl = Some (JObject item') -> is_Some (item' !! k) ->
              In k validVerbs \/ k = "parameters".
Proof.
  apply (sanitizePaths_keys (H := Sample.lib) (Some Sample.testSpec)).
  - reflexivity.
  - vm_compute. reflexivity.
Defined.

Lemma sanitizePathItem_verb_witness :
  exists m',
    sanitizePathItem (H := Sample.lib)
      (JObject (<["GET" := JString "op"]> (<["x-hidden" := JNull]> ∅)))
    = JObject m'
    /\ m' !! "get" = Some (JString "op").
Proof.
  apply (sanitizePathItem_verb (H := Sample.lib)
           (<["GET" := JString "op"]> (<["x-hidden" := JNull]> ∅)) "GET" "get"
           (JString "op")).
  - intros v Hv. apply isValidVerb_In in Hv. simpl in Hv.
    repeat (destruct Hv as [<-|Hv]; [reflexivity|]). contradiction.
  - apply lookup_insert_eq.
  - reflexivity.
  - reflexivity.
  - intros k' Hk' El.
    apply lookup_insert_is_Some in Hk' as [E|[_ Hk']]; [now symmetry|].
    apply lookup_insert_is_Some in Hk' as [<-|[_ Hk']]; [discriminate El|].
    rewrite lookup_empty in Hk'. now destruct Hk'.
Defined.

(** A key whose first byte is not ASCII, on the run that also visits the
    key inserted for it, which inserts a third one. *)
Lemma sanitizeComponents_keys_witness :
  let k : string := String (ascii_of_N 195) (String (ascii_of_N 169) "clair") in
  let ks : list string := [k; titleOf (H := Sample.lib) k] in
  let schemas : gmap string JSON := {[k := JObject ∅]} in
  let raw : option (gmap string JSON) :=
    Some {["components" := JObject {["schemas" := JObject schemas]}]} in
  let raw' : option (gmap string JSON) :=
    Some {["components" :=
             JObject {["schemas" :=
                         JObject {[k := JObject ∅;
                                   titleOf (H := Sample.lib) k := JObject ∅;
                                   titleOf (H := Sample.lib)
                                     (titleOf (H := Sample.lib) k) := JObject ∅]}]}]} in
  exists (r r' schemas' : gmap string JSON),
    raw = Some r /\ raw' = Some r'
    /\ schemasOf raw' = Some schemas'
    /\ (forall k, k <> "components" -> r' !! k = r !! k)
    /\ (forall k, is_Some (schemas !! k) -> is_Some (schemas' !! k))
    /\ (forall k, is_Some (schemas !! k) ->
          is_Some (schemas' !! titleOf (H := Sample.lib) k))
    /\ (forall k v, schemas' !! k = Some v ->
          exists (k0 : string) (n : nat),
            schemas !! k0 = Some v /\ k = Nat.iter n (titleOf (H := Sample.lib)) k0)
    /\ (forall k, (forall k0 n, is_Some (schemas !! k0) ->
                     Nat.iter n (titleOf (H := Sample.lib)) k0 = k -> k0 = k) ->
          schemas' !! k = schemas !! k).
Proof.
  apply (sanitizeComponents_keys (H := Sample.lib)
           [String (ascii_of_N 195) (String (ascii_of_N 169) "clair");
            titleOf (H := Sample.lib)
              (String (ascii_of_N 195) (String (ascii_of_N 169) "clair"))]).
  - vm_compute. reflexivity.
  - vm_compute. reflexivity.
  - vm_compute. reflexivity.
Defined.

End SanitizerPost.

(** ** What a build leaves behind *)

Module ShardPost.
Import GoStrings GoStringsFacts Lib Indexing.

Section WithLib.
Context `{GoLib}.

(** The shard after the loop of [indexSpecOnDisk] has run to its end:
    under each id, the document of the last entry with that id. *)
Lemma indexEntries_Ok (flt : Faults) (specName : string) (es : list OpEntry) (n : nat)
    (shard shard' : Shard) (id : string) :
  indexEntries flt specName es n shard = (shard', Ok tt) ->
  shard' !! id =
  match last (filter (fun e => docID specName e = id) es) with
  | Some e => Some (docMap specName e)
  | None => shard !! id
  end.
Proof.
  revert n shard. induction es as [|e es IH]; intros n shard E; simpl in E.
  - now injection E as <-.
  - destruct (decide (indexFailsAt flt = Some n)); [discriminate E|].
    rewrite (IH _ _ E), filter_cons. unfold Shard in *.
    destruct (decide (docID specName e = id)) as [Ei|N].
    + rewrite last_cons. destruct (last (filter _ es)); [reflexivity|].
      rewrite <- Ei. apply lookup_insert_eq.
    + destruct (last (filter _ es)); [reflexivity|]. now apply lookup_insert_ne.
Qed.

(** X13. A rebuild that returns an index leaves the hash sibling equal to
    the content hash of the spec, and in the shard exactly the documents
    of the operations extracted from the sanitized spec file: under each
    id the document of the last entry with that id, and nothing of an
    earlier build. *)
Theorem rebuild_post (flt : Faults) (w : World) (baseDir : string) (spec : SpecIndex)
    (idx : string) :
  needRebuild w baseDir spec = true ->
  snd (BuildOrOpenSpecIndex flt w baseDir spec) = Done (Ok idx) ->
  files (fst (BuildOrOpenSpecIndex flt w baseDir spec)) !! hashFile baseDir spec
  = Some (ContentHash spec)
  /\ exists (data : string) (raw1 raw2 : option (gmap string JSON))
            (doc : list (string * PathItem)) (shard : Shard),
       files w !! File spec = Some data
       /\ sanitizeComponents
            (sanitizePaths (match json_Unmarshal data with Ok r => r | Err _ => None end))
          = Done raw1
       /\ injectMissingSchemas raw1 = Done raw2
       /\ openapi3_Load raw2 = Some doc
       /\ shards (fst (BuildOrOpenSpecIndex flt w baseDir spec)) !! shardDir baseDir spec
          = Some shard
       /\ forall id : string,
            shard !! id
            = docMap (SpecName spec)
                <$> last (filter (fun e => docID (SpecName spec) e = id)
                            (extractOpEntries doc)).
Proof.
  intros N. unfold BuildOrOpenSpecIndex. rewrite N.
  destruct (mkdirAllFails flt); [discriminate|].
  set (w1 := if removeAllFails flt then _ else _).
  assert (F1 : files w1 = files w) by (subst w1; now destruct (removeAllFails flt)).
  destruct (newUsingFails flt || _); [discriminate|].
  set (w2 := setShards w1 _).
  unfold indexSpecOnDisk.
  assert (F2 : files w2 = files w) by exact F1. rewrite F2.
  destruct (files w !! File spec) as [data|] eqn:Ed; [|discriminate].
  destruct (sanitizeComponents _) as [raw1|msg] eqn:E1; [|discriminate].
  destruct (injectMissingSchemas raw1) as [raw2|msg] eqn:E2; [|discriminate].
  destruct (openapi3_Load raw2) as [doc|] eqn:E3; [|discriminate].
  destruct (indexEntries _ _ _ _ _) as [shard [[]|e]] eqn:Ei; [|discriminate].
  destruct (writeFileFails flt); [discriminate|].
  cbn [fst snd]. intros _. split.
  { cbn [files setFiles]. apply lookup_insert_eq. }
  exists data, raw1, raw2, doc, shard. repeat split; try assumption.
  { cbn [shards setFiles setShards]. apply lookup_insert_eq. }
  intros id. rewrite (indexEntries_Ok _ _ _ _ _ _ id Ei).
  destruct (last _); [reflexivity|].
  subst w2. cbn [shards setShards]. rewrite lookup_insert_eq. cbn [default from_option].
  unfold Shard, Datatypes.id. apply lookup_empty.
Qed.

(** X14. A call that returns no index writes no hash sibling. After a
    rebuild that failed past the creation of the index (the spec file
    could not be read, a document could not be indexed, the hash could not
    be written), the shard directory exists, so the next call rebuilds
    exactly when the old hash sibling differs from the content hash: a
    failed rebuild started for a missing directory alone is not taken up
    again. *)
Theorem rebuild_failure (flt : Faults) (w : World) (baseDir : string) (spec : SpecIndex) :
  (forall idx, snd (BuildOrOpenSpecIndex flt w baseDir spec) <> Done (Ok idx)) ->
  files (fst (BuildOrOpenSpecIndex flt w baseDir spec)) = files w
  /\ forall e : BuildError,
       snd (BuildOrOpenSpecIndex flt w baseDir spec) = Done (Err e) ->
       e = ErrReadSpecFile \/ e = ErrIndexDoc \/ e = ErrWriteHash ->
       is_Some (shards (fst (BuildOrOpenSpecIndex flt w baseDir spec))
                  !! shardDir baseDir spec)
       /\ (needRebuild (fst (BuildOrOpenSpecIndex flt w baseDir spec)) baseDir spec = true
           <-> prevHash w baseDir spec <> ContentHash spec).
Proof.
  intros Hno.
  assert (Hf : files (fst (BuildOrOpenSpecIndex flt w baseDir spec)) = files w).
  { revert Hno. unfold BuildOrOpenSpecIndex.
    destruct (mkdirAllFails flt); [reflexivity|].
    destruct (needRebuild w baseDir spec); [|destruct (openFails flt); reflexivity].
    set (w1 := if removeAllFails flt then _ else _).
    assert (F1 : files w1 = files w) by (subst w1; now destruct (removeAllFails flt)).
    destruct (newUsingFails flt || _); [intros _; exact F1|].
    set (w2 := setShards w1 _).
    pose proof (ShardProps.indexSpecOnDisk_frame flt w2 (shardDir baseDir spec) spec)
      as (If & _).
    destruct (indexSpecOnDisk flt w2 (shardDir baseDir spec) spec) as [w3 [[[]|e]|msg]];
      cbn [fst] in If |- *; try (intros _; now rewrite If).
    destruct (writeFileFails flt); cbn [fst snd]; [intros _; now rewrite If|].
    intros Hno. now contradiction (Hno (shardDir baseDir spec)). }
  split; [exact Hf|]. intros e Ee He.
  assert (Hs : is_Some (shards (fst (BuildOrOpenSpecIndex flt w baseDir spec))
                          !! shardDir baseDir spec)).
  { revert Ee. unfold BuildOrOpenSpecIndex.
    destruct (mkdirAllFails flt);
      [intros [= <-]; destruct He as [?|[?|?]]; discriminate|].
    destruct (needRebuild w baseDir spec) eqn:N.
    2: { destruct (openFails flt); intros [= <-]; destruct He as [?|[?|?]]; discriminate. }
    set (w1 := if removeAllFails flt then _ else _).
    destruct (newUsingFails flt || _);
      [intros [= <-]; destruct He as [?|[?|?]]; discriminate|].
    set (w2 := setShards w1 _).
    pose proof (ShardProps.indexSpecOnDisk_frame flt w2 (shardDir baseDir spec) spec)
      as (_ & _ & _ & Is).
    assert (S2 : is_Some (shards w2 !! shardDir baseDir spec)).
    { subst w2. cbn [shards setShards]. rewrite lookup_insert_eq. now eexists. }
    specialize (Is S2).
    destruct (indexSpecOnDisk flt w2 (shardDir baseDir spec) spec) as [w3 [[[]|e']|msg]];
      cbn [fst snd] in Is |- *; try (intros _; exact Is).
    destruct (writeFileFails flt); cbn [fst snd]; intros _; exact Is. }
  split; [exact Hs|].
  rewrite ShardProps.needRebuild_iff. unfold prevHash. rewrite Hf. split.
  - intros [P|S]; [exact P|]. rewrite S in Hs. now destruct Hs.
  - intros P. now left.
Qed.

(** A call that returns an index removes no shard that was there. *)
Lemma BuildOrOpenSpecIndex_Ok_keeps (flt : Faults) (w : World) (baseDir : string)
    (spec : SpecIndex) (idx d : string) :
  snd (BuildOrOpenSpecIndex flt w baseDir spec) = Done (Ok idx) ->
  is_Some (shards w !! d) ->
  is_Some (shards (fst (BuildOrOpenSpecIndex flt w baseDir spec)) !! d).
Proof.
  intros E S. destruct (decide (d = shardDir baseDir spec)) as [->|N].
  - apply ShardProps.BuildOrOpenSpecIndex_Ok_fresh in E as [_ F].
    now apply ShardProps.needRebuild_false_iff in F.
  - destruct (ShardProps.BuildOrOpenSpecIndex_frame flt w baseDir spec) as [_ Fs].
    now rewrite (Fs d N).
Qed.

Lemma buildAll_Ok (flt : Faults) (baseDir : string) (specs : list SpecIndex)
    (w : World) (alias alias' : list string) :
  snd (buildAll flt w baseDir specs alias None) = Done (alias', None) ->
  Forall (fun d => is_Some (shards w !! d)) alias ->
  alias' = alias ++ map (shardDir baseDir) specs
  /\ Forall (fun d => is_Some (shards (fst (buildAll flt w baseDir specs alias None)) !! d))
            alias'.
Proof.
  revert w alias. induction specs as [|spec specs IH]; intros w alias E F; simpl in E |- *.
  - injection E as <-. now rewrite app_nil_r.
  - pose proof (ShardProps.BuildOrOpenSpecIndex_Ok_fresh flt w baseDir spec) as Fr.
    pose proof (fun idx d => BuildOrOpenSpecIndex_Ok_keeps flt w baseDir spec idx d) as Kp.
    destruct (BuildOrOpenSpecIndex flt w baseDir spec) as [w1 [[idx|e]|msg]];
      cbn [fst snd] in Fr, Kp; [| |discriminate E].
    + destruct (Fr idx eq_refl) as [-> N].
      destruct (IH w1 (alias ++ [shardDir baseDir spec]) E) as [-> Fa].
      { apply Forall_app. split.
        - eapply Forall_impl; [exact F|]. intros d. now apply (Kp (shardDir baseDir spec)).
        - constructor; [|constructor]. now apply ShardProps.needRebuild_false_iff in N. }
      split; [now rewrite <- app_assoc | exact Fa].
    + exfalso. exact (ShardProps.buildAll_error_stays _ _ _ _ _ _ _ E).
Qed.

(** X15. When [BuildShardedIndices] returns without an error, the alias
    holds one shard for every spec of the registry, and each of these
    shard directories exists. *)
Theorem BuildShardedIndices_alias (flt : Faults) (w : World) (baseDir : string)
    (reg : Registry) (alias : list string) :
  snd (BuildShardedIndices flt w baseDir reg) = Done (alias, None) ->
  alias = map (shardDir baseDir) (map snd (map_to_list reg))
  /\ Forall (fun d => is_Some (shards (fst (BuildShardedIndices flt w baseDir reg)) !! d))
            alias.
Proof.
  unfold BuildShardedIndices. intros E.
  destruct (buildAll_Ok _ _ _ _ _ _ E) as [-> F]; [constructor|]. now split.
Qed.

End WithLib.

Lemma rebuild_post_witness :
  let w := Sample.world Sample.testConfig in
  let spec := Sample.testIndex in
  let res := BuildOrOpenSpecIndex (H := Sample.lib) noFaults w "/tmp/cache" spec in
  files (fst res) !! hashFile (H := Sample.lib) "/tmp/cache" spec = Some (ContentHash spec)
  /\ exists (data : string) (raw1 raw2 : option (gmap string JSON))
            (doc : list (string * PathItem)) (shard : Shard),
       files w !! File spec = Some data
       /\ sanitizeComponents (H := Sample.lib)
            (sanitizePaths (H := Sample.lib)
               (match json_Unmarshal (GoLib := Sample.lib) data with
                | Ok r => r
                | Err _ => None
                end))
          = Done raw1
       /\ injectMissingSchemas raw1 = Done raw2
       /\ openapi3_Load (GoLib := Sample.lib) raw2 = Some doc
       /\ shards (fst res) !! shardDir (H := Sample.lib) "/tmp/cache" spec = Some shard
       /\ forall id : string,
            shard !! id
            = docMap (SpecName spec)
                <$> last (filter (fun e => docID (SpecName spec) e = id)
                            (extractOpEntries doc)).
Proof.
  apply (rebuild_post (H := Sample.lib) noFaults (Sample.world Sample.testConfig)
           "/tmp/cache" Sample.testIndex "/tmp/cache/test-spec.bleve").
  - vm_compute. reflexivity.
  - vm_compute. reflexivity.
Defined.

Lemma rebuild_failure_witness :
  let flt := mkFaults false false false false None true false in
  let w := Sample.world Sample.testConfig in
  let spec := Sample.testIndex in
  let res := BuildOrOpenSpecIndex (H := Sample.lib) flt w "/tmp/cache" spec in
  files (fst res) = files w
  /\ forall e : BuildError,
       snd res = Done (Err e) ->
       e = ErrReadSpecFile \/ e = ErrIndexDoc \/ e = ErrWriteHash ->
       is_Some (shards (fst res) !! shardDir (H := Sample.lib) "/tmp/cache" spec)
       /\ (needRebuild (H := Sample.lib) (fst res) "/tmp/cache" spec = true
           <-> prevHash (H := Sample.lib) w "/tmp/cache" spec <> ContentHash spec).
Proof.
  apply (rebuild_failure (H := Sample.lib)
           (mkFaults false false false false None true false)
           (Sample.world Sample.testConfig) "/tmp/cache" Sample.testIndex).
  intros idx. vm_compute. discriminate.
Defined.

Lemma BuildShardedIndices_alias_witness :
  let w := fst (LoadConfigAndIndex (H := Sample.lib) noFaults
                  (Sample.world Sample.testConfig) "/tmp/specs.json" "/tmp/cache/bleve") in
  let reg := Sample.registryOf Sample.testConfig in
  let alias := ["/tmp/cache/test-spec.bleve"] in
  alias = map (shardDir (H := Sample.lib) "/tmp/cache") (map snd (map_to_list reg))
  /\ Forall (fun d =>
               is_Some (shards (fst (BuildShardedIndices (H := Sample.lib) noFaults w
                                       "/tmp/cache" reg)) !! d))
            alias.
Proof.
  apply (BuildShardedIndices_alias (H := Sample.lib) noFaults).
  vm_compute. reflexivity.
Defined.

End ShardPost.

(** ** The fields of the parsed request *)

Module ParserInvariants.
Import GoStrings GoStringsFacts Lib Parser.

Section WithLib.
Context `{GoLib}.

(** The lines [ParseLog] has gone through when it returns. *)
Lemma ParseLog_fold (r : Reader) :
  let st := fold_left processLine
              (match ending r with
               | EOF => allLines (content r)
               | ReadFails _ => fst (readLines (content r))
               end) initial in
  Params (fst (ParseLog r)) = Params (pr st)
  /\ Headers (fst (ParseLog r)) = Headers (pr st).
Proof.
  destruct r as [s [|e]]; unfold ParseLog; cbn [ending content].
  - rewrite ParserProps.consume_fold. destruct (_ || _); now split.
  - now split.
Qed.

Lemma Params_addHeaderLine (p : ParsedRequest) (text : string) :
  Params (addHeaderLine p text) = Params p.
Proof.
  unfold addHeaderLine.
  destruct (SplitN text "=" 2) as [|k [|v [|x l]]]; reflexivity.
Qed.

Lemma processLine_Params (st : Loop) (line : string) :
  Params (pr (processLine st line)) =
  if HasPrefix (TrimSpace line) "Request URI:"
  then match url_Parse (TrimSpace (TrimPrefix (TrimSpace line) "Request URI:")) with
       | Some u => url_Query u
       | None => Params (pr st)
       end
  else Params (pr st).
Proof.
  unfold processLine.
  destruct (HasPrefix (TrimSpace line) "Request method:") eqn:M.
  { rewrite (ParserProps.method_not_uri _ M). reflexivity. }
  destruct (HasPrefix (TrimSpace line) "Request URI:").
  { simpl. destruct (url_Parse _); reflexivity. }
  destruct (HasPrefix (TrimSpace line) "Headers:").
  { simpl. destruct (_ && _); [apply Params_addHeaderLine | reflexivity]. }
  destruct (HasPrefix (TrimSpace line) "Body:"); [reflexivity|].
  destruct (state st); [reflexivity| |].
  - destruct (String.eqb _ _); [reflexivity | apply Params_addHeaderLine].
  - destruct (_ || _); reflexivity.
Qed.

(** X16. The [Params] of the request [ParseLog] returns are the query of
    the last [Request URI:] line whose value [url.Parse] accepts, among
    the lines it has gone through, and empty when there is none: no other
    line touches them, and a later [Request URI:] line that does not parse
    replaces the [URI] and leaves them as they are. *)
Theorem ParseLog_Params (r : Reader) :
  Params (fst (ParseLog r)) =
  fold_left (fun acc line =>
               let trim := TrimSpace line in
               if HasPrefix trim "Request URI:"
               then match url_Parse (TrimSpace (TrimPrefix trim "Request URI:")) with
                    | Some u => url_Query u
                    | None => acc
                    end
               else acc)
            (match ending r with
             | EOF => allLines (content r)
             | ReadFails _ => fst (readLines (content r))
             end) ∅.
Proof.
  destruct (ParseLog_fold r) as [-> _].
  generalize (match ending r with
              | EOF => allLines (content r)
              | ReadFails _ => fst (readLines (content r))
              end).
  intros lines. change ∅ with (Params (pr initial)) at 1.
  generalize initial. induction lines as [|l lines IH]; intros st; [reflexivity|].
  simpl. rewrite IH, processLine_Params. reflexivity.
Qed.

Lemma headers_addHeaderLine (p : ParsedRequest) (text : string) :
  (forall k vs, Headers p !! k = Some vs ->
     vs <> []
     /\ (exists k0, k = CanonicalMIMEHeaderKey (CanonicalMIMEHeaderKey (TrimSpace k0)))
     /\ Forall (fun v => exists raw, v = TrimSpace raw) vs) ->
  forall k vs, Headers (addHeaderLine p text) !! k = Some vs ->
    vs <> []
    /\ (exists k0, k = CanonicalMIMEHeaderKey (CanonicalMIMEHeaderKey (TrimSpace k0)))
    /\ Forall (fun v => exists raw, v = TrimSpace raw) vs.
Proof.
  intros Hp. unfold addHeaderLine.
  destruct (SplitN text "=" 2) as [|k [|v [|x l]]]; try exact Hp.
  cbn [Headers setHeaders]. unfold MIMEHeader_Add. intros k' vs L.
  destruct (decide (CanonicalMIMEHeaderKey (CanonicalMIMEHeaderKey (TrimSpace k)) = k'))
    as [<-|N].
  - rewrite lookup_insert_eq in L. injection L as <-. split; [|split].
    + now destruct (default [] _).
    + now exists k.
    + apply Forall_app. split.
      * destruct (Headers p !! _) as [old|] eqn:Eo; [|constructor].
        now destruct (Hp _ _ Eo) as (_ & _ & F).
      * constructor; [now exists v | constructor].
  - rewrite lookup_insert_ne in L by exact N. now apply Hp.
Qed.

Lemma headers_processLine (st : Loop) (line : string) :
  (forall k vs, Headers (pr st) !! k = Some vs ->
     vs <> []
     /\ (exists k0, k = CanonicalMIMEHeaderKey (CanonicalMIMEHeaderKey (TrimSpace k0)))
     /\ Forall (fun v => exists raw, v = TrimSpace raw) vs) ->
  forall k vs, Headers (pr (processLine st line)) !! k = Some vs ->
    vs <> []
    /\ (exists k0, k = CanonicalMIMEHeaderKey (CanonicalMIMEHeaderKey (TrimSpace k0)))
    /\ Forall (fun v => exists raw, v = TrimSpace raw) vs.
Proof.
  intros Hp. unfold processLine.
  destruct (HasPrefix (TrimSpace line) "Request method:"); [exact Hp|].
  destruct (HasPrefix (TrimSpace line) "Request URI:").
  { simpl. destruct (url_Parse _); exact Hp. }
  destruct (HasPrefix (TrimSpace line) "Headers:").
  { simpl. destruct (_ && _); [now apply headers_addHeaderLine | exact Hp]. }
  destruct (HasPrefix (TrimSpace line) "Body:"); [exact Hp|].
  destruct (state st); [exact Hp| |].
  - destruct (String.eqb _ _); [exact Hp | now apply headers_addHeaderLine].
  - destruct (_ || _); exact Hp.
Qed.

(** X17. In the request [ParseLog] returns, with or without an error, no
    header has an empty list of values; every key has gone through
    [textproto.CanonicalMIMEHeaderKey] twice, once in [ParseLog] and once
    in [Add]; and every value is the result of a [strings.TrimSpace]. *)
Theorem ParseLog_Headers (r : Reader) (k : string) (vs : list string) :
  Headers (fst (ParseLog r)) !! k = Some vs ->
  vs <> []
  /\ (exists k0, k = CanonicalMIMEHeaderKey (CanonicalMIMEHeaderKey (TrimSpace k0)))
  /\ Forall (fun v => exists raw, v = TrimSpace raw) vs.
Proof.
  destruct (ParseLog_fold r) as [_ ->].
  generalize (match ending r with
              | EOF => allLines (content r)
              | ReadFails _ => fst (readLines (content r))
              end).
  intros lines. revert k vs.
  assert (I : forall k vs, Headers (pr initial) !! k = Some vs ->
                vs <> []
                /\ (exists k0, k = CanonicalMIMEHeaderKey
                                     (CanonicalMIMEHeaderKey (TrimSpace k0)))
                /\ Forall (fun v => exists raw, v = TrimSpace raw) vs).
  { intros k vs L. exfalso. revert L. cbn. apply lookup_empty_Some. }
  revert I. generalize initial.
  induction lines as [|l lines IH]; intros st I; [exact I|].
  simpl. apply IH, headers_processLine, I.
Qed.

End WithLib.

Lemma ParseLog_Headers_witness :
  let r := mkReader Sample.mockRestAssuredLog EOF in
  ["application/json"] <> []
  /\ (exists k0, "Accept"
                 = CanonicalMIMEHeaderKey (GoLib := Sample.lib)
                     (CanonicalMIMEHeaderKey (GoLib := Sample.lib) (TrimSpace k0)))
  /\ Forall (fun v => exists raw, v = TrimSpace raw) ["application/json"].
Proof.
  apply (ParseLog_Headers (H := Sample.lib) (mkReader Sample.mockRestAssuredLog EOF)
           "Accept" ["application/json"]).
  vm_compute. reflexivity.
Defined.

End ParserInvariants.

(** ** The handlers *)

Module SearchServiceProps.
Import GoStrings GoStringsFacts Lib Route.

Lemma Atoi_range (s : string) (n : Z) :
  Atoi s = Some n -> (- 2 ^ 63 <= n < 2 ^ 63)%Z.
Proof.
  unfold Atoi.
  destruct (match s with
            | String "-" s' => (true, s')
            | String "+" s' => (false, s')
            | _ => (false, s)
            end) as [neg digits].
  destruct digits as [|c digits]; [discriminate|].
  destruct (parseDigits _ 0) as [m|]; [|discriminate].
  destruct (_ && _) eqn:R; [|discriminate].
  intros [= <-]. apply andb_true_iff in R as [R1 R2]. lia.
Qed.

(** X18. Whatever the query holds, the limit [SearchHandler] passes on is
    positive and the offset is not negative, both in the range of [int];
    the limit is 20 unless the parameter [limit] is the decimal of the
    limit passed on, and the offset is 0 unless the parameter [offset] is
    the decimal of the offset passed on. *)
Theorem paging_bounds (query : gmap string (list string)) :
  (0 < fst (paging query) < 2 ^ 63)%Z
  /\ (0 <= snd (paging query) < 2 ^ 63)%Z
  /\ (fst (paging query) = 20%Z
      \/ Atoi (Values_Get query "limit") = Some (fst (paging query)))
  /\ (snd (paging query) = 0%Z
      \/ Atoi (Values_Get query "offset") = Some (snd (paging query))).
Proof.
  unfold paging. cbn [fst snd].
  repeat split.
  - destruct (negb _); [|lia].
    destruct (Atoi _) as [n|]; [|lia]. destruct (0 <? n)%Z eqn:P; lia.
  - destruct (negb _); [|lia].
    destruct (Atoi _) as [n|] eqn:A; [|lia].
    apply Atoi_range in A. destruct (0 <? n)%Z; lia.
  - destruct (negb _); [|lia].
    destruct (Atoi _) as [n|]; [|lia]. destruct (0 <=? n)%Z eqn:P; lia.
  - destruct (negb _); [|lia].
    destruct (Atoi _) as [n|] eqn:A; [|lia].
    apply Atoi_range in A. destruct (0 <=? n)%Z; lia.
  - destruct (negb _); [|now left].
    destruct (Atoi _) as [n|]; [|now left]. destruct (0 <? n)%Z; [now right | now left].
  - destruct (negb _); [|now left].
    destruct (Atoi _) as [n|]; [|now left]. destruct (0 <=? n)%Z; [now right | now left].
Qed.

Section WithLib.
Context `{GoLib}.

(** [ParseLog] on bytes in memory. *)
Lemma ParseLog_bytes (data : string) :
  let p := fst (Parser.ParseLog (Parser.mkReader data Parser.EOF)) in
  Parser.Method p = Parser.lastField "Request method:" (Parser.allLines data)
  /\ Parser.URI p = Parser.lastField "Request URI:" (Parser.allLines data)
  /\ snd (Parser.ParseLog (Parser.mkReader data Parser.EOF))
     = if String.eqb (Parser.Method p) "" || String.eqb (Parser.URI p) ""
       then Some Parser.ErrMissingMethodOrURI else None.
Proof.
  unfold Parser.ParseLog. cbn [Parser.ending Parser.content].
  set (st := Parser.consume data).
  set (p := Parser.setBody (Parser.pr st) _).
  assert (F : Parser.Method p = Parser.lastField "Request method:" (Parser.allLines data)
              /\ Parser.URI p = Parser.lastField "Request URI:" (Parser.allLines data)).
  { subst p st. rewrite ParserProps.consume_fold. apply ParserProps.fold_processLine_fields. }
  destruct F as [FM FU].
  destruct (String.eqb (Parser.Method p) "" || String.eqb (Parser.URI p) "") eqn:E;
    cbn [fst snd]; rewrite E; repeat split; assumption.
Qed.

(** X19. [RaSearchHandler] writes a response exactly when the body could
    be read, the last [Request method:] line and the last [Request URI:]
    line of the log have a value, and [FindOperation] resolves the two
    values; the response then names the spec and the operation it found,
    and holds the parsed request with the path parameters it found. *)
Theorem RaSearchHandler_Ok_iff (s : SearchService) (body : option string)
    (resp : RaResponse) :
  RaSearchHandler s body = Ok resp <->
  exists (data : string) (params : gmap string string),
    body = Some data
    /\ Parser.lastField "Request method:" (Parser.allLines data) <> ""
    /\ Parser.lastField "Request URI:" (Parser.allLines data) <> ""
    /\ Indexing.FindOperation (Index s) (Registry s)
         (Parser.lastField "Request method:" (Parser.allLines data))
         (Parser.lastField "Request URI:" (Parser.allLines data))
       = Ok (raSpecName resp, raOperationId resp, params)
    /\ raParsedInfo resp
       = setPathParams (fst (Parser.ParseLog (Parser.mkReader data Parser.EOF))) params.
Proof.
  unfold RaSearchHandler. destruct body as [data|].
  2: { split; [discriminate | intros (d & p & E & _); discriminate E]. }
  destruct (ParseLog_bytes data) as (FM & FU & FE).
  destruct (Parser.ParseLog (Parser.mkReader data Parser.EOF)) as [p e] eqn:EP.
  cbn [fst snd] in FM, FU, FE. subst e. split.
  - destruct (String.eqb_spec (Parser.Method p) "") as [M|M]; [discriminate|].
    destruct (String.eqb_spec (Parser.URI p) "") as [U|U]; [discriminate|].
    cbn [orb]. rewrite FM, FU in *.
    destruct (Indexing.FindOperation _ _ _ _) as [[[specName opID] params]|e] eqn:EF;
      [|discriminate].
    intros [= <-]. exists data, params. rewrite EP. now repeat split.
  - intros (d & ps & [= <-] & M & U & F & P). rewrite EP in P. cbn [fst] in P.
    rewrite <- FM, <- FU in *.
    destruct (String.eqb_spec (Parser.Method p) "") as [M'|_]; [contradiction|].
    destruct (String.eqb_spec (Parser.URI p) "") as [U'|_]; [contradiction|].
    cbn [orb]. rewrite F, <- P. now destruct resp.
Qed.

(** X20. The error of [RaSearchHandler] is a 400 when the body could not
    be read or the log lacks a method or a URI, and a 404 when
    [FindOperation] fails; [ActionHandler] on the same registry and index
    fails with the same error, and where [RaSearchHandler] writes a
    response it sends the request [RaSearchHandler] shows, without its
    path parameters. *)
Theorem ActionHandler_agrees
    (doRequest : Parser.ParsedRequest -> option ParsedResponse)
    (responseString : ParsedResponse -> string)
    (reg : Indexing.Registry) (idx : list Shard) (body : option string) :
  match RaSearchHandler (mkSearchService reg idx) body with
  | Err e =>
      (code e = 400 \/ code e = 404)
      /\ ActionHandler doRequest responseString (mkActionService reg idx) body = Err e
      /\ (code e = 400 <->
          body = None
          \/ exists data : string,
               body = Some data
               /\ (Parser.lastField "Request method:" (Parser.allLines data) = ""
                   \/ Parser.lastField "Request URI:" (Parser.allLines data) = ""))
      /\ (code e = 404 <->
          exists (data : string) (fe : Indexing.FindError),
            body = Some data
            /\ Parser.lastField "Request method:" (Parser.allLines data) <> ""
            /\ Parser.lastField "Request URI:" (Parser.allLines data) <> ""
            /\ Indexing.FindOperation idx reg
                 (Parser.lastField "Request method:" (Parser.allLines data))
                 (Parser.lastField "Request URI:" (Parser.allLines data))
               = Err fe)
  | Ok resp =>
      exists pr : Parser.ParsedRequest,
        raParsedInfo resp = setPathParams pr (Parser.PathParams (raParsedInfo resp))
        /\ ActionHandler doRequest responseString (mkActionService reg idx) body
           = match doRequest pr with
             | None => Err (mkHttpError 500 "request error: ")
             | Some response => Ok (responseString response)
             end
  end.
Proof.
  unfold RaSearchHandler, ActionHandler. cbn [Index Registry actIndex actRegistry].
  destruct body as [data|].
  2: { split; [now left|]. split; [reflexivity|]. cbn [code]. split.
       - split; [intros _; now left | reflexivity].
       - split; [discriminate | intros (d & fe & D & _); discriminate D]. }
  destruct (ParseLog_bytes data) as (FM & FU & FE).
  destruct (Parser.ParseLog (Parser.mkReader data Parser.EOF)) as [p e].
  cbn [fst snd] in FM, FU, FE. subst e.
  destruct (String.eqb_spec (Parser.Method p) "") as [M|M]; cbn [orb].
  { split; [now left|]. split; [reflexivity|]. cbn [code]. split.
    - split; [|reflexivity]. intros _. right. exists data.
      split; [reflexivity|]. left. now rewrite <- FM.
    - split; [discriminate|].
      intros (d & fe & [= <-] & N & _). rewrite <- FM in N. contradiction. }
  destruct (String.eqb_spec (Parser.URI p) "") as [U|U].
  { split; [now left|]. split; [reflexivity|]. cbn [code]. split.
    - split; [|reflexivity]. intros _. right. exists data.
      split; [reflexivity|]. right. now rewrite <- FU.
    - split; [discriminate|].
      intros (d & fe & [= <-] & _ & N & _). rewrite <- FU in N. contradiction. }
  destruct (Indexing.FindOperation _ _ _ _) as [[[specName opID] params]|fe] eqn:EF.
  - exists p. split; reflexivity.
  - split; [now right|]. split; [reflexivity|]. cbn [code]. split.
    + split; [discriminate|].
      intros [D|(d & [= <-] & [N|N])]; [discriminate D | |];
        [rewrite <- FM in N | rewrite <- FU in N]; contradiction.
    + split; [|reflexivity]. intros _. exists data, fe.
      rewrite <- FM, <- FU. now repeat split.
Qed.

End WithLib.

End SearchServiceProps.

Module RouteSpecsProps.
Import GoStrings GoStringsFacts Lib Route.

Lemma TrimLeft_snoc (x cutset : string) (c : ascii) :
  inCutset c cutset = false ->
  TrimLeft (x +:+ String c "") cutset = TrimLeft x cutset +:+ String c "".
Proof.
  intros Hc. induction x as [|d x IH].
  - rewrite append_nil_l. simpl. now rewrite Hc.
  - rewrite append_cons. simpl. destruct (inCutset d cutset); [exact IH|].
    now rewrite append_cons.
Qed.

(** What [Trim(s, "/")] returns neither begins nor ends with a slash. *)
Lemma Trim_no_slash (s : string) :
  HasPrefix (Trim s "/") "/" = false /\ HasSuffix (Trim s "/") "/" = false.
Proof.
  unfold Trim. split; [|apply LoaderInvariants.TrimRight_no_slash].
  pose proof (LoaderInvariants.TrimLeft_head s "/") as Hh.
  destruct (TrimLeft s "/") as [|c t]; [reflexivity|].
  unfold TrimRight. rewrite rev_cons, (TrimLeft_snoc _ _ _ Hh), rev_app.
  change (rev (String c "")) with (String c ""). rewrite append_cons.
  simpl in Hh |- *. rewrite orb_false_r in Hh. now rewrite Hh.
Qed.

Lemma serveByID_Ok_iff (specs : list Spec) (id : string) (served : ServedFile) :
  serveByID specs id = Ok served <->
  exists (i : nat) (s : Spec),
    specs !! i = Some s
    /\ Name s = id
    /\ (forall j s', (j < i)%nat -> specs !! j = Some s' -> Name s' <> id)
    /\ file served = File s
    /\ ctype served = if HasSuffix (File s) ".yaml" || HasSuffix (File s) ".yml"
                      then "application/x-yaml" else "application/json".
Proof.
  induction specs as [|s0 specs IH]; simpl.
  - split; [discriminate | intros (i & s & L & _); discriminate L].
  - destruct (String.eqb_spec (Name s0) id) as [E|N].
    + split.
      * intros [= <-]. exists 0%nat, s0. repeat split; try assumption. intros j s' Hj. lia.
      * intros (i & s & L & En & Hfirst & Ef & Ec). destruct i as [|i].
        -- injection L as <-. destruct served as [c f]. cbn in *. now subst.
        -- exfalso. apply (Hfirst 0%nat s0); [lia | reflexivity | exact E].
    + rewrite IH. split.
      * intros (i & s & L & En & Hfirst & Ef & Ec). exists (S i), s.
        repeat split; try assumption.
        intros [|j] s' Hj L'; [injection L' as <-; exact N|].
        apply (Hfirst j); [lia | exact L'].
      * intros (i & s & L & En & Hfirst & Ef & Ec). destruct i as [|i].
        { injection L as <-. contradiction. }
        exists i, s. repeat split; try assumption.
        intros j s' Hj L'. apply (Hfirst (S j)); [lia | exact L'].
Qed.

(** X22. [SpecByIDHandler] serves a file exactly for a path whose
    remainder after eleven bytes, trimmed of slashes, is the name of a
    spec: the file of the first spec of that name, as YAML when the file
    name ends in [.yaml] or [.yml] and as JSON otherwise. A spec whose
    name is empty, or begins or ends with a slash, is never served. *)
Theorem SpecByIDHandler_Ok_iff (specs : list Spec) (path : string) (served : ServedFile) :
  SpecByIDHandler specs path = Done (Ok served) <->
  (11 <= len path)%nat
  /\ exists (i : nat) (s : Spec),
       specs !! i = Some s
       /\ Name s = Trim (drop 11 path) "/"
       /\ Name s <> ""
       /\ HasPrefix (Name s) "/" = false
       /\ HasSuffix (Name s) "/" = false
       /\ (forall j s', (j < i)%nat -> specs !! j = Some s' -> Name s' <> Name s)
       /\ file served = File s
       /\ ctype served = if HasSuffix (File s) ".yaml" || HasSuffix (File s) ".yml"
                         then "application/x-yaml" else "application/json".
Proof.
  unfold SpecByIDHandler. change (len "/api/specs/") with 11%nat.
  destruct (Nat.ltb_spec (len path) 11) as [Lt|Ge].
  { split; [discriminate | intros [G _]; lia]. }
  destruct (String.eqb_spec (Trim (drop 11 path) "/") "") as [E|N].
  - split; [discriminate|].
    intros (_ & i & s & _ & En & Ne & _). rewrite En in Ne. contradiction.
  - split.
    + intros [= Es]. apply serveByID_Ok_iff in Es as (i & s & L & En & Hf & Ef & Ec).
      split; [exact Ge|]. exists i, s. rewrite En.
      destruct (Trim_no_slash (drop 11 path)). repeat split; assumption.
    + intros (_ & i & s & L & En & Ne & _ & _ & Hf & Ef & Ec). f_equal.
      apply serveByID_Ok_iff. exists i, s. rewrite <- En. repeat split; assumption.
Qed.

Lemma HasPrefix_len (s prefix : string) :
  HasPrefix s prefix = true -> (len prefix <= len s)%nat.
Proof.
  revert s. induction prefix as [|p prefix IH]; intros s; simpl; [lia|].
  destruct s as [|c s]; [discriminate|].
  intros E. apply andb_true_iff in E as [_ E]. apply IH in E. unfold len in *. simpl. lia.
Qed.

Lemma serveByID_Err (specs : list Spec) (id : string) (e : HttpError) :
  serveByID specs id = Err e <->
  e = mkHttpError 404 "spec not found" /\ Forall (fun s => Name s <> id) specs.
Proof.
  induction specs as [|s0 specs IH]; simpl.
  - split; [intros [= <-]; now split | intros [-> _]; reflexivity].
  - destruct (String.eqb_spec (Name s0) id) as [E|N].
    + split; [discriminate|]. intros [_ F]. inversion F; contradiction.
    + rewrite IH. split.
      * intros [-> F]. split; [reflexivity | now constructor].
      * intros [-> F]. split; [reflexivity | now inversion F].
Qed.

(** X23. [SpecByIDHandler] panics exactly on a path of less than eleven
    bytes, which no path below the prefix [/api/specs/] it is mounted on
    is. On any other path it answers 400 exactly when nothing but slashes
    follows the first eleven bytes, and 404 exactly when something does
    and no spec has that name. *)
Theorem SpecByIDHandler_errors (specs : list Spec) (path : string) :
  ((exists msg, SpecByIDHandler specs path = Panic msg) <-> (len path < 11)%nat)
  /\ (HasPrefix path "/api/specs/" = true -> (11 <= len path)%nat)
  /\ forall e : HttpError,
       SpecByIDHandler specs path = Done (Err e) <->
       (11 <= len path)%nat
       /\ ((e = mkHttpError 400 "spec id not provided" /\ Trim (drop 11 path) "/" = "")
           \/ (e = mkHttpError 404 "spec not found"
               /\ Trim (drop 11 path) "/" <> ""
               /\ Forall (fun s => Name s <> Trim (drop 11 path) "/") specs)).
Proof.
  unfold SpecByIDHandler. change (len "/api/specs/") with 11%nat.
  split; [|split].
  - destruct (Nat.ltb_spec (len path) 11) as [Lt|Ge].
    + split; [intros _; exact Lt | intros _; now eexists].
    + split; [|lia]. intros [msg E].
      destruct (String.eqb _ _); discriminate E.
  - intros P. apply HasPrefix_len in P. exact P.
  - intros e. destruct (Nat.ltb_spec (len path) 11) as [Lt|Ge].
    { split; [discriminate | intros [G _]; lia]. }
    destruct (String.eqb_spec (Trim (drop 11 path) "/") "") as [E|N].
    + split.
      * intros [= <-]. split; [exact Ge | now left].
      * intros [_ [[-> _]|(_ & N & _)]]; [reflexivity | contradiction].
    + split.
      * intros [= Er]. apply serveByID_Err in Er as [-> F].
        split; [exact Ge|]. right. now repeat split.
      * intros [_ [[_ E]|(-> & _ & F)]]; [contradiction|].
        f_equal. apply serveByID_Err. now split.
Qed.

Section WithLib.
Context `{GoLib} `{NetLib}.

Lemma fold_proxy_lookup (specs : list Spec) (pm0 : gmap string string) (key : string) :
  fold_left (fun pm s => <[ToLower (Name s) := TrimRight (ProxyBase s) "/"]> pm) specs pm0
    !! key
  = match last (filter (fun s => ToLower (Name s) = key) specs) with
    | Some s => Some (TrimRight (ProxyBase s) "/")
    | None => pm0 !! key
    end.
Proof.
  revert pm0. induction specs as [|s specs IH]; intros pm0; [reflexivity|].
  simpl. rewrite IH, filter_cons.
  destruct (decide (ToLower (Name s) = key)) as [E|N].
  - rewrite last_cons.
    destruct (last (filter _ specs)); [reflexivity|].
    rewrite <- E. apply lookup_insert_eq.
  - destruct (last (filter _ specs)); [reflexivity|].
    apply lookup_insert_ne, N.
Qed.

(** X21. The proxy map [LoadSpecs] returns holds, under the lower-case
    name of each spec of the file, the proxy base of the last spec of that
    lower-case name, without its trailing slashes, and nothing under any
    other key. *)
Theorem LoadSpecs_proxyMap (w : Indexing.World) (path : string) (specs : list Spec)
    (pm : gmap string string) :
  LoadSpecs w path = Ok (specs, pm) ->
  Indexing.files w !! path ≫= json_DecodeSpecs = Some specs
  /\ (forall key : string,
        pm !! key
        = (fun s => TrimRight (ProxyBase s) "/")
            <$> last (filter (fun s => ToLower (Name s) = key) specs))
  /\ (forall key base : string, pm !! key = Some base -> HasSuffix base "/" = false).
Proof.
  unfold LoadSpecs.
  destruct (Indexing.files w !! path) as [text|] eqn:Ef; [|discriminate].
  destruct (json_DecodeSpecs text) as [specs0|] eqn:Ed; [|discriminate].
  intros [= <- <-]. split; [exact Ed|].
  assert (L : forall key : string,
            fold_left (fun pm s => <[ToLower (Name s) := TrimRight (ProxyBase s) "/"]> pm)
              specs0 (∅ : gmap string string) !! key
            = (fun s => TrimRight (ProxyBase s) "/")
                <$> last (filter (fun s => ToLower (Name s) = key) specs0)).
  { intros key. rewrite fold_proxy_lookup.
    destruct (last _); [reflexivity | apply lookup_empty]. }
  split; [exact L|].
  intros key base. rewrite L. destruct (last _) as [s|]; [|discriminate].
  intros [= <-]. apply LoaderInvariants.TrimRight_no_slash.
Qed.

End WithLib.

Lemma LoadSpecs_proxyMap_witness :
  Indexing.files SampleNet.specsWorld !! "/tmp/specs.json"
    ≫= json_DecodeSpecs (NetLib := SampleNet.net) = Some SampleNet.petSpecs
  /\ (forall key : string,
        SampleNet.proxyMap !! key
        = (fun s => TrimRight (ProxyBase s) "/")
            <$> last (filter (fun s => ToLower (GoLib := Sample.lib) (Name s) = key)
                        SampleNet.petSpecs))
  /\ (forall key base : string,
        SampleNet.proxyMap !! key = Some base -> HasSuffix base "/" = false).
Proof.
  apply (LoadSpecs_proxyMap (H := Sample.lib) (H0 := SampleNet.net)
           SampleNet.specsWorld "/tmp/specs.json").
  vm_compute. reflexivity.
Defined.

End RouteSpecsProps.

Module ProxyProps.
Import GoStrings GoStringsFacts Lib Route.

Lemma SplitN_1 (s : string) (sep : ascii) : SplitN s sep 1 = [s].
Proof. destruct s; reflexivity. Qed.

(** [SplitN(s, sep, 2)] cuts [s] at its first separator. *)
Lemma SplitN_2_cases (s : string) (sep : ascii) :
  (free_of sep s = true /\ SplitN s sep 2 = [s])
  \/ exists a b, s = a +:+ String sep b /\ free_of sep a = true /\ SplitN s sep 2 = [a; b].
Proof.
  induction s as [|c s IH].
  - left. now split.
  - change (SplitN (String c s) sep 2)
      with (if Ascii.eqb c sep then EmptyString :: SplitN s sep 1
            else match SplitN s sep 2 with
                 | h :: t => String c h :: t
                 | [] => [String c EmptyString]
                 end).
    destruct (Ascii.eqb_spec c sep) as [->|N].
    + right. exists "", s. rewrite SplitN_1. now repeat split.
    + assert (Nb : negb (Ascii.eqb c sep) = true)
        by (apply negb_true_iff, Ascii.eqb_neq, N).
      destruct IH as [[F E]|(a & b & -> & F & E)]; rewrite E.
      * left. simpl. now rewrite Nb, F.
      * right. exists (String c a), b. rewrite append_cons. simpl. now rewrite Nb, F.
Qed.

Lemma free_of_app_sep (a b : string) (sep : ascii) :
  free_of sep (a +:+ String sep b) = false.
Proof.
  induction a as [|c a IH].
  - rewrite append_nil_l. simpl. now rewrite Ascii.eqb_refl.
  - rewrite append_cons. simpl. rewrite IH. apply andb_false_r.
Qed.

Lemma SplitN_2_cut (a b : string) (sep : ascii) :
  free_of sep a = true -> SplitN (a +:+ String sep b) sep 2 = [a; b].
Proof.
  intros F.
  destruct (SplitN_2_cases (a +:+ String sep b) sep) as [[F' _]|(a' & b' & E & F' & ->)].
  { now rewrite free_of_app_sep in F'. }
  assert (Ea : Split (a +:+ String sep b) sep = Split (a' +:+ String sep b') sep)
    by now rewrite E.
  rewrite !Split_app_sep in Ea by assumption.
  injection Ea as Ea Eb. subst a'.
  assert (Eb' : b' = b).
  { revert E. clear. induction a as [|c a IH].
    - rewrite !append_nil_l. now intros [= ->].
    - rewrite !append_cons. intros [= E]. now apply IH. }
  now subst.
Qed.

Section WithLib.
Context `{GoLib} `{NetLib}.

(** X24. With no [url] parameter, [ProxyHandler] rejects the request as
    an invalid API path exactly when the path, without its prefix
    [/api/], holds no slash. Otherwise the first segment names the spec,
    in any case of letters: a name without proxy base is an error, a
    proxy base [url.Parse] rejects is a nil dereference, and the target is
    the proxy base resolved against the rest of the path and the query. *)
Theorem proxyTarget_path (proxyMap : gmap string string) (r : Request) :
  Values_Get (url_Query (reqURL r)) "url" = "" ->
  (proxyTarget proxyMap r = Done (Err ErrInvalidAPIPath)
   <-> free_of "/" (TrimPrefix (GoURL.Path (reqURL r)) "/api/") = true)
  /\ forall name rest : string,
       free_of "/" name = true ->
       TrimPrefix (GoURL.Path (reqURL r)) "/api/" = name +:+ "/" +:+ rest ->
       proxyTarget proxyMap r
       = match proxyMap !! ToLower name with
         | None => Done (Err (ErrNoProxyBase name))
         | Some base =>
             match url_Parse base with
             | None => Panic "invalid memory address or nil pointer dereference"
             | Some baseURL =>
                 Done (Ok (url_ResolveReference baseURL
                             (GoURL.mkURL "" "" (path_Join (GoURL.Path baseURL) rest)
                                (GoURL.RawQuery (reqURL r)))))
             end
         end.
Proof.
  intros U. unfold proxyTarget. rewrite U. cbn [String.eqb negb].
  split.
  - destruct (SplitN_2_cases (TrimPrefix (GoURL.Path (reqURL r)) "/api/") "/")
      as [[F E]|(a & b & E & F & ES)].
    + rewrite E, F. now split.
    + rewrite ES, E, free_of_app_sep. split; [|discriminate].
      destruct (proxyMap !! ToLower a); [|discriminate].
      destruct (url_Parse _); discriminate.
  - intros name rest F E. rewrite E.
    change (name +:+ "/" +:+ rest) with (name +:+ String "/" rest).
    rewrite (SplitN_2_cut _ _ _ F). reflexivity.
Qed.

Lemma LoadSpecs_Ok (w : Indexing.World) (path : string) (specs : list Spec)
    (pm : gmap string string) :
  LoadSpecs w path = Ok (specs, pm) ->
  forall key : string,
    pm !! key
    = (fun s => TrimRight (ProxyBase s) "/")
        <$> last (filter (fun s => ToLower (Name s) = key) specs).
Proof.
  unfold LoadSpecs.
  destruct (Indexing.files w !! path) as [text|]; [|discriminate].
  destruct (json_DecodeSpecs text) as [specs0|]; [|discriminate].
  intros [= <- <-] key. rewrite RouteSpecsProps.fold_proxy_lookup.
  destruct (last _); [reflexivity | apply lookup_empty].
Qed.

(** X25. Every spec of the file [LoadSpecs] has read is reachable through
    the proxy under its name in any case of letters, when the name holds
    no slash: a request for [/api/<name>/<rest>] without [url] parameter
    goes to the proxy base, without its trailing slashes, of the last
    spec of the file with that lower-case name. *)
Theorem proxy_reaches_spec (w : Indexing.World) (file : string) (specs : list Spec)
    (pm : gmap string string) (s : Spec) (r : Request) (name rest : string) :
  LoadSpecs w file = Ok (specs, pm) ->
  In s specs ->
  ToLower name = ToLower (Name s) ->
  free_of "/" name = true ->
  GoURL.Path (reqURL r) = "/api/" +:+ name +:+ "/" +:+ rest ->
  Values_Get (url_Query (reqURL r)) "url" = "" ->
  exists s' : Spec,
    last (filter (fun s' => ToLower (Name s') = ToLower name) specs) = Some s'
    /\ proxyTarget pm r
       = match url_Parse (TrimRight (ProxyBase s') "/") with
         | None => Panic "invalid memory address or nil pointer dereference"
         | Some baseURL =>
             Done (Ok (url_ResolveReference baseURL
                         (GoURL.mkURL "" "" (path_Join (GoURL.Path baseURL) rest)
                            (GoURL.RawQuery (reqURL r)))))
         end.
Proof.
  intros L Hin En F P U.
  pose proof (LoadSpecs_Ok _ _ _ _ L (ToLower name)) as Lk.
  destruct (last (filter (fun s' => ToLower (Name s') = ToLower name) specs))
    as [s'|] eqn:El.
  2: { exfalso. apply last_None in El.
       assert (Hs : s ∈ filter (fun s' => ToLower (Name s') = ToLower name) specs).
       { apply list_elem_of_filter. split; [now symmetry | now apply list_elem_of_In]. }
       rewrite El in Hs. now apply not_elem_of_nil in Hs. }
  exists s'. split; [reflexivity|].
  unfold proxyTarget. rewrite U, P. cbn [String.eqb negb].
  change (TrimPrefix ("/api/" +:+ name +:+ "/" +:+ rest) "/api/")
    with (name +:+ String "/" rest).
  rewrite (SplitN_2_cut _ _ _ F), Lk. reflexivity.
Qed.

(** *** Headers *)

Lemma addValues_lookup (h : gmap string (list string)) (k : string) (v : list string)
    (K : string) :
  addValues h k v !! K
  = if decide (CanonicalMIMEHeaderKey k = K)
    then match v with
         | [] => h !! K
         | _ => Some (default [] (h !! K) ++ v)
         end
    else h !! K.
Proof.
  unfold addValues. revert h. induction v as [|x v IH]; intros h.
  - simpl. now destruct (decide _).
  - simpl. rewrite IH. unfold Parser.MIMEHeader_Add.
    destruct (decide (CanonicalMIMEHeaderKey k = K)) as [E|N].
    + rewrite E, lookup_insert_eq. destruct v as [|y v]; [reflexivity|].
      cbn [default from_option]. unfold Datatypes.id. now rewrite <- app_assoc.
    + now rewrite lookup_insert_ne.
Qed.

(** A loop that adds to [h0] the values of [src] key by key, but for the
    keys [skip] holds of. *)
Lemma fold_headers_lookup (skip : string -> bool) (src : gmap string (list string))
    (keys : list string) (h0 : gmap string (list string)) (K : string) :
  NoDup keys ->
  (forall k, k ∈ keys -> CanonicalMIMEHeaderKey k = k) ->
  fold_left (fun h k => if skip k then h else addValues h k (default [] (src !! k)))
            keys h0 !! K
  = if decide (K ∈ keys)
    then if skip K then h0 !! K
         else match default [] (src !! K) with
              | [] => h0 !! K
              | vs => Some (default [] (h0 !! K) ++ vs)
              end
    else h0 !! K.
Proof.
  intros Nd. revert h0. induction Nd as [|k keys Hk Nd IH]; intros h0 Hc.
  - cbn [fold_left]. now destruct (decide _).
  - cbn [fold_left]. rewrite IH by (intros k' Hk'; apply Hc; now right).
    assert (Ck : CanonicalMIMEHeaderKey k = k) by (apply Hc; now left).
    destruct (decide (k = K)) as [->|N].
    + rewrite (decide_True (P := K ∈ K :: keys)) by now left.
      rewrite decide_False by exact Hk.
      destruct (skip K); [reflexivity|].
      rewrite addValues_lookup, decide_True by exact Ck.
      now destruct (default [] (src !! K)).
    + assert (Eh : (if skip k then h0 else addValues h0 k (default [] (src !! k))) !! K
                   = h0 !! K).
      { destruct (skip k); [reflexivity|].
        rewrite addValues_lookup, decide_False by congruence. reflexivity. }
      rewrite Eh.
      destruct (decide (K ∈ keys)) as [Hin|Hn].
      * rewrite decide_True by now right. reflexivity.
      * rewrite decide_False; [reflexivity|].
        intros Hin. apply elem_of_cons in Hin as [E|Hin]; [congruence | contradiction].
Qed.

Lemma rangeKeys_canonical (m : gmap string (list string)) :
  (forall k, is_Some (m !! k) -> CanonicalMIMEHeaderKey k = k) ->
  NoDup (Indexing.rangeKeys m)
  /\ forall k, k ∈ Indexing.rangeKeys m -> CanonicalMIMEHeaderKey k = k.
Proof.
  intros Hc. split.
  - unfold Indexing.rangeKeys. apply NoDup_fst_map_to_list.
  - intros k Hin. apply Hc. now apply SanitizerProps.elem_of_rangeKeys.
Qed.

(** X26. The request sent to the target carries every value of a header
    of the incoming request twice, because [r.Clone] has copied the
    headers the loop then adds; a [Host], [Origin] or [Referer] header is
    not added again, so [Host] stays as it came, and [Referer] is set to
    the target. The keys of the incoming headers are canonical, as those
    of a request the server has read are. *)
Theorem forwardHeaders_lookup (target : GoURL.URL) (header : gmap string (list string)) :
  (forall k, is_Some (header !! k) -> CanonicalMIMEHeaderKey k = k) ->
  forwardHeaders target header !! CanonicalMIMEHeaderKey "Referer"
  = Some [url_String target]
  /\ forall K : string,
       K <> CanonicalMIMEHeaderKey "Origin" ->
       K <> CanonicalMIMEHeaderKey "Referer" ->
       forwardHeaders target header !! K
       = (fun vs =>
            if String.eqb (ToLower K) "host" || String.eqb (ToLower K) "origin"
               || String.eqb (ToLower K) "referer"
            then vs else vs ++ vs)
           <$> header !! K.
Proof.
  intros Hc. unfold forwardHeaders, Header_Set. split; [apply lookup_insert_eq|].
  intros K NO NR. rewrite !lookup_insert_ne by congruence.
  destruct (rangeKeys_canonical header Hc) as [Nd Hk].
  pose proof (fold_headers_lookup
                (fun k => String.eqb (ToLower k) "host" || String.eqb (ToLower k) "origin"
                          || String.eqb (ToLower k) "referer")
                header (Indexing.rangeKeys header) header K Nd Hk) as L.
  cbv beta in L. unfold forwardHeader. rewrite L.
  destruct (decide (K ∈ Indexing.rangeKeys header)) as [Hin|Hn].
  - apply SanitizerProps.elem_of_rangeKeys in Hin as [vs E]. rewrite E. cbn [default from_option fmap option_fmap option_map].
    unfold Datatypes.id. destruct (orb (orb _ _) _); [reflexivity|]. now destruct vs.
  - destruct (header !! K) eqn:E; [|reflexivity].
    exfalso. apply Hn, SanitizerProps.elem_of_rangeKeys. rewrite E. now eexists.
Qed.

Lemma copyHeaders_lookup (src wh : gmap string (list string)) (K : string) :
  (forall k, is_Some (src !! k) -> CanonicalMIMEHeaderKey k = k) ->
  fold_left (copyHeader src) (Indexing.rangeKeys src) wh !! K
  = if String.eqb (ToLower K) "transfer-encoding" then wh !! K
    else match src !! K with
         | None | Some [] => wh !! K
         | Some vs => Some (default [] (wh !! K) ++ vs)
         end.
Proof.
  intros Hc. destruct (rangeKeys_canonical src Hc) as [Nd Hk].
  pose proof (fold_headers_lookup
                (fun k => String.eqb (ToLower k) "transfer-encoding")
                src (Indexing.rangeKeys src) wh K Nd Hk) as L.
  cbv beta in L. unfold copyHeader. rewrite L.
  destruct (decide (K ∈ Indexing.rangeKeys src)) as [Hin|Hn].
  - apply SanitizerProps.elem_of_rangeKeys in Hin as [vs E]. rewrite E.
    cbn [default from_option]. unfold Datatypes.id.
    destruct (String.eqb _ _); [reflexivity|]. now destruct vs.
  - destruct (src !! K) eqn:E.
    + exfalso. apply Hn, SanitizerProps.elem_of_rangeKeys. rewrite E. now eexists.
    + now destruct (String.eqb _ _).
Qed.

Lemma ProxyHandler_Ok (proxyMap : gmap string string) (client : Request -> option Response)
    (wh : gmap string (list string)) (r : Request) (out : Response) :
  ProxyHandler proxyMap client wh r = Done (Ok out) ->
  exists (target : GoURL.URL) (up : Response),
    proxyTarget proxyMap r = Done (Ok target)
    /\ client (mkRequest (reqMethod r) target (forwardHeaders target (reqHeader r)))
       = Some up
    /\ out = mkResponse (StatusCode up)
               (fold_left (copyHeader (respHeader up))
                  (Indexing.rangeKeys (respHeader up)) wh)
               (respBody up).
Proof.
  unfold ProxyHandler.
  destruct (proxyTarget proxyMap r) as [[target|[| |name]]|msg]; try discriminate.
  destruct (client _) as [up|] eqn:Ec; [|discriminate].
  intros [= <-]. now exists target, up.
Qed.

(** X27. What [ProxyHandler] writes on success is the answer of the
    target to the forwarded request: its status, its body, and its
    headers added to those the response already has, so that for a header
    present on both sides the values of the target come last; a
    [Transfer-Encoding] header of the target is left out. *)
Theorem ProxyHandler_relays (proxyMap : gmap string string)
    (client : Request -> option Response)
    (wh : gmap string (list string)) (r : Request) (out : Response) :
  ProxyHandler proxyMap client wh r = Done (Ok out) ->
  exists (target : GoURL.URL) (up : Response),
    proxyTarget proxyMap r = Done (Ok target)
    /\ client (mkRequest (reqMethod r) target (forwardHeaders target (reqHeader r)))
       = Some up
    /\ StatusCode out = StatusCode up
    /\ respBody out = respBody up
    /\ ((forall k, is_Some (respHeader up !! k) -> CanonicalMIMEHeaderKey k = k) ->
        forall K : string,
          respHeader out !! K
          = if String.eqb (ToLower K) "transfer-encoding" then wh !! K
            else match respHeader up !! K with
                 | None | Some [] => wh !! K
                 | Some vs => Some (default [] (wh !! K) ++ vs)
                 end).
Proof.
  intros E. apply ProxyHandler_Ok in E as (target & up & Et & Ec & ->).
  exists target, up. repeat split; try assumption.
  intros Hc K. cbn [respHeader]. now apply copyHeaders_lookup.
Qed.

(** X28. Behind [WithCORS], as the proxy is mounted, a proxied response
    carries [Access-Control-Allow-Origin] with the value [*] first and the
    values the target has sent for that header after it. *)
Theorem proxy_allow_origin (proxyMap : gmap string string)
    (client : Request -> option Response)
    (wh : gmap string (list string)) (r : Request) (out : Response) :
  let A := CanonicalMIMEHeaderKey "Access-Control-Allow-Origin" in
  CanonicalMIMEHeaderKey "Access-Control-Allow-Methods" <> A ->
  CanonicalMIMEHeaderKey "Access-Control-Allow-Headers" <> A ->
  String.eqb (ToLower A) "transfer-encoding" = false ->
  WithCORS (ProxyHandler proxyMap client) wh r = Done (Handled (Ok out)) ->
  exists (target : GoURL.URL) (up : Response),
    proxyTarget proxyMap r = Done (Ok target)
    /\ client (mkRequest (reqMethod r) target (forwardHeaders target (reqHeader r)))
       = Some up
    /\ ((forall k, is_Some (respHeader up !! k) -> CanonicalMIMEHeaderKey k = k) ->
        respHeader out !! A = Some ("*" :: default [] (respHeader up !! A))).
Proof.
  intros A NM NH NT. unfold WithCORS.
  destruct (String.eqb (reqMethod r) "OPTIONS"); [discriminate|].
  destruct (ProxyHandler _ _ _ _) as [[o|e]|msg] eqn:E; try discriminate.
  intros [= ->]. apply ProxyHandler_Ok in E as (target & up & Et & Ec & ->).
  exists target, up. repeat split; try assumption.
  intros Hc. cbn [respHeader]. rewrite (copyHeaders_lookup _ _ _ Hc), NT.
  assert (W : withCORSHeaders wh !! A = Some ["*"]).
  { unfold withCORSHeaders, corsHeaders, Header_Set. cbn [fold_left fst snd].
    rewrite !lookup_insert_ne by assumption. apply lookup_insert_eq. }
  rewrite W. now destruct (respHeader up !! A) as [[|v vs]|].
Qed.

End WithLib.

Lemma proxyTarget_path_witness :
  let r := SampleNet.request "GET" "/api/petstore/pets/1" ∅ in
  (proxyTarget (H := Sample.lib) (H0 := SampleNet.net) SampleNet.proxyMap r
   = Done (Err ErrInvalidAPIPath)
   <-> free_of "/" (TrimPrefix (GoURL.Path (reqURL r)) "/api/") = true)
  /\ forall name rest : string,
       free_of "/" name = true ->
       TrimPrefix (GoURL.Path (reqURL r)) "/api/" = name +:+ "/" +:+ rest ->
       proxyTarget (H := Sample.lib) (H0 := SampleNet.net) SampleNet.proxyMap r
       = match SampleNet.proxyMap !! ToLower (GoLib := Sample.lib) name with
         | None => Done (Err (ErrNoProxyBase name))
         | Some base =>
             match url_Parse (GoLib := Sample.lib) base with
             | None => Panic "invalid memory address or nil pointer dereference"
             | Some baseURL =>
                 Done (Ok (url_ResolveReference (NetLib := SampleNet.net) baseURL
                             (GoURL.mkURL "" ""
                                (path_Join (NetLib := SampleNet.net)
                                   (GoURL.Path baseURL) rest)
                                (GoURL.RawQuery (reqURL r)))))
             end
         end.
Proof.
  apply (proxyTarget_path (H := Sample.lib) (H0 := SampleNet.net) SampleNet.proxyMap
           (SampleNet.request "GET" "/api/petstore/pets/1" ∅)).
  vm_compute. reflexivity.
Defined.

Lemma proxy_reaches_spec_witness :
  let r := SampleNet.request "GET" "/api/PETSTORE/pets/1" ∅ in
  exists s' : Spec,
    last (filter (fun s' => ToLower (GoLib := Sample.lib) (Name s')
                            = ToLower (GoLib := Sample.lib) "PETSTORE")
            SampleNet.petSpecs) = Some s'
    /\ proxyTarget (H := Sample.lib) (H0 := SampleNet.net) SampleNet.proxyMap r
       = match url_Parse (GoLib := Sample.lib) (TrimRight (ProxyBase s') "/") with
         | None => Panic "invalid memory address or nil pointer dereference"
         | Some baseURL =>
             Done (Ok (url_ResolveReference (NetLib := SampleNet.net) baseURL
                         (GoURL.mkURL "" ""
                            (path_Join (NetLib := SampleNet.net)
                               (GoURL.Path baseURL) "pets/1")
                            (GoURL.RawQuery (reqURL r)))))
         end.
Proof.
  apply (proxy_reaches_spec (H := Sample.lib) (H0 := SampleNet.net)
           SampleNet.specsWorld "/tmp/specs.json" SampleNet.petSpecs SampleNet.proxyMap
           (mkSpec "Pet Store" "PetStore" "specs/petstore.yaml" ""
              "https://pets.example.com/v2/")
           (SampleNet.request "GET" "/api/PETSTORE/pets/1" ∅) "PETSTORE" "pets/1").
  - vm_compute. reflexivity.
  - left. reflexivity.
  - vm_compute. reflexivity.
  - reflexivity.
  - reflexivity.
  - vm_compute. reflexivity.
Defined.

Lemma forwardHeaders_lookup_witness :
  let target := GoURL.mkURL "https" "pets.example.com" "/v2/pets/1" "" in
  let header : gmap string (list string) :=
    <["Accept" := ["application/json"]]> (<["Host" := ["localhost:5001"]]> ∅) in
  forwardHeaders (H := Sample.lib) (H0 := SampleNet.net) target header
    !! CanonicalMIMEHeaderKey (GoLib := Sample.lib) "Referer"
  = Some [url_String (NetLib := SampleNet.net) target]
  /\ forall K : string,
       K <> CanonicalMIMEHeaderKey (GoLib := Sample.lib) "Origin" ->
       K <> CanonicalMIMEHeaderKey (GoLib := Sample.lib) "Referer" ->
       forwardHeaders (H := Sample.lib) (H0 := SampleNet.net) target header !! K
       = (fun vs =>
            if String.eqb (ToLower (GoLib := Sample.lib) K) "host"
               || String.eqb (ToLower (GoLib := Sample.lib) K) "origin"
               || String.eqb (ToLower (GoLib := Sample.lib) K) "referer"
            then vs else vs ++ vs)
           <$> header !! K.
Proof.
  apply (forwardHeaders_lookup (H := Sample.lib) (H0 := SampleNet.net)).
  intros k Hk.
  apply lookup_insert_is_Some in Hk as [<-|[_ Hk]]; [reflexivity|].
  apply lookup_insert_is_Some in Hk as [<-|[_ Hk]]; [reflexivity|].
  rewrite lookup_empty in Hk. now destruct Hk.
Defined.

Lemma ProxyHandler_relays_witness :
  let r := SampleNet.request "GET" "/api/petstore/pets" ∅ in
  let wh : gmap string (list string) := ∅ in
  let out := mkResponse 200
               (<["Content-Type" := ["application/json"]]>
                  (<["Access-Control-Allow-Origin" := ["https://pets.example.com"]]> ∅))
               "[]" in
  exists (target : GoURL.URL) (up : Response),
    proxyTarget (H := Sample.lib) (H0 := SampleNet.net) SampleNet.proxyMap r
    = Done (Ok target)
    /\ SampleNet.upstream
         (mkRequest (reqMethod r) target
            (forwardHeaders (H := Sample.lib) (H0 := SampleNet.net) target (reqHeader r)))
       = Some up
    /\ StatusCode out = StatusCode up
    /\ respBody out = respBody up
    /\ ((forall k, is_Some (respHeader up !! k) ->
                   CanonicalMIMEHeaderKey (GoLib := Sample.lib) k = k) ->
        forall K : string,
          respHeader out !! K
          = if String.eqb (ToLower (GoLib := Sample.lib) K) "transfer-encoding"
            then wh !! K
            else match respHeader up !! K with
                 | None | Some [] => wh !! K
                 | Some vs => Some (default [] (wh !! K) ++ vs)
                 end).
Proof.
  apply (ProxyHandler_relays (H := Sample.lib) (H0 := SampleNet.net)
           SampleNet.proxyMap SampleNet.upstream ∅
           (SampleNet.request "GET" "/api/petstore/pets" ∅)).
  vm_compute. reflexivity.
Defined.

Lemma proxy_allow_origin_witness :
  let r := SampleNet.request "GET" "/api/petstore/pets" ∅ in
  let A := CanonicalMIMEHeaderKey (GoLib := Sample.lib) "Access-Control-Allow-Origin" in
  let out :=
    match WithCORS (H := Sample.lib)
            (ProxyHandler (H := Sample.lib) (H0 := SampleNet.net)
               SampleNet.proxyMap SampleNet.upstream) ∅ r with
    | Done (Handled (Ok out)) => out
    | _ => mkResponse 0 ∅ ""
    end in
  exists (target : GoURL.URL) (up : Response),
    proxyTarget (H := Sample.lib) (H0 := SampleNet.net) SampleNet.proxyMap r
    = Done (Ok target)
    /\ SampleNet.upstream
         (mkRequest (reqMethod r) target
            (forwardHeaders (H := Sample.lib) (H0 := SampleNet.net) target (reqHeader r)))
       = Some up
    /\ ((forall k, is_Some (respHeader up !! k) ->
                   CanonicalMIMEHeaderKey (GoLib := Sample.lib) k = k) ->
        respHeader out !! A = Some ("*" :: default [] (respHeader up !! A))).
Proof.
  apply (proxy_allow_origin (H := Sample.lib) (H0 := SampleNet.net)
           SampleNet.proxyMap SampleNet.upstream ∅
           (SampleNet.request "GET" "/api/petstore/pets" ∅)).
  - vm_compute. discriminate.
  - vm_compute. discriminate.
  - vm_compute. reflexivity.
  - vm_compute. reflexivity.
Defined.

End ProxyProps.

(** ** The tests of the repository, run on the model *)

Module RepoTests.
Import GoStrings Lib.

(** [TestParseLog] *)
Example TestParseLog :
  Parser.ParseLog (H := Sample.lib) (Parser.mkReader Sample.mockRestAssuredLog Parser.EOF)
  = (Parser.mkParsedRequest "POST" "http://example.com/api/test?foo=bar&baz=qux"
       {["Content-Type" := ["application/json"]; "Accept" := ["application/json"]]}
       {["foo" := ["bar"]; "baz" := ["qux"]]}
       Sample.keyValueBody ∅,
     None).
Proof. vm_compute. reflexivity. Qed.

(** [TestLoadConfigAndFindOperation] *)
Example TestLoadConfigAndFindOperation :
  let reg := Sample.registryOf Sample.testConfig in
  let idx := Sample.aliasOf Sample.testConfig in
  Indexing.FindOperation (H := Sample.lib) idx reg "GET"
    "http://example.com/api/items/123?foo=bar"
  = Ok ("test-spec", "getItem", {["id" := "123"]})
  /\ Indexing.FindOperation (H := Sample.lib) idx reg "POST"
       "http://example.com/api/items/123"
     = Err Indexing.ErrNoOperation
  /\ Indexing.FindOperation (H := Sample.lib) idx reg "GET"
       "http://example.com/api/unknown/1"
     = Err Indexing.ErrNoOperation.
Proof. vm_compute. repeat split. Qed.

(** [TestBleveSearch]: the number of results and the total of each query. *)
Example TestBleveSearch :
  let idx := Sample.aliasOf Sample.searchConfig in
  let count := fun q =>
    match Indexing.SearchBleve (H := Sample.lib) idx [] [] q 10 0 with
    | Ok (results, total) => Some (List.length results, total)
    | Err _ => None
    end in
  count "getThing" = Some (1, 1)
  /\ count "thing" = Some (2, 2)
  /\ count "Retrieve" = Some (1, 1)
  /\ count "nonexistent" = Some (0, 0).
Proof. vm_compute. repeat split. Qed.

(** A first startup rebuilds the shard of the test spec; a second one on
    what it left behind logs no rebuild and changes nothing. *)
Example startup_twice :
  let w1 := Sample.startedWorld Sample.testConfig in
  Indexing.logged w1 = ["→ rebuilding test-spec (hash changed or missing)"]
  /\ fst (Indexing.BuildShardedIndices (H := Sample.lib) Indexing.noFaults w1
            "/tmp/cache" (Sample.registryOf Sample.testConfig))
     = w1.
Proof. vm_compute. repeat split. Qed.

(** Title-casing adds the key [Pet] beside [pet]. *)
Example sanitizeComponents_pet :
  Indexing.sanitizeComponents (H := Sample.lib)
    (Some {["components" := JObject {["schemas" := JObject {["pet" := JObject ∅]}]}]})
  = Done (Some {["components" :=
                   JObject {["schemas" :=
                               JObject {["pet" := JObject ∅; "Pet" := JObject ∅]}]}]}).
Proof. vm_compute. reflexivity. Qed.

End RepoTests.
